(** * Vocabulary-training bot: card selection and the per-user session machine

    A shallow embedding of [src/main.py] (handlers [create_card], [add_word],
    [delete_word], [process_word_actions], [handle_text], class [State]) and of
    the tables of [src/setup_db.py] that these handlers query.

    Conventions of the embedding
    - Python [str] is [string]; [str.lower()] is [lower] below, which maps the
      ASCII letters A-Z to a-z and keeps every other byte.  The theorems use
      [lower] only as a function, plus its idempotence; the concrete inputs
      are ASCII or lowercase Cyrillic, where it agrees with Python.
    - The database is a record of row lists; a query [filter_by(...).first()]
      is the first row of the list that satisfies the filter, [.all()] is the
      sub-list of the rows that satisfy it.  A row's identity is its position.
    - The module [random] is a tape of natural numbers held in the world:
      [randbelow n] consumes one entry [r] and returns [r mod n].
    - [bot.send_message] appends to the trace [sent] of the world. *)

From Stdlib Require Import ZArith String Ascii List.
From stdpp Require Import base option list gmap sets strings.
From stdpp Require Import sorting.

Set Warnings "-clear-no-such-hyp".

Local Open Scope string_scope.
Local Open Scope list_scope.
Local Open Scope Z_scope.

(** ** Strings *)

Definition lower_ascii (c : ascii) : ascii :=
  let n := N_of_ascii c in
  if ((65 <=? n) && (n <=? 90))%N then ascii_of_N (n + 32) else c.

(** [s.lower()] *)
Fixpoint lower (s : string) : string :=
  match s with
  | EmptyString => EmptyString
  | String c s' => String (lower_ascii c) (lower s')
  end.

(** ** Tables of [setup_db.py] *)

Module User.
Record t := mk { id : Z; chat_id : Z }.
End User.

Module UserWord.
Record t := mk {
  user_id : Z;
  word : string;
  translation : string;
  category : string;
  level : Z;
  is_custom : bool
}.

#[global] Instance eq_dec : EqDecision t.
Proof. solve_decision. Defined.

(** [UserWord(user_id=.., word=.., translation=.., category=.., level=..)]:
    a column that the constructor call does not name takes its declared
    default, [is_custom = Column(Boolean, default=False)]. *)
Definition new (user_id : Z) (word translation category : string) (level : Z) : t :=
  mk user_id word translation category level false.
End UserWord.

Module UserState.
(** [level] and [category] are nullable columns. *)
Record t := mk { user_id : Z; level : option Z; category : option string }.
End UserState.

Record DB := mkDB {
  users : list User.t;
  user_states : list UserState.t;
  user_words : list UserWord.t
}.

(** ** The volatile session record (the [dict] kept per chat in [State]) *)

Inductive Action := add_word_action | add_translation_action | delete_word_action.

#[global] Instance Action_eq_dec : EqDecision Action.
Proof. solve_decision. Defined.

Module Temp.
(** One field per key the handlers use; [None] is an absent key.  The key
    ["level"] holds [state.level], which may itself be [None]: the handlers
    read it with [.get], which does not tell the two apart, and it is only
    ever written together with ["action"] and ["category"]. *)
Record t := mk {
  recent_words : option (list string);
  wrong_answers : option (list string);
  target_word : option string;
  translate_word : option string;
  action : option Action;
  category : option string;
  level : option Z;
  russian : option string
}.

(** [{}] *)
Definition empty : t := mk None None None None None None None None.

Definition set_card (recent : list string) (target translate : string) (d : t) : t :=
  mk (Some recent) (wrong_answers d) (Some target) (Some translate)
     (action d) (category d) (level d) (russian d).

Definition set_wrong_answers (wrong : list string) (d : t) : t :=
  mk (recent_words d) (Some wrong) (target_word d) (translate_word d)
     (action d) (category d) (level d) (russian d).

Definition set_staged (a : Action) (cat : string) (lvl : option Z) (d : t) : t :=
  mk (recent_words d) (wrong_answers d) (target_word d) (translate_word d)
     (Some a) (Some cat) lvl (russian d).

Definition set_russian (text : string) (a : Action) (d : t) : t :=
  mk (recent_words d) (wrong_answers d) (target_word d) (translate_word d)
     (Some a) (category d) (level d) (Some text).

(** [d.pop("russian", None)]: the dict that is left *)
Definition pop_russian (d : t) : t :=
  mk (recent_words d) (wrong_answers d) (target_word d) (translate_word d)
     (action d) (category d) (level d) None.
End Temp.

(** ** class [State] *)

Module State.
Definition get (chat_id : Z) (users_state : gmap Z Temp.t) : option Temp.t :=
  users_state !! chat_id.

Definition set (chat_id : Z) (data : Temp.t) (users_state : gmap Z Temp.t)
  : gmap Z Temp.t :=
  <[chat_id := data]> users_state.

Definition clear (chat_id : Z) (users_state : gmap Z Temp.t) : gmap Z Temp.t :=
  delete chat_id users_state.
End State.

(** ** Messages sent by the bot *)

Inductive Reply :=
| NoWordsAvailable                 (* "Нет доступных слов для обучения." *)
| Card (level : option Z) (category translate : string) (options : list string)
| EnterRussian                     (* "Введите слово на русском:" *)
| EnterRussianToDelete             (* "Введите слово на русском для удаления:" *)
| EnterTranslation                 (* "Введите перевод на английский:" *)
| AddDataError                     (* "Ошибка данных добавления слова." *)
| WordExists (russian english : string)
                                   (* "Слово 'r' → 'e' уже имеется." *)
| WordStored (russian english : string)
                                   (* after the insert: "Слово 'r → e' уже имеется." *)
| WordDeleted (text : string)      (* "Слово 'text' удалено!" *)
| WordNotFound                     (* "Слово не найдено." *)
| NoCurrentWord                    (* "Ошибка: текущее слово не найдено." *)
| Correct                          (* "Правильно! 👍" *)
| Incorrect                        (* "Неправильно! Попробуйте снова." *)
| Menu.                            (* a keyboard of categories or of levels *)

(** ** The world the handlers run in *)

Record World := mkWorld {
  db : DB;
  state_storage : gmap Z Temp.t;
  rng : list nat;
  sent : list (Z * Reply)
}.

Definition send_message (chat_id : Z) (r : Reply) (w : World) : World :=
  mkWorld (db w) (state_storage w) (rng w) (sent w ++ [(chat_id, r)]).

Definition with_storage (s : gmap Z Temp.t) (w : World) : World :=
  mkWorld (db w) s (rng w) (sent w).

Definition with_user_words (rows : list UserWord.t) (w : World) : World :=
  mkWorld (mkDB (users (db w)) (user_states (db w)) rows)
          (state_storage w) (rng w) (sent w).

(** The session of a chat as the handlers read it:
    [state_storage.get(chat_id) or {}]. *)
Definition temp_of (chat_id : Z) (w : World) : Temp.t :=
  default Temp.empty (State.get chat_id (state_storage w)).

(** ** Module [random] *)

Definition randbelow (n : nat) (tape : list nat) : nat * list nat :=
  match tape with
  | [] => (0%nat, [])
  | r :: tape' => (r mod n, tape')%nat
  end.

(** [random.choice(seq)] is [seq[randbelow(len(seq))]]. *)
Definition choice {A} (seq : list A) (tape : list nat) : option A * list nat :=
  let '(j, tape') := randbelow (length seq) tape in (seq !! j, tape').

(** [x[i], x[j] = x[j], x[i]] *)
Definition swap {A} (x : list A) (i j : nat) : list A :=
  match x !! i, x !! j with
  | Some xi, Some xj => <[i := xj]> (<[j := xi]> x)
  | _, _ => x
  end.

(** [for i in reversed(range(1, k + 1)): j = randbelow(i + 1); swap] *)
Fixpoint shuffle_loop {A} (k : nat) (x : list A) (tape : list nat)
  : list A * list nat :=
  match k with
  | O => (x, tape)
  | S k' =>
      let '(j, tape') := randbelow (S k) tape in
      shuffle_loop k' (swap x k j) tape'
  end.

(** [random.shuffle(x)] *)
Definition shuffle {A} (x : list A) (tape : list nat) : list A * list nat :=
  shuffle_loop (length x - 1) x tape.

(** ** [create_card] *)

(** Lines 489-494: the candidates outside [recent_words], or all of them. *)
Definition available_words (words : list UserWord.t) (recent_words : list string)
  : list UserWord.t :=
  let available :=
    filter (λ word, lower (UserWord.word word) ∉ recent_words) words in
  match available with
  | [] => words
  | _ => available
  end.

(** Lines 497-505: the weighted pool. *)
Definition weighted_words (available : list UserWord.t) (wrong_answers : list string)
  : list UserWord.t :=
  let wrong_words_set : gset string := list_to_set wrong_answers in
  let weighted :=
    fold_left
      (λ acc word,
         if decide (lower (UserWord.word word) ∈ wrong_words_set)
         then acc ++ [word; word] else acc)
      available available in
  match weighted with
  | [] => available
  | _ => weighted
  end.

(** Lines 513-516: append, then drop the front entry when longer than 3. *)
Definition push_recent (recent_words : list string) (target : string) : list string :=
  let recent := recent_words ++ [target] in
  if decide (3 < length recent)%nat then drop 1 recent else recent.

(** Line 524 *)
Definition other_words (words : list UserWord.t) (target_word : string) : list string :=
  UserWord.word <$>
    filter (λ w, lower (UserWord.word w) ≠ lower target_word) words.

(** Lines 528-529: [stack] is [options] seen from its end, where [pop] takes. *)
Fixpoint draw_options (unique_options : gset string) (stack : list string)
  : gset string :=
  match stack with
  | [] => unique_options
  | o :: stack' =>
      if decide (size unique_options < 4)%nat
      then draw_options (unique_options ∪ {[lower o]}) stack'
      else unique_options
  end.

(** A handler either returns or raises; what it did to the world before the
    exception stays done (the polling loop logs the exception and goes on). *)
Inductive outcome :=
| Done (w : World)
| Raised (w : World). (* AttributeError: an attribute of [None] was read *)

Definition world_of (o : outcome) : World :=
  match o with Done w | Raised w => w end.

Definition bind (o : outcome) (k : World → outcome) : outcome :=
  match o with
  | Done w => k w
  | Raised w => Raised w
  end.

Definition create_card (chat_id : Z) (category : option string)
    (words : list UserWord.t) (state : UserState.t) (w : World) : outcome :=
  match words with
  | [] => Done (send_message chat_id NoWordsAvailable w)
  | _ =>
      let temp_state := temp_of chat_id w in
      let recent_words := default [] (Temp.recent_words temp_state) in
      let wrong_answers := default [] (Temp.wrong_answers temp_state) in
      let available := available_words words recent_words in
      let weighted := weighted_words available wrong_answers in
      let '(picked, tape1) := choice weighted (rng w) in
      match picked with
      | None => Raised w (* IndexError of an empty pool; see [choice_weighted] *)
      | Some word =>
          let target_word := UserWord.word word in
          let translate := UserWord.translation word in
          let recent_words := push_recent recent_words (lower target_word) in
          let temp_state :=
            Temp.set_card recent_words (lower target_word) (lower translate)
                          temp_state in
          let '(options, tape2) := shuffle (other_words words target_word) tape1 in
          let unique_options :=
            draw_options {[lower target_word]} (reverse options) in
          let '(options, tape3) := shuffle (elements unique_options) tape2 in
          let w :=
            mkWorld (db w) (State.set chat_id temp_state (state_storage w))
                    tape3 (sent w) in
          match category with
          | None => Raised w (* [category.capitalize()] in the greeting *)
          | Some category =>
              Done (send_message chat_id
                      (Card (UserState.level state) category translate options) w)
          end
      end
  end.

(** ** Queries *)

(** [db.query(T).filter_by(...).first()] *)
Definition first {A} (P : A → Prop) `{!∀ x, Decision (P x)} (rows : list A)
  : option A :=
  snd <$> list_find P rows.

Definition user_of (chat_id : Z) (d : DB) : option User.t :=
  first (λ u, User.chat_id u = chat_id) (users d).

Definition state_of (user : User.t) (d : DB) : option UserState.t :=
  first (λ s, UserState.user_id s = User.id user) (user_states d).

(** [get_all_words]; [None] is the AttributeError of [user.id] on a missing
    user.  A [None] category or level compares equal to no row: the columns
    of [UserWord] are not nullable. *)
Definition get_all_words (chat_id : Z) (category : option string) (d : DB)
  : option (list UserWord.t) :=
  match user_of chat_id d with
  | None => None
  | Some user =>
      let current_level :=
        match state_of user d with
        | Some state => UserState.level state
        | None => Some 1
        end in
      Some (filter (λ x, UserWord.user_id x = User.id user
                         ∧ Some (UserWord.category x) = category
                         ∧ Some (UserWord.level x) = current_level)
                   (user_words d))
  end.

(** ** Handlers that open the add and the delete dialogue *)

Definition add_word (chat_id : Z) (w : World) : outcome :=
  match user_of chat_id (db w) with
  | None => Raised w
  | Some user =>
      match state_of user (db w) with
      | None => Done w
      | Some state =>
          match UserState.category state with
          | None => Done w
          | Some category =>
              if decide (category = "") then Done w
              else
                let w := send_message chat_id EnterRussian w in
                let temp_state := temp_of chat_id w in
                let temp_state :=
                  Temp.set_staged add_word_action (lower category)
                                  (UserState.level state) temp_state in
                Done (with_storage
                        (State.set chat_id temp_state (state_storage w)) w)
          end
      end
  end.

Definition delete_word (chat_id : Z) (w : World) : outcome :=
  match user_of chat_id (db w) with
  | None => Raised w
  | Some user =>
      match state_of user (db w) with
      | None => Done w
      | Some state =>
          match UserState.category state with
          | None => Done w
          | Some category =>
              if decide (category = "") then Done w
              else
                let w := send_message chat_id EnterRussianToDelete w in
                let temp_state := temp_of chat_id w in
                let temp_state :=
                  Temp.set_staged delete_word_action (lower category)
                                  (UserState.level state) temp_state in
                Done (with_storage
                        (State.set chat_id temp_state (state_storage w)) w)
          end
      end
  end.

(** [next_card] *)
Definition next_card (chat_id : Z) (w : World) : outcome :=
  match user_of chat_id (db w) with
  | None => Raised w
  | Some user =>
      match state_of user (db w) with
      | None => Done w
      | Some state =>
          match UserState.category state with
          | None => Done w
          | Some category =>
              if decide (category = "") then Done w
              else
                match get_all_words chat_id (Some category) (db w) with
                | None => Raised w
                | Some words => create_card chat_id (Some category) words state w
                end
          end
      end
  end.

(** ** [process_word_actions] *)

(** [temp_state] is the dict that [handle_text] read from [state_storage];
    whenever a branch below updates it, it has an ["action"] or a
    ["target_word"] key, so it is the stored object and not the fresh [{}]:
    an update in place is an update of the store. *)
Definition update_in_place (chat_id : Z) (temp_state : Temp.t) (w : World) : World :=
  with_storage (State.set chat_id temp_state (state_storage w)) w.

Definition clear_session (chat_id : Z) (w : World) : World :=
  with_storage (State.clear chat_id (state_storage w)) w.

(** A new card for the staged category, then [state_storage.clear(chat_id)]. *)
Definition card_then_clear (chat_id : Z) (category : string)
    (state : UserState.t) (w : World) : outcome :=
  match get_all_words chat_id (Some category) (db w) with
  | None => Raised w
  | Some words =>
      bind (create_card chat_id (Some category) words state w)
           (λ w, Done (clear_session chat_id w))
  end.

Definition falsy_str (s : string) : bool := bool_decide (s = "").

(** Lines 655-661: [filter_by(user_id=user.id, word=english.lower(),
    translation=russian.lower(), category=category.lower(), level=level)] *)
Definition add_filter (user : User.t) (english russian category : string)
    (level : Z) (x : UserWord.t) : Prop :=
  UserWord.user_id x = User.id user
  ∧ UserWord.word x = lower english
  ∧ UserWord.translation x = lower russian
  ∧ UserWord.category x = lower category
  ∧ UserWord.level x = level.

#[global] Instance add_filter_dec user english russian category level x :
  Decision (add_filter user english russian category level x).
Proof. unfold add_filter. apply _. Defined.

(** Lines 696-701: [filter_by(user_id=user.id, translation=text,
    category=category.lower(), level=level)]; a [None] level matches no row. *)
Definition delete_filter (user : User.t) (text category : string)
    (level : option Z) (x : UserWord.t) : Prop :=
  UserWord.user_id x = User.id user
  ∧ UserWord.translation x = text
  ∧ UserWord.category x = lower category
  ∧ Some (UserWord.level x) = level.

#[global] Instance delete_filter_dec user text category level x :
  Decision (delete_filter user text category level x).
Proof. unfold delete_filter. apply _. Defined.

Definition process_word_actions (chat_id : Z) (message_text : string)
    (user : User.t) (state : UserState.t) (temp_state : Temp.t) (w : World)
  : outcome :=
  let text := lower message_text in
  match Temp.action temp_state with
  | Some add_word_action =>
      let w := send_message chat_id EnterTranslation w in
      let temp_state := Temp.set_russian text add_translation_action temp_state in
      Done (update_in_place chat_id temp_state w)
  | Some add_translation_action =>
      let russian := Temp.russian temp_state in
      let w := update_in_place chat_id (Temp.pop_russian temp_state) w in
      let english := text in
      match russian, Temp.category temp_state, Temp.level temp_state with
      | Some russian, Some category, Some level =>
          if falsy_str russian || falsy_str category || bool_decide (level = 0)
          then Done (send_message chat_id AddDataError w)
          else
            let existing_word :=
              first (add_filter user english russian category level)
                    (user_words (db w)) in
            match existing_word with
            | Some _ =>
                let w := send_message chat_id (WordExists russian english) w in
                card_then_clear chat_id category state w
            | None =>
                let new_word :=
                  UserWord.new (User.id user) (lower english) (lower russian)
                               (lower category) level in
                let w := with_user_words (user_words (db w) ++ [new_word]) w in
                let w := send_message chat_id (WordStored russian english) w in
                card_then_clear chat_id category state w
            end
      | _, _, _ => Done (send_message chat_id AddDataError w)
      end
  | Some delete_word_action =>
      match Temp.category temp_state with
      | None => Raised w (* [category.lower()] *)
      | Some category =>
          let level := Temp.level temp_state in
          let word_to_delete :=
            list_find (delete_filter user text category level)
                      (user_words (db w)) in
          let w :=
            match word_to_delete with
            | Some (i, _) =>
                let w := with_user_words (delete i (user_words (db w))) w in
                send_message chat_id (WordDeleted text) w
            | None => send_message chat_id WordNotFound w
            end in
          card_then_clear chat_id category state w
      end
  | None =>
      match Temp.target_word temp_state with
      | None => Done (send_message chat_id NoCurrentWord w)
      | Some target_word =>
          if falsy_str target_word
          then Done (send_message chat_id NoCurrentWord w)
          else if decide (text = target_word) then
            let w := send_message chat_id Correct w in
            match get_all_words chat_id (UserState.category state) (db w) with
            | None => Raised w
            | Some words =>
                create_card chat_id (UserState.category state) words state w
            end
          else
            let w := send_message chat_id Incorrect w in
            let wrong_answers := default [] (Temp.wrong_answers temp_state) in
            let wrong_answers :=
              if decide (target_word ∈ wrong_answers) then wrong_answers
              else wrong_answers ++ [target_word] in
            Done (update_in_place chat_id
                    (Temp.set_wrong_answers wrong_answers temp_state) w)
      end
  end.

(** ** [handle_text], the handler of every text no other handler takes *)

Inductive Navigation := to_category_menu | to_level_menu.

(** [process_menu_navigation]: the two keyboard captions that open a menu. *)
Definition process_menu_navigation (text : string) : option Navigation :=
  if decide (text = "Выбрать категорию 🔄") then Some to_category_menu
  else if decide (text = "Выбрать уровень 🔄") then Some to_level_menu
  else None.

Definition handle_text (chat_id : Z) (message_text : string) (w : World) : outcome :=
  match user_of chat_id (db w) with
  | None => Raised w
  | Some user =>
      let current_temp_state := temp_of chat_id w in
      match state_of user (db w) with
      | None => Done w
      | Some state =>
          match process_menu_navigation message_text with
          | Some _ => Done (send_message chat_id Menu w) (* reads the tables only *)
          | None =>
              process_word_actions chat_id message_text user state
                                   current_temp_state w
          end
      end
  end.

(** * Vocabulary of the statements *)

(** A candidate whose lowercase word is in [recent_words]. *)
Definition in_recent (recent_words : list string) (word : UserWord.t) : Prop :=
  lower (UserWord.word word) ∈ recent_words.

(** The copies the loop of lines 500-502 appends for one candidate. *)
Definition extra_copies (wrong_answers : list string) (word : UserWord.t)
  : list UserWord.t :=
  if decide (lower (UserWord.word word) ∈ wrong_answers) then [word; word] else [].

(** The two lists [create_card] reads from the session of a chat. *)
Definition recent_before (chat_id : Z) (w : World) : list string :=
  default [] (Temp.recent_words (temp_of chat_id w)).

Definition wrong_before (chat_id : Z) (w : World) : list string :=
  default [] (Temp.wrong_answers (temp_of chat_id w)).

(** The pool [random.choice] draws from. *)
Definition pool (chat_id : Z) (words : list UserWord.t) (w : World)
  : list UserWord.t :=
  weighted_words (available_words words (recent_before chat_id w))
                 (wrong_before chat_id w).

(** The outcome of [create_card] once it has picked [word], built the
    buttons [options] and left the tape at [tape]. *)
Definition rendered (chat_id : Z) (category : option string)
    (state : UserState.t) (w : World)
    (word : UserWord.t) (options : list string) (tape : list nat) : outcome :=
  let temp_state :=
    Temp.set_card (push_recent (recent_before chat_id w) (lower (UserWord.word word)))
                  (lower (UserWord.word word))
                  (lower (UserWord.translation word))
                  (temp_of chat_id w) in
  let w' := mkWorld (db w) (State.set chat_id temp_state (state_storage w))
                    tape (sent w) in
  match category with
  | None => Raised w'
  | Some category =>
      Done (send_message chat_id
              (Card (UserState.level state) category
                    (UserWord.translation word) options) w')
  end.

(** The lowercase candidate words, without repetition. *)
Definition distinct_lower_words (words : list UserWord.t) : gset string :=
  list_to_set (lower <$> (UserWord.word <$> words)).

(** The target word the session of a chat holds. *)
Definition target_of (chat_id : Z) (w : World) : option string :=
  Temp.target_word (temp_of chat_id w).

(** The scenario of the numbers category: three rows of user 1, whose chat
    is 1, with ["two"] shown recently and ["three"] missed before. *)
Definition numbers : list UserWord.t :=
  [ UserWord.mk 1 "one" "один" "числа" 1 false;
    UserWord.mk 1 "two" "два" "числа" 1 false;
    UserWord.mk 1 "three" "три" "числа" 1 false ].

Definition numbers_state : UserState.t := UserState.mk 1 (Some 1) (Some "числа").

Definition numbers_db : DB := mkDB [User.mk 1 1] [numbers_state] numbers.

Definition numbers_session : Temp.t :=
  Temp.mk (Some ["two"]) (Some ["three"]) None None None None None None.

Definition numbers_world (tape : list nat) : World :=
  mkWorld numbers_db {[ 1 := numbers_session ]} tape [].

(** The word the numbers scenario selects when [randbelow] returns [r]. *)
Definition numbers_draw (r : nat) : option string :=
  target_of 1
    (world_of (create_card 1 (Some "числа") numbers numbers_state
                           (numbers_world [r]))).

(** The last three entries of a list, oldest first. *)
Definition last_three (l : list string) : list string := drop (length l - 3) l.

(** A run of successful card renders for one chat, with the lowercase words
    it showed, in the order it showed them. *)
Inductive renders (chat_id : Z) : World → list string → World → Prop :=
| renders_nil w : renders chat_id w [] w
| renders_cons w category words state w1 target shown w2 :
    words ≠ [] →
    create_card chat_id (Some category) words state w = Done w1 →
    target_of chat_id w1 = Some target →
    renders chat_id w1 shown w2 →
    renders chat_id w (target :: shown) w2.

(** The category selection of a chat in the long-lived state, as the guard
    [not state or not state.category] reads it: absent when there is no user
    or no state row, when the column is NULL and when it is the empty string. *)
Definition selected_category (chat_id : Z) (d : DB) : option string :=
  user ← user_of chat_id d;
  state ← state_of user d;
  category ← UserState.category state;
  if decide (category = "") then None else Some category.

(** The level selection of a chat; NULL when no level was chosen. *)
Definition selected_level (chat_id : Z) (d : DB) : option Z :=
  user ← user_of chat_id d;
  state ← state_of user d;
  UserState.level state.

(** The world after [add_word] or [delete_word] has staged its action. *)
Definition staged (a : Action) (prompt : Reply) (chat_id : Z)
    (category : string) (level : option Z) (w : World) : World :=
  let w := send_message chat_id prompt w in
  with_storage
    (State.set chat_id
       (Temp.set_staged a (lower category) level (temp_of chat_id w))
       (state_storage w)) w.

(** A user who saw a card of the numbers at level 1 and then chose level 2,
    where the category has no word; the card for "one" is still open. *)
Definition level_changed_world : World :=
  mkWorld (mkDB [User.mk 1 1] [UserState.mk 1 (Some 2) (Some "числа")] numbers)
          {[ 1 := Temp.mk (Some ["one"]) None (Some "one") (Some "один")
                          None None None None ]}
          [] [].

(** A user about to name the word to delete in the category of the numbers,
    and the same user when the only word of the category is "one". *)
Definition delete_session : Temp.t :=
  Temp.mk (Some ["two"]) (Some ["three"]) (Some "two") (Some "два")
          (Some delete_word_action) (Some "числа") (Some 1) None.

Definition delete_world : World :=
  mkWorld numbers_db {[ 1 := delete_session ]} [] [].

Definition last_word_world : World :=
  mkWorld (mkDB [User.mk 1 1] [numbers_state]
                [UserWord.mk 1 "one" "один" "числа" 1 false])
          {[ 1 := delete_session ]} [] [].

(** The add dialogue: the button, then the Russian word, then its
    translation, each given to its handler.  Which handler the bot gives a
    text to is [route] below, and what the columns keep of the new row
    [handle_text_checked]. *)
Definition add_dialogue (chat_id : Z) (russian english : string) (w : World)
  : outcome :=
  bind (add_word chat_id w)
       (λ w, bind (handle_text chat_id russian w)
                  (λ w, handle_text chat_id english w)).

(** A session in which the next text commits an add or a delete: a staged
    translation with its Russian word, category and level, or a staged
    delete with its category. *)
Definition commit_pending (temp_state : Temp.t) (category : string) : Prop :=
  Temp.category temp_state = Some category
  ∧ ((Temp.action temp_state = Some add_translation_action
      ∧ category ≠ ""
      ∧ (∃ russian, Temp.russian temp_state = Some russian ∧ russian ≠ "")
      ∧ (∃ level, Temp.level temp_state = Some level ∧ level ≠ 0))
     ∨ Temp.action temp_state = Some delete_word_action).

(** What can happen to the world: the handlers above, any other call of
    [create_card] (the one of [select_category]), and the handlers that only
    write tables ([start], [select_level], [select_category], [update_words]). *)
Inductive Event :=
| card_event (chat_id : Z) (category : option string)
             (words : list UserWord.t) (state : UserState.t)
| next_event (chat_id : Z)
| add_event (chat_id : Z)
| delete_event (chat_id : Z)
| text_event (chat_id : Z) (text : string)
| tables_event (d : DB).

Definition run_event (w : World) (e : Event) : World :=
  match e with
  | card_event chat_id category words state =>
      world_of (create_card chat_id category words state w)
  | next_event chat_id => world_of (next_card chat_id w)
  | add_event chat_id => world_of (add_word chat_id w)
  | delete_event chat_id => world_of (delete_word chat_id w)
  | text_event chat_id text => world_of (handle_text chat_id text w)
  | tables_event d => mkWorld d (state_storage w) (rng w) (sent w)
  end.

Definition run (events : list Event) (w : World) : World :=
  fold_left run_event events w.

(** No session holds more than three recent words. *)
Definition bounded (w : World) : Prop :=
  ∀ chat_id, (length (recent_before chat_id w) ≤ 3)%nat.

(** * Vocabulary of the further properties *)

(** The chat an event belongs to; a write to the tables belongs to none. *)
Definition event_chat (e : Event) : option Z :=
  match e with
  | card_event chat_id _ _ _ | next_event chat_id | add_event chat_id
  | delete_event chat_id | text_event chat_id _ => Some chat_id
  | tables_event _ => None
  end.

(** The sessions of all chats but one are the same in two worlds. *)
Definition elsewhere (chat_id : Z) (w w' : World) : Prop :=
  ∀ other, other ≠ chat_id → state_storage w' !! other = state_storage w !! other.

(** The next text of a chat commits an add or a delete. *)
Definition commits (chat_id : Z) (w : World) : Prop :=
  Temp.action (temp_of chat_id w) = Some add_translation_action
  ∨ Temp.action (temp_of chat_id w) = Some delete_word_action.

(** No session lists a missed word twice. *)
Definition mistakes_once (w : World) : Prop :=
  ∀ chat_id, NoDup (wrong_before chat_id w).

(** Every string a session holds is in lowercase. *)
Definition lowercase (s : string) : Prop := lower s = s.

Definition lowercase_opt (o : option string) : Prop :=
  ∀ s, o = Some s → lowercase s.

Definition normalized_session (d : Temp.t) : Prop :=
  Forall lowercase (default [] (Temp.recent_words d))
  ∧ Forall lowercase (default [] (Temp.wrong_answers d))
  ∧ lowercase_opt (Temp.target_word d)
  ∧ lowercase_opt (Temp.translate_word d)
  ∧ lowercase_opt (Temp.category d)
  ∧ lowercase_opt (Temp.russian d).

Definition normalized (w : World) : Prop :=
  ∀ chat_id, normalized_session (temp_of chat_id w).

(** A property of session records holds of the session of every chat. *)
Definition all_sessions (P : Temp.t → Prop) (w : World) : Prop :=
  ∀ chat_id, P (temp_of chat_id w).

(** The wrong answers after a text that is not the target. *)
Definition note_mistake (target_word : string) (d : Temp.t) : Temp.t :=
  Temp.set_wrong_answers
    (if decide (target_word ∈ default [] (Temp.wrong_answers d))
     then default [] (Temp.wrong_answers d)
     else default [] (Temp.wrong_answers d) ++ [target_word]) d.

(** The session after a card for [word]. *)
Definition note_card (word : UserWord.t) (d : Temp.t) : Temp.t :=
  Temp.set_card
    (push_recent (default [] (Temp.recent_words d)) (lower (UserWord.word word)))
    (lower (UserWord.word word)) (lower (UserWord.translation word)) d.

(** The category of the sizes, four rows of user 1, level 1. *)
Definition sizes : list UserWord.t :=
  [ UserWord.mk 1 "thin" "худой" "размеры" 1 false;
    UserWord.mk 1 "fat" "толстый" "размеры" 1 false;
    UserWord.mk 1 "long" "длинный" "размеры" 1 false;
    UserWord.mk 1 "short" "короткий" "размеры" 1 false ].

Definition sizes_state : UserState.t := UserState.mk 1 (Some 1) (Some "размеры").

Definition sizes_world (tape : list nat) : World :=
  mkWorld (mkDB [User.mk 1 1] [sizes_state] (numbers ++ sizes))
          {[ 1 := Temp.mk (Some ["thin"; "fat"; "long"]) None (Some "long")
                          (Some "длинный") None None None None ]}
          tape [].

(** The delete dialogue: the button, then the Russian word. *)
Definition delete_dialogue (chat_id : Z) (russian : string) (w : World) : outcome :=
  bind (delete_word chat_id w) (λ w, handle_text chat_id russian w).

(** A user with a category and a level in which a word can be added. *)
Definition ready (chat_id : Z) (user : User.t) (state : UserState.t)
    (category : string) (level : Z) (w : World) : Prop :=
  user_of chat_id (db w) = Some user
  ∧ state_of user (db w) = Some state
  ∧ UserState.category state = Some category ∧ category ≠ ""
  ∧ UserState.level state = Some level ∧ level ≠ 0.

(** A staged translation that cannot be committed: the Russian word, the
    category or the level is absent or empty (zero for the level). *)
Definition add_data_missing (d : Temp.t) : Prop :=
  (∀ russian, Temp.russian d = Some russian → russian = "")
  ∨ (∀ category, Temp.category d = Some category → category = "")
  ∨ (∀ level, Temp.level d = Some level → level = 0).

(** * The words table, registration and the menus

    The handlers below also read the table [words] of [setup_db.py] and send
    messages the quiz handlers do not send.  Their world is a [Bot.t]: the
    world of the quiz handlers, the rows of [words], and the trace of those
    other messages.  [str.strip()] is [strip] below, which removes the ASCII
    white space at both ends. *)

Module Word.
Record t := mk {
  word : string;
  translation : string;
  category : string;
  level : Z
}.
End Word.

Inductive Notice :=
| Greeting (i : nat)               (* [greetings[i]] of [start] *)
| LevelMenu                        (* "Выберите уровень для изучения:" and its keyboard *)
| UserNotFound                     (* "Пользователь не найден." *)
| DatabaseUpdated                  (* "База данных обновлена" *)
| LevelLoaded (level : Z)          (* "Уровень n успешно загружен!" *)
| NoCategoriesAtLevel              (* "На этом уровне нет доступных категорий." *)
| CategoryMenu (categories : list string)
                                   (* "Выберите категорию:" and one button per category *)
| StateError                       (* "Ошибка состояния пользователя." *)
| NoWordsInCategory                (* "В этой категории пока нет слов." *)
| NoWordsInBase                    (* "В вашей базе пока нет слов." *)
| Statistics (total : nat) (counts : list (Z * string * nat))
                                   (* "Статистика", "Всего слов - total", the counts *)
| CategoryMenuAgain (categories : list string)
                                   (* the same keyboard under the bold "Выберите категорию:" *)
| HelpText.                        (* "Справка по использованию бота Slovanglik", ... *)

Module Bot.
Record t := mk {
  world : World;
  words : list Word.t;
  notices : list (Z * Notice)
}.

Definition notify (chat_id : Z) (n : Notice) (b : t) : t :=
  mk (world b) (words b) (notices b ++ [(chat_id, n)]).

Definition with_world (w : World) (b : t) : t := mk w (words b) (notices b).

Definition with_db (d : DB) (b : t) : t :=
  mk (mkWorld d (state_storage (world b)) (rng (world b)) (sent (world b)))
     (words b) (notices b).

Definition with_rng (tape : list nat) (b : t) : t :=
  mk (mkWorld (db (world b)) (state_storage (world b)) tape (sent (world b)))
     (words b) (notices b).
End Bot.

(** A handler of the bot returns, or an exception leaves it. *)
Inductive attempt :=
| Returned (b : Bot.t)
| Failed (b : Bot.t). (* AttributeError of a missing user, IntegrityError of a key *)

Definition bot_of (a : attempt) : Bot.t :=
  match a with Returned b | Failed b => b end.

Definition then_do (a : attempt) (k : Bot.t → attempt) : attempt :=
  match a with
  | Returned b => k b
  | Failed b => Failed b
  end.

(** ** [str.strip()] *)

(** [c.isspace()] for an ASCII character: tab to carriage return, the four
    separators and the space. *)
Definition is_space (c : ascii) : bool :=
  let n := N_of_ascii c in
  (((9 <=? n) && (n <=? 13)) || ((28 <=? n) && (n <=? 32)))%N.

Fixpoint lstrip (s : string) : string :=
  match s with
  | EmptyString => EmptyString
  | String c s' => if is_space c then lstrip s' else s
  end.

Fixpoint rstrip (s : string) : string :=
  match s with
  | EmptyString => EmptyString
  | String c s' =>
      match rstrip s' with
      | EmptyString => if is_space c then EmptyString else String c EmptyString
      | r => String c r
      end
  end.

Definition strip (s : string) : string := lstrip (rstrip s).

(** ** [load_standard_words_for_user] of [setup_db.py] *)

(** Lines 299-306: the row looked for, [filter_by(user_id=user_id,
    word=word.word.lower(), translation=word.translation.lower(),
    category=word.category.lower(), level=word.level, is_custom=False)] *)
Definition standard_filter (user_id : Z) (word : Word.t) (x : UserWord.t) : Prop :=
  UserWord.user_id x = user_id
  ∧ UserWord.word x = lower (Word.word word)
  ∧ UserWord.translation x = lower (Word.translation word)
  ∧ UserWord.category x = lower (Word.category word)
  ∧ UserWord.level x = Word.level word
  ∧ UserWord.is_custom x = false.

#[global] Instance standard_filter_dec user_id word x :
  Decision (standard_filter user_id word x).
Proof. unfold standard_filter. apply _. Defined.

(** Lines 309-316 *)
Definition standard_row (user_id : Z) (word : Word.t) : UserWord.t :=
  UserWord.mk user_id (lower (Word.word word)) (lower (Word.translation word))
              (lower (Word.category word)) (Word.level word) false.

(** The session of [setup_db.py] does not flush before a query
    ([autoflush=False]): every look-up of the loop sees the table as it was
    before the call, not the rows added so far.  The commit fails on the
    foreign key of [user_words.user_id] when the user does not exist, and
    the handler of that error rolls back. *)
Definition load_standard_words_for_user (user_id : Z)
    (standard_words : list Word.t) (d : DB) : DB :=
  let new_words :=
    standard_row user_id <$>
      filter (λ word, first (standard_filter user_id word) (user_words d) = None)
             standard_words in
  if decide (user_id ∈ User.id <$> users d)
  then mkDB (users d) (user_states d) (user_words d ++ new_words)
  else d.

(** ** [get_categories_for_level] *)

Definition get_categories_for_level (level : Z) (b : Bot.t) : list string :=
  let categories :=
    Word.category <$> filter (λ x, Word.level x = level) (Bot.words b) in
  let user_categories :=
    UserWord.category <$>
      filter (λ x, UserWord.level x = level) (user_words (db (Bot.world b))) in
  let all_categories : gset string :=
    list_to_set ((lower <$> categories) ++ (lower <$> user_categories)) in
  elements all_categories.

(** ** [start] and [update_words] *)

(** [new_id] is the key the table gives the new user; the insert fails when
    a user has it already, and so does the insert of the state when a state
    row of that user exists ([user_states.user_id] is unique). *)
Definition start (chat_id : Z) (new_id : Z) (b : Bot.t) : attempt :=
  let d := db (Bot.world b) in
  let registered :=
    match user_of chat_id d with
    | Some _ => Returned b
    | None =>
        if decide (new_id ∈ User.id <$> users d) then Failed b
        else
          let d := mkDB (users d ++ [User.mk new_id chat_id])
                        (user_states d) (user_words d) in
          if decide (new_id ∈ UserState.user_id <$> user_states d)
          then Failed (Bot.with_db d b)
          else
            let d := mkDB (users d)
                          (user_states d ++ [UserState.mk new_id None None])
                          (user_words d) in
            Returned
              (Bot.with_db (load_standard_words_for_user new_id (Bot.words b) d) b)
    end in
  then_do registered
    (λ b,
       let '(i, tape) := randbelow 4 (rng (Bot.world b)) in
       let b := Bot.notify chat_id (Greeting i) (Bot.with_rng tape b) in
       Returned (Bot.notify chat_id LevelMenu b)).

Definition update_words (chat_id : Z) (b : Bot.t) : Bot.t :=
  match user_of chat_id (db (Bot.world b)) with
  | None => Bot.notify chat_id UserNotFound b
  | Some user =>
      let d := load_standard_words_for_user (User.id user) (Bot.words b)
                                            (db (Bot.world b)) in
      Bot.notify chat_id DatabaseUpdated (Bot.with_db d b)
  end.

(** ** [select_level] *)

(** [state.level = level] on the state row of the user, or a new row. *)
Definition set_level (user : User.t) (level : Z) (states : list UserState.t)
  : list UserState.t :=
  match list_find (λ s, UserState.user_id s = User.id user) states with
  | Some (i, state) =>
      <[i := UserState.mk (UserState.user_id state) (Some level)
                          (UserState.category state)]> states
  | None => states ++ [UserState.mk (User.id user) (Some level) None]
  end.

(** [level] is [int(message.text.split()[-1])]; a text for which [int]
    raises does not reach the body.  This is the handler for a level that
    the column [user_states.level], an [Integer], holds; the commit refuses
    any other, see [select_level_checked]. *)
Definition select_level (chat_id : Z) (level : Z) (b : Bot.t) : Bot.t :=
  let d := db (Bot.world b) in
  match user_of chat_id d with
  | None => Bot.notify chat_id UserNotFound b
  | Some user =>
      let d := mkDB (users d) (set_level user level (user_states d))
                    (user_words d) in
      let b := Bot.notify chat_id (LevelLoaded level) (Bot.with_db d b) in
      match get_categories_for_level level b with
      | [] => Bot.notify chat_id NoCategoriesAtLevel b
      | categories => Bot.notify chat_id (CategoryMenu categories) b
      end
  end.

(** ** [is_valid_category] and [select_category] *)

(** [None] is the AttributeError of [user.id] on a missing user. *)
Definition is_valid_category (chat_id : Z) (text : string) (b : Bot.t)
  : option bool :=
  let d := db (Bot.world b) in
  match user_of chat_id d with
  | None => None
  | Some user =>
      match state_of user d with
      | None => Some false
      | Some state =>
          match UserState.level state with
          | None => Some false
          | Some level =>
              if decide (level = 0) then Some false
              else
                let category := lower (strip text) in
                let category_in_word :=
                  first (λ x, Word.category x = category ∧ Word.level x = level)
                        (Bot.words b) in
                let category_in_user_word :=
                  first (λ x, UserWord.user_id x = User.id user
                              ∧ UserWord.category x = category
                              ∧ UserWord.level x = level)
                        (user_words d) in
                Some (bool_decide (is_Some category_in_word)
                      || bool_decide (is_Some category_in_user_word))
          end
      end
  end.

(** [state.category = category] on the state row of the user. *)
Definition set_category (user : User.t) (category : string)
    (states : list UserState.t) : list UserState.t :=
  match list_find (λ s, UserState.user_id s = User.id user) states with
  | Some (i, state) =>
      <[i := UserState.mk (UserState.user_id state) (UserState.level state)
                          (Some category)]> states
  | None => states
  end.

Definition lift (o : outcome) (b : Bot.t) : attempt :=
  match o with
  | Done w => Returned (Bot.with_world w b)
  | Raised w => Failed (Bot.with_world w b)
  end.

Definition select_category (chat_id : Z) (text : string) (b : Bot.t) : attempt :=
  let category := lower (strip text) in
  let d := db (Bot.world b) in
  match user_of chat_id d with
  | None => Failed b
  | Some user =>
      match state_of user d with
      | None => Returned (Bot.notify chat_id StateError b)
      | Some state =>
          let state := UserState.mk (UserState.user_id state)
                                    (UserState.level state) (Some category) in
          let d := mkDB (users d) (set_category user category (user_states d))
                        (user_words d) in
          let b := Bot.with_db d b in
          match get_all_words chat_id (Some category) d with
          | None => Failed b
          | Some [] => Returned (Bot.notify chat_id NoWordsInCategory b)
          | Some words =>
              lift (create_card chat_id (Some category) words state (Bot.world b)) b
          end
      end
  end.

(** A small catalogue and a bot whose only user, of chat 1, owns the numbers. *)
Definition catalogue : list Word.t :=
  [ Word.mk "one" "один" "числа" 1;
    Word.mk "two" "два" "числа" 1;
    Word.mk "three" "три" "числа" 1;
    Word.mk "red" "красный" "цвета" 1;
    Word.mk "I" "я" "местоимения" 2 ].

Definition numbers_bot : Bot.t :=
  Bot.mk (mkWorld numbers_db ∅ [] []) catalogue [].

(** ** [show_statistics] *)

(** The rows of the grouped query of lines 229-238: one per level and
    category of the rows given, with the number of those rows. *)
Definition group_counts (rows : list UserWord.t) : list (Z * string * nat) :=
  let keys : gset (Z * string) :=
    list_to_set ((λ x, (UserWord.level x, UserWord.category x)) <$> rows) in
  (λ k, (k.1, k.2,
         length (filter (λ x, (UserWord.level x, UserWord.category x) = k) rows)))
    <$> elements keys.

(** The message lists the counts by level and by category name; the notice
    holds them as the query returns them. *)
Definition show_statistics (chat_id : Z) (b : Bot.t) : Bot.t :=
  match user_of chat_id (db (Bot.world b)) with
  | None => Bot.notify chat_id UserNotFound b
  | Some user =>
      let stats :=
        group_counts (filter (λ x, UserWord.user_id x = User.id user)
                             (user_words (db (Bot.world b)))) in
      let total_words := sum_list ((λ s, s.2) <$> stats) in
      match stats with
      | [] => Bot.notify chat_id NoWordsInBase b
      | _ => Bot.notify chat_id (Statistics total_words stats) b
      end
  end.

(** The user of chat 1 at level 1 with the card for "one" open. *)
Definition open_card_bot : Bot.t :=
  Bot.mk (mkWorld numbers_db
                  {[ 1 := Temp.mk (Some ["one"]) None (Some "one") (Some "один")
                                  None None None None ]}
                  [] [])
         catalogue [].

(** ** [populate_default_words] of [setup_db.py] *)

(** Lines 201-273 *)
Definition default_words : list Word.t :=
  [
    Word.mk "one" "один" "числа" 1;
    Word.mk "two" "два" "числа" 1;
    Word.mk "three" "три" "числа" 1;
    Word.mk "red" "красный" "цвета" 1;
    Word.mk "blue" "синий" "цвета" 1;
    Word.mk "thin" "худой" "размеры" 1;
    Word.mk "fat" "толстый" "размеры" 1;
    Word.mk "long" "длинный" "размеры" 1;
    Word.mk "short" "короткий" "размеры" 1;
    Word.mk "I" "я" "местоимения" 2;
    Word.mk "you" "ты" "местоимения" 2;
    Word.mk "he" "он" "местоимения" 2;
    Word.mk "she" "она" "местоимения" 2;
    Word.mk "father" "отец" "семья" 2;
    Word.mk "mother" "мать" "семья" 2;
    Word.mk "brother" "брат" "семья" 2;
    Word.mk "sister" "сестра" "семья" 2;
    Word.mk "boy" "мальчик" "человек" 2;
    Word.mk "girl" "девочка" "человек" 2;
    Word.mk "man" "мужчина" "человек" 2;
    Word.mk "woman" "женщина" "человек" 2;
    Word.mk "apple" "яблоко" "еда" 3;
    Word.mk "banana" "банан" "еда" 3;
    Word.mk "bread" "хлеб" "еда" 3;
    Word.mk "water" "вода" "еда" 3;
    Word.mk "plate" "тарелка" "посуда" 3;
    Word.mk "fork" "вилка" "посуда" 3;
    Word.mk "knife" "нож" "посуда" 3;
    Word.mk "spoon" "ложка" "посуда" 3;
    Word.mk "chair" "стул" "мебель" 3;
    Word.mk "table" "стол" "мебель" 3;
    Word.mk "bed" "кровать" "мебель" 3;
    Word.mk "sofa" "диван" "мебель" 3 ].

(** Lines 275-286: every row is added and the session committed.  The one
    key of [words] is the generated [id] and all four columns are given, so
    no constraint can fail: the handler of [IntegrityError] is never
    entered.  The other tables are not touched. *)
Definition populate_default_words (b : Bot.t) : Bot.t :=
  Bot.mk (Bot.world b) (Bot.words b ++ default_words) (Bot.notices b).

(** What [load_standard_words_for_user] compares and copies of a row of
    [words]. *)
Definition standard_key (word : Word.t) : string * string * string * Z :=
  (lower (Word.word word), lower (Word.translation word),
   lower (Word.category word), Word.level word).

(** The rows of the catalogue that are copied to the same row as [word]. *)
Definition copies (word : Word.t) (words : list Word.t) : nat :=
  length (filter (λ x, standard_key x = standard_key word) words).

(** The rows of a table that are the copy of [word] for a user. *)
Definition rows_of (user_id : Z) (word : Word.t) (rows : list UserWord.t) : nat :=
  length (filter (λ x, x = standard_row user_id word) rows).

(** ** The menus: [get_levels_and_categories], [go_to_main_menu] and
    [select_category_menu] *)

(** Lines 110-118: the levels of [words], each once and in increasing order,
    and for each the categories of the rows at that level, each once.  The
    entry [(n, categories)] stands for the key "Уровень n" of the dictionary
    and the names whose [title()] forms are its value. *)
Definition get_levels_and_categories (b : Bot.t) : list (Z * list string) :=
  let levels :=
    merge_sort Z.le
      (elements (list_to_set (Word.level <$> Bot.words b) : gset Z)) in
  (λ level_number,
     let categories : gset string :=
       list_to_set (Word.category <$>
                      filter (λ x, Word.level x = level_number) (Bot.words b)) in
     (level_number, elements categories))
    <$> levels.

Inductive Button :=
| LevelButton (level : Z)          (* "Уровень n" *)
| EmptyButton                      (* the button without text *)
| HelpButton                       (* "Справка" *)
| UpdateButton                     (* "Обновить" *)
| StatisticsButton.                (* "Статистика" *)

(** Lines 174-189: the keyboard of the level menu. *)
Definition go_to_main_menu_buttons (b : Bot.t) : list Button :=
  let levels_and_categories := get_levels_and_categories b in
  let buttons := (λ entry, LevelButton entry.1) <$> levels_and_categories in
  let buttons :=
    if decide (length buttons mod 2 ≠ 0)%nat
    then buttons ++ [EmptyButton] else buttons in
  buttons ++ [HelpButton; UpdateButton; StatisticsButton].

(** [None] of the user is the AttributeError of [user.id]; the level menu is
    sent for a state without level, the level 0 included. *)
Definition select_category_menu (chat_id : Z) (b : Bot.t) : attempt :=
  let d := db (Bot.world b) in
  match user_of chat_id d with
  | None => Failed b
  | Some user =>
      match state_of user d with
      | None => Returned (Bot.notify chat_id LevelMenu b)
      | Some state =>
          match UserState.level state with
          | None => Returned (Bot.notify chat_id LevelMenu b)
          | Some level =>
              if decide (level = 0)
              then Returned (Bot.notify chat_id LevelMenu b)
              else
                let categories := get_categories_for_level level b in
                Returned (Bot.notify chat_id (CategoryMenuAgain categories) b)
          end
      end
  end.

(** * The bot as a whole

    [TeleBot] gives a text message to the first handler, in the order of the
    decorators of [main.py], whose filter accepts it, and to no other; when
    a filter raises, no handler runs.  The database refuses a value that a
    column cannot hold: the commit raises [DataError], which no handler
    catches. *)

Module Command.
Definition ADD_WORD : string := "Добавить слово +".
Definition NEXT : string := "Дальше ⏭".
Definition DELETE_WORD : string := "Удалить слово -".
End Command.

(** ** The columns [String(n)] and [Integer] *)

(** The text of a [string] is UTF-8: a character starts at every byte that
    is not a continuation byte. *)
Definition is_continuation (c : ascii) : bool :=
  let n := N_of_ascii c in ((128 <=? n) && (n <? 192))%N.

Fixpoint chars (s : string) : nat :=
  match s with
  | EmptyString => 0%nat
  | String c s' => ((if is_continuation c then 0 else 1) + chars s')%nat
  end.

(** The first [n] characters of a text, and the others. *)
Fixpoint take_chars (n : nat) (s : string) : string :=
  match s with
  | EmptyString => EmptyString
  | String c s' =>
      if is_continuation c then String c (take_chars n s')
      else match n with
           | O => EmptyString
           | S n' => String c (take_chars n' s')
           end
  end.

Fixpoint drop_chars (n : nat) (s : string) : string :=
  match s with
  | EmptyString => EmptyString
  | String c s' =>
      if is_continuation c then drop_chars n s'
      else match n with
           | O => s
           | S n' => drop_chars n' s'
           end
  end.

Fixpoint spaces (s : string) : bool :=
  match s with
  | EmptyString => true
  | String c s' => bool_decide (c = " "%char) && spaces s'
  end.

(** What a column [String(n)] keeps of a value: the value when it has at
    most [n] characters, its first [n] characters when all the others are
    spaces; any other value is refused ([None]). *)
Definition varchar (n : nat) (s : string) : option string :=
  if spaces (drop_chars n s) then Some (take_chars n s) else None.

Definition fits_integer (n : Z) : Prop := -2147483648 ≤ n ≤ 2147483647.

(** ** [select_level] and [handle_text] with their commits *)

(** [select_level] above is the handler for a level that the column
    [user_states.level] holds.  For another level the commit of line 348
    raises: nothing is written and nothing is sent.  An unknown chat is
    answered before any write. *)
Definition select_level_checked (chat_id : Z) (level : Z) (b : Bot.t) : attempt :=
  match user_of chat_id (db (Bot.world b)) with
  | None => Returned (select_level chat_id level b)
  | Some _ =>
      if decide (fits_integer level) then Returned (select_level chat_id level b)
      else Failed b
  end.

(** The insert of lines 674-682, when [handle_text] gets there with this
    text: the user, the state and the staged Russian word, category and
    level. *)
Definition insert_of (chat_id : Z) (message_text : string) (w : World)
  : option (User.t * UserState.t * string * string * Z) :=
  match user_of chat_id (db w) with
  | None => None
  | Some user =>
      match state_of user (db w) with
      | None => None
      | Some state =>
          match process_menu_navigation message_text with
          | Some _ => None
          | None =>
              let temp_state := temp_of chat_id w in
              match Temp.action temp_state, Temp.russian temp_state,
                    Temp.category temp_state, Temp.level temp_state with
              | Some add_translation_action, Some russian, Some category,
                Some level =>
                  if falsy_str russian || falsy_str category
                     || bool_decide (level = 0)
                  then None
                  else
                    match first (add_filter user (lower message_text) russian
                                            category level)
                                (user_words (db w)) with
                    | Some _ => None
                    | None => Some (user, state, russian, category, level)
                    end
              | _, _, _, _ => None
              end
          end
      end
  end.

(** [handle_text] above adds the new row as it is built.  The columns
    [word] and [translation] are [String(255)]: the row is stored with what
    they keep of the two values, and when one value is refused the commit of
    line 682 raises; the Russian word is popped from the session by then
    (line 645), nothing is written and nothing is sent.  The category and
    the level of the row are values of the tables. *)
Definition handle_text_checked (chat_id : Z) (message_text : string) (w : World)
  : outcome :=
  match insert_of chat_id message_text w with
  | None => handle_text chat_id message_text w
  | Some (user, state, russian, category, level) =>
      let english := lower message_text in
      let w := update_in_place chat_id (Temp.pop_russian (temp_of chat_id w)) w in
      match varchar 255 (lower english), varchar 255 (lower russian) with
      | Some word, Some translation =>
          let new_word :=
            UserWord.mk (User.id user) word translation (lower category)
                        level false in
          let w := with_user_words (user_words (db w) ++ [new_word]) w in
          let w := send_message chat_id (WordStored russian english) w in
          card_then_clear chat_id category state w
      | _, _ => Raised w
      end
  end.

Definition show_help (chat_id : Z) (b : Bot.t) : Bot.t :=
  Bot.notify chat_id HelpText b.

(** ** The handlers in the order of their decorators *)

Inductive Handler :=
| Start | UpdateWords | ShowStatistics | ShowHelp | SelectLevel
| SelectCategory | NextCard | AddWord | DeleteWord | HandleText.

(** What came in: a text message, with the key the table [users] would give
    a new user; a run of [setup_db.py] on the existing tables; a restart of
    [main.py], which loses the sessions. *)
Inductive Update :=
| message (chat_id : Z) (text : string) (new_id : Z)
| seeding
| restart.

Section dispatch.

(** What the libraries read from a text: [is_start] is the filter
    [commands=['start']] of line 125 and [int_of_last] the value of
    [int(message.text.split()[-1])] of line 331, [None] when it raises. *)
Variable is_start : string → bool.
Variable int_of_last : string → option Z.

(** The handler that takes a text; [None] when [is_valid_category] raises
    for a chat without a user. *)
Definition route (chat_id : Z) (text : string) (b : Bot.t) : option Handler :=
  if is_start text then Some Start
  else if decide (text = "Обновить") then Some UpdateWords
  else if decide (text = "Статистика") then Some ShowStatistics
  else if decide (text = "Справка") then Some ShowHelp
  else if String.prefix "Уровень" text then Some SelectLevel
  else
    match is_valid_category chat_id text b with
    | None => None
    | Some true => Some SelectCategory
    | Some false =>
        if decide (text = Command.NEXT) then Some NextCard
        else if decide (text = Command.ADD_WORD) then Some AddWord
        else if decide (text = Command.DELETE_WORD) then Some DeleteWord
        else Some HandleText
    end.

Definition dispatch (chat_id : Z) (text : string) (new_id : Z) (b : Bot.t)
  : attempt :=
  match route chat_id text b with
  | None => Failed b
  | Some Start => start chat_id new_id b
  | Some UpdateWords => Returned (update_words chat_id b)
  | Some ShowStatistics => Returned (show_statistics chat_id b)
  | Some ShowHelp => Returned (show_help chat_id b)
  | Some SelectLevel =>
      match int_of_last text with
      | None => Failed b
      | Some level => select_level_checked chat_id level b
      end
  | Some SelectCategory => select_category chat_id text b
  | Some NextCard => lift (next_card chat_id (Bot.world b)) b
  | Some AddWord => lift (add_word chat_id (Bot.world b)) b
  | Some DeleteWord => lift (delete_word chat_id (Bot.world b)) b
  | Some HandleText => lift (handle_text_checked chat_id text (Bot.world b)) b
  end.

Definition apply_update (b : Bot.t) (u : Update) : Bot.t :=
  match u with
  | message chat_id text new_id => bot_of (dispatch chat_id text new_id b)
  | seeding => populate_default_words b
  | restart => Bot.with_world (with_storage ∅ (Bot.world b)) b
  end.

Definition bot_run (updates : list Update) (b : Bot.t) : Bot.t :=
  fold_left apply_update updates b.

End dispatch.

(** The bot before its first message: no user, no state, no word of a user
    and no session; the catalogue is empty as [init_db] creates it, or holds
    any rows. *)
Definition initial (words : list Word.t) (tape : list nat) : Bot.t :=
  Bot.mk (mkWorld (mkDB [] [] []) ∅ tape []) words [].

(** No state row has a category without a level. *)
Definition levelled (d : DB) : Prop :=
  Forall (λ s, UserState.level s = None → UserState.category s = None)
         (user_states d).

(** The readings of the examples: the chat sends "/start" and chooses its
    level with "Уровень 0", "Уровень 1" or "Уровень 2". *)
Definition start_text (text : string) : bool := bool_decide (text = "/start").

Definition level_text (text : string) : option Z :=
  if decide (text = "Уровень 0") then Some 0
  else if decide (text = "Уровень 1") then Some 1
  else if decide (text = "Уровень 2") then Some 2
  else None.

(** The chat of the examples after it has registered and chosen the numbers
    of level 1, and a word of 256 letters. *)
Definition numbers_chosen : Bot.t :=
  bot_run start_text level_text
          [seeding; message 1 "/start" 1; message 1 "Уровень 1" 1;
           message 1 "числа" 1]
          (initial [] []).

Definition long_word : string := string_of_list_ascii (repeat "a"%char 256).

(** * Properties *)

(** ** [lower] *)

Lemma lower_ascii_idempotent (c : ascii) : lower_ascii (lower_ascii c) = lower_ascii c.
Proof. by destruct c as [[] [] [] [] [] [] [] []]. Qed.

Lemma lower_idempotent (s : string) : lower (lower s) = lower s.
Proof.
  induction s as [|c s IH]; simpl; [done|].
  by rewrite lower_ascii_idempotent, IH.
Qed.

(** ** [random] *)

Lemma randbelow_lt (n : nat) (tape : list nat) :
  (0 < n)%nat → (fst (randbelow n tape) < n)%nat.
Proof.
  intros Hn. destruct tape as [|r tape]; simpl; [done|].
  apply Nat.mod_upper_bound. lia.
Qed.

Lemma choice_Some {A} (seq : list A) (tape : list nat) :
  seq ≠ [] → ∃ x, fst (choice seq tape) = Some x ∧ x ∈ seq.
Proof.
  intros Hne. unfold choice.
  pose proof (randbelow_lt (length seq) tape) as Hlt.
  destruct (randbelow (length seq) tape) as [j tape'] eqn:Hr. simpl in *.
  assert (0 < length seq)%nat as Hpos by (destruct seq; [done|simpl; lia]).
  destruct (lookup_lt_is_Some_2 seq j (Hlt Hpos)) as [x Hx].
  exists x. split; [done|]. by eapply list_elem_of_lookup_2.
Qed.

Lemma insert_cons_Permutation {A} (x : list A) (j : nat) (a xj : A) :
  x !! j = Some xj → xj :: <[j := a]> x ≡ₚ a :: x.
Proof.
  revert j. induction x as [|b x IH]; intros [|j] Hj; simplify_eq/=.
  - apply perm_swap.
  - rewrite (perm_swap b xj), (IH _ Hj). apply perm_swap.
Qed.

Lemma swap_Permutation {A} (x : list A) (i j : nat) : swap x i j ≡ₚ x.
Proof.
  unfold swap.
  destruct (x !! i) as [xi|] eqn:Hi; [|done].
  destruct (x !! j) as [xj|] eqn:Hj; [|done].
  revert i j Hi Hj.
  induction x as [|a x IH]; intros [|i] [|j] Hi Hj; simplify_eq/=.
  - done.
  - by apply insert_cons_Permutation.
  - by apply insert_cons_Permutation.
  - by rewrite IH.
Qed.

Lemma shuffle_loop_Permutation {A} (k : nat) (x : list A) (tape : list nat) :
  fst (shuffle_loop k x tape) ≡ₚ x.
Proof.
  revert x tape. induction k as [|k IH]; intros x tape; [done|].
  cbn [shuffle_loop].
  destruct (randbelow (S (S k)) tape) as [j tape'].
  rewrite IH. apply swap_Permutation.
Qed.

Lemma shuffle_Permutation {A} (x : list A) (tape : list nat) :
  fst (shuffle x tape) ≡ₚ x.
Proof. apply shuffle_loop_Permutation. Qed.

(** ** The candidate filter and the weighted pool *)

Lemma available_words_nonempty words recent_words :
  words ≠ [] → available_words words recent_words ≠ [].
Proof.
  intros Hne. unfold available_words.
  by destruct (filter _ words).
Qed.

Lemma available_words_subseteq words recent_words :
  available_words words recent_words ⊆ words.
Proof.
  unfold available_words. intros x Hx.
  destruct (filter _ words) eqn:Hf; [done|].
  rewrite <- Hf in Hx. by apply list_elem_of_filter in Hx as [_ ?].
Qed.

(** When some candidate is outside [recent_words], the fall-back is not
    taken and no candidate inside [recent_words] survives. *)
Lemma available_words_fresh words recent_words x :
  (∃ y, y ∈ words ∧ ¬ in_recent recent_words y) →
  x ∈ available_words words recent_words →
  x ∈ words ∧ ¬ in_recent recent_words x.
Proof.
  intros [y [Hy Hfresh]] Hx. unfold available_words in Hx.
  destruct (filter _ words) eqn:Hf.
  - assert (y ∈ filter (λ word, lower (UserWord.word word) ∉ recent_words) words)
      as Hin by (by apply list_elem_of_filter).
    rewrite Hf in Hin. by apply elem_of_nil in Hin.
  - rewrite <- Hf in Hx. by apply list_elem_of_filter in Hx as [? ?].
Qed.

(** When every candidate is inside [recent_words], all of them stay. *)
Lemma available_words_fallback words recent_words :
  (∀ y, y ∈ words → in_recent recent_words y) →
  available_words words recent_words = words.
Proof.
  intros Hall. unfold available_words.
  destruct (filter _ words) as [|z l] eqn:Hf; [done|].
  assert (z ∈ filter (λ word, lower (UserWord.word word) ∉ recent_words) words)
    as Hz by (rewrite Hf; apply list_elem_of_here).
  apply list_elem_of_filter in Hz as [Hz1 Hz2]. destruct Hz1. by apply Hall.
Qed.

Lemma weighted_fold (wrong_answers : list string) (l acc : list UserWord.t) :
  fold_left
    (λ acc word,
       if decide (lower (UserWord.word word) ∈ (list_to_set wrong_answers : gset string))
       then acc ++ [word; word] else acc) l acc
  = acc ++ flat_map (extra_copies wrong_answers) l.
Proof.
  revert acc. induction l as [|x l IH]; intros acc; simpl.
  - by rewrite app_nil_r.
  - rewrite IH. unfold extra_copies at 2.
    destruct (decide (lower (UserWord.word x) ∈ wrong_answers)) as [Hin|Hout].
    + rewrite decide_True by (by apply elem_of_list_to_set).
      by rewrite <- app_assoc.
    + rewrite decide_False by (by rewrite elem_of_list_to_set).
      done.
Qed.

Lemma weighted_words_eq available wrong_answers :
  weighted_words available wrong_answers
  = available ++ flat_map (extra_copies wrong_answers) available.
Proof.
  unfold weighted_words. rewrite weighted_fold.
  destruct available as [|x l]; [done|]. done.
Qed.

Lemma weighted_words_elem available wrong_answers x :
  x ∈ weighted_words available wrong_answers ↔ x ∈ available.
Proof.
  rewrite weighted_words_eq, elem_of_app. split; [|by left].
  intros [?|Hx]; [done|].
  apply list_elem_of_In, in_flat_map in Hx as [y [Hy Hx]].
  apply list_elem_of_In in Hy. unfold extra_copies in Hx.
  destruct (decide _); simpl in Hx; [|done].
  destruct Hx as [->|[->|[]]]; done.
Qed.

Lemma count_occ_extra_copies wrong_answers (l : list UserWord.t) x :
  count_occ UserWord.eq_dec (flat_map (extra_copies wrong_answers) l) x
  = ((if decide (lower (UserWord.word x) ∈ wrong_answers) then 2 else 0)
     * count_occ UserWord.eq_dec l x)%nat.
Proof.
  induction l as [|y l IH]; simpl; [lia|].
  rewrite count_occ_app, IH. unfold extra_copies.
  destruct (UserWord.eq_dec y x) as [->|Hne].
  - destruct (decide (lower (UserWord.word x) ∈ wrong_answers)); simpl.
    + destruct (UserWord.eq_dec x x); [lia|done].
    + lia.
  - destruct (decide (lower (UserWord.word y) ∈ wrong_answers)); simpl.
    + destruct (UserWord.eq_dec y x); [done|]. lia.
    + lia.
Qed.

(** Weight 3 for a missed word, weight 1 for any other. *)
Lemma count_occ_weighted_words available wrong_answers x :
  count_occ UserWord.eq_dec (weighted_words available wrong_answers) x
  = ((if decide (lower (UserWord.word x) ∈ wrong_answers) then 3 else 1)
     * count_occ UserWord.eq_dec available x)%nat.
Proof.
  rewrite weighted_words_eq, count_occ_app, count_occ_extra_copies.
  destruct (decide _); lia.
Qed.

Lemma weighted_words_nonempty available wrong_answers :
  available ≠ [] → weighted_words available wrong_answers ≠ [].
Proof.
  intros Hne. rewrite weighted_words_eq. by destruct available.
Qed.

(** [random.choice] never meets an empty pool. *)
Lemma choice_weighted words recent_words wrong_answers tape :
  words ≠ [] →
  ∃ word,
    fst (choice (weighted_words (available_words words recent_words) wrong_answers)
                tape) = Some word
    ∧ word ∈ available_words words recent_words.
Proof.
  intros Hne.
  destruct (choice_Some
              (weighted_words (available_words words recent_words) wrong_answers)
              tape) as [x [Hx Hin]].
  - by apply weighted_words_nonempty, available_words_nonempty.
  - exists x. split; [done|]. by apply weighted_words_elem in Hin.
Qed.

(** ** What one call of [create_card] does *)

Lemma create_card_render chat_id category words state w :
  words ≠ [] →
  ∃ word shuffled options tape,
    pool chat_id words w !! fst (randbelow (length (pool chat_id words w)) (rng w))
      = Some word
    ∧ word ∈ available_words words (recent_before chat_id w)
    ∧ shuffled ≡ₚ other_words words (UserWord.word word)
    ∧ options ≡ₚ elements (draw_options {[lower (UserWord.word word)]}
                                       (reverse shuffled))
    ∧ create_card chat_id category words state w
      = rendered chat_id category state w word options tape.
Proof.
  intros Hne.
  destruct (choice_weighted words (recent_before chat_id w) (wrong_before chat_id w)
                            (rng w) Hne) as [word [Hpick Hin]].
  unfold create_card. destruct words as [|w0 ws] eqn:Hwords; [done|].
  rewrite <- Hwords in *.
  fold (recent_before chat_id w) (wrong_before chat_id w).
  unfold choice in *. fold (pool chat_id words w) in Hpick |- *.
  destruct (randbelow (length (pool chat_id words w)) (rng w)) as [j tape1] eqn:Hr.
  simpl in Hpick. rewrite Hpick.
  pose proof (shuffle_Permutation (other_words words (UserWord.word word)) tape1)
    as Hsh1.
  destruct (shuffle (other_words words (UserWord.word word)) tape1)
    as [shuffled tape2].
  pose proof (shuffle_Permutation
                (elements (draw_options {[lower (UserWord.word word)]}
                                        (reverse shuffled))) tape2) as Hsh2.
  destruct (shuffle (elements _) tape2) as [options tape3].
  exists word, shuffled, options, tape3. simpl in *.
  by repeat split.
Qed.

(** ** The buttons *)

Lemma draw_options_spec (stack : list string) (unique_options : gset string) :
  (size unique_options ≤ 4)%nat →
  unique_options ⊆ draw_options unique_options stack
  ∧ draw_options unique_options stack
      ⊆ unique_options ∪ list_to_set (lower <$> stack)
  ∧ (size (draw_options unique_options stack) ≤ 4)%nat
  ∧ (size (draw_options unique_options stack) = 4%nat
     ∨ draw_options unique_options stack
       = unique_options ∪ list_to_set (lower <$> stack)).
Proof.
  revert unique_options.
  induction stack as [|o stack IH]; intros U HU; simpl.
  - repeat split; [set_solver..|done|right; set_solver].
  - destruct (decide (size U < 4)%nat) as [Hlt|Hge].
    + assert (size (U ∪ {[lower o]}) ≤ 4)%nat as HU'.
      { rewrite size_union_alt.
        assert (size ({[lower o]} ∖ U : gset string) ≤ 1)%nat; [|lia].
        rewrite <- (size_singleton (C:=gset string) (lower o)).
        apply subseteq_size. set_solver. }
      destruct (IH _ HU') as (H1 & H2 & H3 & H4).
      repeat split; [set_solver|set_solver|done|].
      destruct H4 as [?|H4]; [by left|right]. rewrite H4. set_solver.
    + repeat split; [set_solver..|done|left; lia].
Qed.

Lemma other_words_lower words target_word :
  (list_to_set (lower <$> other_words words target_word) : gset string)
  = distinct_lower_words words ∖ {[lower target_word]}.
Proof.
  unfold other_words, distinct_lower_words. apply set_eq. intros s.
  rewrite elem_of_difference, !elem_of_list_to_set, !list_elem_of_fmap.
  split.
  - intros (o & -> & Ho). apply list_elem_of_fmap in Ho as (x & -> & Hx).
    apply list_elem_of_filter in Hx as [Hne Hx].
    split; [|set_solver].
    exists (UserWord.word x). split; [done|]. apply list_elem_of_fmap. eauto.
  - intros [(o & -> & Ho) Hne]. apply list_elem_of_fmap in Ho as (x & -> & Hx).
    exists (UserWord.word x). split; [done|].
    apply list_elem_of_fmap. exists x. split; [done|].
    apply list_elem_of_filter. split; [set_solver|done].
Qed.

(** The set of buttons for a target taken among the candidates. *)
Lemma draw_options_card words word shuffled :
  word ∈ words →
  shuffled ≡ₚ other_words words (UserWord.word word) →
  let unique_options :=
    draw_options {[lower (UserWord.word word)]} (reverse shuffled) in
  lower (UserWord.word word) ∈ unique_options
  ∧ size unique_options = (4 `min` size (distinct_lower_words words))%nat.
Proof.
  intros Hin Hperm unique_options.
  assert (lower (UserWord.word word) ∈ distinct_lower_words words) as Ht.
  { unfold distinct_lower_words. apply elem_of_list_to_set, list_elem_of_fmap.
    exists (UserWord.word word). split; [done|]. apply list_elem_of_fmap. eauto. }
  assert ((list_to_set (lower <$> reverse shuffled) : gset string)
          = distinct_lower_words words ∖ {[lower (UserWord.word word)]}) as Hrest.
  { rewrite <- other_words_lower. apply set_eq. intros s.
    rewrite !elem_of_list_to_set, !list_elem_of_fmap.
    split; intros (o & -> & Ho); exists o; (split; [done|]).
    - rewrite <- Hperm. by apply elem_of_reverse.
    - apply elem_of_reverse. by rewrite Hperm. }
  destruct (draw_options_spec (reverse shuffled) {[lower (UserWord.word word)]})
    as (H1 & H2 & H3 & H4).
  { rewrite size_singleton. lia. }
  fold unique_options in H1, H2, H3, H4. rewrite Hrest in H2, H4.
  split; [set_solver|].
  assert (unique_options ⊆ distinct_lower_words words) as Hsub by set_solver.
  apply subseteq_size in Hsub.
  destruct H4 as [H4|H4]; [lia|].
  assert (unique_options = distinct_lower_words words) as Heq.
  { rewrite H4. apply set_eq. intros s.
    rewrite elem_of_union, elem_of_difference, elem_of_singleton.
    destruct (decide (s = lower (UserWord.word word))); set_solver. }
  rewrite Heq in H3 |- *. lia.
Qed.

(** * The claims *)

(** ** Card selection *)

Lemma target_of_rendered chat_id category state w word options tape :
  target_of chat_id (world_of (rendered chat_id category state w word options tape))
  = Some (lower (UserWord.word word)).
Proof.
  unfold rendered, target_of, temp_of, State.get, State.set.
  destruct category; simpl; by rewrite lookup_insert_eq.
Qed.

Lemma recent_of_rendered chat_id category state w word options tape :
  recent_before chat_id
    (world_of (rendered chat_id category state w word options tape))
  = push_recent (recent_before chat_id w) (lower (UserWord.word word)).
Proof.
  unfold rendered, recent_before, temp_of, State.get, State.set.
  destruct category; simpl; by rewrite lookup_insert_eq.
Qed.

(** With candidates and a category, the card is sent and its target stored. *)
Lemma create_card_sends_card chat_id category words state w :
  words ≠ [] →
  ∃ target translate options w',
    create_card chat_id (Some category) words state w = Done w'
    ∧ sent w' = sent w ++ [(chat_id,
                            Card (UserState.level state) category translate options)]
    ∧ target_of chat_id w' = Some target.
Proof.
  intros Hne.
  destruct (create_card_render chat_id (Some category) words state w Hne)
    as (word & shuffled & options & tape & _ & _ & _ & _ & Hcard).
  eexists (lower (UserWord.word word)), (UserWord.translation word), options, _.
  split; [exact Hcard|]. split; [done|].
  exact (target_of_rendered chat_id (Some category) state w word options tape).
Qed.

(** C9: with an empty candidate list [create_card] only sends the
    no-words-available message: the whole session store, hence the
    recentWords, wrongAnswers, targetWord and targetTranslation of the chat,
    the tables and the random tape are what they were before the call. *)
Theorem create_card_no_words chat_id category state w :
  create_card chat_id category [] state w
  = Done (send_message chat_id NoWordsAvailable w)
  ∧ sent (world_of (create_card chat_id category [] state w))
    = sent w ++ [(chat_id, NoWordsAvailable)]
  ∧ state_storage (world_of (create_card chat_id category [] state w))
    = state_storage w
  ∧ temp_of chat_id (world_of (create_card chat_id category [] state w))
    = temp_of chat_id w
  ∧ db (world_of (create_card chat_id category [] state w)) = db w
  ∧ rng (world_of (create_card chat_id category [] state w)) = rng w.
Proof. done. Qed.

(** C2: for a non-empty candidate list the target is drawn from the
    candidates whose lowercase word is not in the recentWords of the session
    when there is such a candidate, and from all candidates only when there
    is none; so the chosen word is a recent word only if every candidate is. *)
Theorem create_card_avoids_recent chat_id category words state w :
  words ≠ [] →
  let recent_words := recent_before chat_id w in
  let restricted :=
    filter (λ x, lower (UserWord.word x) ∉ recent_words) words in
  ∃ word,
    target_of chat_id (world_of (create_card chat_id category words state w))
      = Some (lower (UserWord.word word))
    ∧ word ∈ words
    ∧ (restricted ≠ [] → word ∈ restricted)
    ∧ (restricted = [] → ∀ y, y ∈ words → in_recent recent_words y)
    ∧ (in_recent recent_words word → ∀ y, y ∈ words → in_recent recent_words y).
Proof.
  intros Hne recent_words restricted.
  destruct (create_card_render chat_id category words state w Hne)
    as (word & shuffled & options & tape & Hpick & Hav & _ & _ & Hcard).
  exists word. rewrite Hcard, target_of_rendered.
  fold recent_words in Hav.
  assert (restricted ≠ [] → word ∈ restricted) as Hrestricted.
  { intros Hr. unfold available_words in Hav. fold restricted in Hav.
    by destruct restricted. }
  assert (restricted = [] → ∀ y, y ∈ words → in_recent recent_words y) as Hall.
  { intros Hr y Hy. unfold in_recent.
    destruct (decide (lower (UserWord.word y) ∈ recent_words)) as [|Hout]; [done|].
    assert (y ∈ restricted) as Hyr by (by apply list_elem_of_filter).
    rewrite Hr in Hyr. by apply elem_of_nil in Hyr. }
  split_and!; [done|by eapply available_words_subseteq|done|done|].
  intros Hrecent. destruct restricted as [|z l] eqn:Hr; [by apply Hall|].
  assert (word ∈ restricted) as Hw by (rewrite Hr; by apply Hrestricted).
  apply list_elem_of_filter in Hw as [Hw _]. by destruct Hw.
Qed.

Lemma create_card_avoids_recent_witness :
  ∃ word,
    target_of 1 (world_of (create_card 1 (Some "числа") numbers numbers_state
                                       (numbers_world [3%nat])))
      = Some (lower (UserWord.word word))
    ∧ word ∈ numbers.
Proof.
  destruct (create_card_avoids_recent 1 (Some "числа") numbers numbers_state
              (numbers_world [3%nat])) as (word & H1 & H2 & _).
  - discriminate.
  - exists word. split; assumption.
Defined.

(** C1: the pool holds every surviving candidate once, and two more copies
    of each one whose lowercase word is in the wrongAnswers of the session
    (weight 3 against weight 1); the target is the entry of the pool at the
    index [randbelow] returns, so each slot of the pool is selected by
    exactly the draw equal to its index.  For the candidates one,
    two, three with recentWords = ["two"] and wrongAnswers = ["three"] the
    pool is one, three, three, three: of the four equally likely draws three
    select "three" and one selects "one", none selects "two". *)
Theorem weighted_pool_draw :
  (∀ chat_id words w x,
     count_occ UserWord.eq_dec (pool chat_id words w) x
     = ((if decide (lower (UserWord.word x) ∈ wrong_before chat_id w)
         then 3 else 1)
        * count_occ UserWord.eq_dec
            (available_words words (recent_before chat_id w)) x)%nat)
  ∧ (∀ chat_id category words state w r tape,
       words ≠ [] → rng w = r :: tape →
       ∃ word,
         pool chat_id words w !! (r mod length (pool chat_id words w))%nat
           = Some word
         ∧ target_of chat_id
             (world_of (create_card chat_id category words state w))
           = Some (lower (UserWord.word word)))
  ∧ (∀ chat_id category words state w i tape word,
       pool chat_id words w !! i = Some word → rng w = i :: tape →
       target_of chat_id
         (world_of (create_card chat_id category words state w))
       = Some (lower (UserWord.word word)))
  ∧ (∀ tape,
       UserWord.word <$> pool 1 numbers (numbers_world tape)
       = ["one"; "three"; "three"; "three"])
  ∧ numbers_draw <$> seq 0 4
    = [Some "one"; Some "three"; Some "three"; Some "three"]
  ∧ length (filter (λ r, numbers_draw r = Some "three") (seq 0 4)) = 3%nat
  ∧ length (filter (λ r, numbers_draw r = Some "one") (seq 0 4)) = 1%nat
  ∧ length (filter (λ r, numbers_draw r = Some "two") (seq 0 4)) = 0%nat.
Proof.
  split_and!.
  - intros. apply count_occ_weighted_words.
  - intros chat_id category words state w r tape Hne Htape.
    destruct (create_card_render chat_id category words state w Hne)
      as (word & shuffled & options & tape' & Hpick & _ & _ & _ & Hcard).
    exists word. rewrite Hcard, target_of_rendered.
    rewrite Htape in Hpick. simpl in Hpick. done.
  - intros chat_id category words state w i tape word Hi Htape.
    assert (words ≠ []) as Hne.
    { intros ->. unfold pool in Hi. by rewrite weighted_words_eq in Hi. }
    destruct (create_card_render chat_id category words state w Hne)
      as (word' & shuffled & options & tape' & Hpick & _ & _ & _ & Hcard).
    rewrite Hcard, target_of_rendered.
    rewrite Htape in Hpick. simpl in Hpick.
    rewrite Nat.mod_small in Hpick by (by eapply lookup_lt_Some).
    rewrite Hi in Hpick. by injection Hpick as ->.
  - done.
  - by vm_compute.
  - by vm_compute.
  - by vm_compute.
  - by vm_compute.
Qed.

Lemma weighted_pool_draw_witness :
  ∃ word,
    pool 1 numbers (numbers_world [6%nat])
      !! (6 mod length (pool 1 numbers (numbers_world [6%nat])))%nat = Some word
    ∧ target_of 1 (world_of (create_card 1 (Some "числа") numbers numbers_state
                                         (numbers_world [6%nat])))
      = Some (lower (UserWord.word word)).
Proof.
  destruct weighted_pool_draw as (_ & Hdraw & _ & _).
  apply (Hdraw 1 (Some "числа") numbers numbers_state (numbers_world [6%nat])
               6%nat []).
  - discriminate.
  - reflexivity.
Defined.

(** C3: for a non-empty candidate list the card is sent with a list of
    buttons that holds the lowercase target exactly once, has no repeated
    entry, and has min(4, number of distinct lowercase candidate words)
    entries: all the distinct words when they are fewer than four. *)
Theorem create_card_options chat_id category words state w :
  words ≠ [] →
  ∃ target translate options w',
    create_card chat_id (Some category) words state w = Done w'
    ∧ sent w' = sent w ++ [(chat_id,
                            Card (UserState.level state) category translate options)]
    ∧ target_of chat_id w' = Some target
    ∧ count_occ string_dec options target = 1%nat
    ∧ NoDup options
    ∧ (∀ o, o ∈ options → o ∈ distinct_lower_words words)
    ∧ length options = (4 `min` size (distinct_lower_words words))%nat.
Proof.
  intros Hne.
  destruct (create_card_render chat_id (Some category) words state w Hne)
    as (word & shuffled & options & tape & _ & Hav & Hsh & Hopt & Hcard).
  apply available_words_subseteq in Hav.
  destruct (draw_options_card words word shuffled Hav Hsh) as [Hin Hsize].
  assert (NoDup options) as Hnodup.
  { rewrite Hopt. apply NoDup_elements. }
  assert (lower (UserWord.word word) ∈ options) as Htarget.
  { rewrite Hopt. by apply elem_of_elements. }
  eexists (lower (UserWord.word word)), (UserWord.translation word), options, _.
  split; [exact Hcard|]. split_and!.
  - done.
  - pose proof (target_of_rendered chat_id (Some category) state w word options tape)
      as Ht. exact Ht.
  - apply NoDup_count_occ'; [by apply NoDup_ListNoDup|by apply list_elem_of_In].
  - done.
  - intros o Ho. rewrite Hopt in Ho. apply elem_of_elements in Ho.
    destruct (draw_options_spec (reverse shuffled) {[lower (UserWord.word word)]})
      as (_ & Hsub & _).
    { rewrite size_singleton. lia. }
    apply Hsub in Ho. apply elem_of_union in Ho as [Ho|Ho].
    + apply elem_of_singleton in Ho as ->.
      apply elem_of_list_to_set, list_elem_of_fmap.
      exists (UserWord.word word). split; [done|]. apply list_elem_of_fmap. eauto.
    + apply elem_of_list_to_set, list_elem_of_fmap in Ho as (o' & -> & Ho').
      rewrite elem_of_reverse, Hsh in Ho'.
      apply list_elem_of_fmap in Ho' as (x & -> & Hx).
      apply list_elem_of_filter in Hx as [_ Hx].
      apply elem_of_list_to_set, list_elem_of_fmap.
      exists (UserWord.word x). split; [done|]. apply list_elem_of_fmap. eauto.
  - rewrite Hopt. exact Hsize.
Qed.

Lemma create_card_options_witness :
  ∃ target translate options w',
    create_card 1 (Some "числа") numbers numbers_state (numbers_world [2; 1; 0]%nat)
      = Done w'
    ∧ sent w' = [(1, Card (Some 1) "числа" translate options)]
    ∧ target_of 1 w' = Some target
    ∧ count_occ string_dec options target = 1%nat
    ∧ NoDup options
    ∧ length options = 3%nat.
Proof.
  destruct (create_card_options 1 "числа" numbers numbers_state
              (numbers_world [2; 1; 0]%nat))
    as (target & translate & options & w' & H1 & H2 & H3 & H4 & H5 & _ & H6).
  - discriminate.
  - exists target, translate, options, w'. split_and!; try assumption.
Defined.

(** ** The queue of recent words *)

Lemma push_recent_length recent_words target :
  (length recent_words ≤ 3)%nat → (length (push_recent recent_words target) ≤ 3)%nat.
Proof.
  intros Hlen. unfold push_recent.
  destruct (decide _) as [Hgt|Hle];
    rewrite ?length_drop; rewrite length_app in *; simpl in *; lia.
Qed.

Lemma push_recent_last_three recent_words target :
  (length recent_words ≤ 3)%nat →
  push_recent recent_words target = last_three (recent_words ++ [target]).
Proof.
  intros Hlen. unfold push_recent, last_three.
  rewrite length_app. simpl.
  destruct (decide _) as [Hgt|Hle].
  - by replace (length recent_words + 1 - 3)%nat with 1%nat by lia.
  - by replace (length recent_words + 1 - 3)%nat with 0%nat by lia.
Qed.

Lemma last_three_app (a b : list string) :
  last_three (last_three a ++ b) = last_three (a ++ b).
Proof.
  unfold last_three.
  destruct (decide (length a ≤ 3)%nat) as [Hle|Hgt].
  - by replace (length a - 3)%nat with 0%nat by lia.
  - rewrite !length_app, length_drop.
    replace (length a - (length a - 3) + length b - 3)%nat with (length b) by lia.
    replace (length a + length b - 3)%nat
      with ((length a - 3) + length b)%nat by lia.
    rewrite <- drop_drop. f_equal.
    rewrite drop_app_le by lia. done.
Qed.

Lemma last_three_length (l : list string) : (length (last_three l) ≤ 3)%nat.
Proof. unfold last_three. rewrite length_drop. lia. Qed.

(** *** The bound is an invariant of every handler *)

Lemma bounded_same_storage w w' :
  state_storage w' = state_storage w → bounded w → bounded w'.
Proof.
  intros Heq Hb chat_id. specialize (Hb chat_id).
  unfold recent_before, temp_of in *. by rewrite Heq.
Qed.

Lemma bounded_set chat_id temp_state w w' :
  state_storage w' = State.set chat_id temp_state (state_storage w) →
  (length (default [] (Temp.recent_words temp_state)) ≤ 3)%nat →
  bounded w → bounded w'.
Proof.
  intros Heq Hlen Hb c. specialize (Hb c).
  unfold recent_before, temp_of, State.get, State.set in *. rewrite Heq.
  destruct (decide (chat_id = c)) as [->|Hne].
  - by rewrite lookup_insert_eq.
  - by rewrite lookup_insert_ne.
Qed.

Lemma bounded_clear chat_id w : bounded w → bounded (clear_session chat_id w).
Proof.
  intros Hb c. specialize (Hb c).
  unfold recent_before, temp_of, State.get, clear_session, State.clear in *.
  simpl. destruct (decide (chat_id = c)) as [->|Hne].
  - rewrite lookup_delete_eq. simpl. lia.
  - by rewrite lookup_delete_ne.
Qed.

Lemma bounded_create_card chat_id category words state w :
  bounded w → bounded (world_of (create_card chat_id category words state w)).
Proof.
  intros Hb. destruct (decide (words = [])) as [->|Hne].
  - by apply (bounded_same_storage w).
  - destruct (create_card_render chat_id category words state w Hne)
      as (word & shuffled & options & tape & _ & _ & _ & _ & ->).
    unfold rendered.
    destruct category; (eapply bounded_set; [reflexivity| |exact Hb]);
      apply push_recent_length, Hb.
Qed.

Lemma bounded_card_then_clear chat_id category state w :
  bounded w → bounded (world_of (card_then_clear chat_id category state w)).
Proof.
  intros Hb. unfold card_then_clear.
  destruct (get_all_words _ _ _) as [words|]; [|done].
  pose proof (bounded_create_card chat_id (Some category) words state w Hb) as Hc.
  destruct (create_card _ _ _ _ _) as [w'|w']; simpl in *; [|done].
  by apply bounded_clear.
Qed.

(** The guards shared by the handlers that start from the long-lived state. *)
Ltac guards :=
  repeat match goal with
    | |- context [user_of ?c ?d] => destruct (user_of c d) as [?user|]; [|done]
    | |- context [state_of ?u ?d] => destruct (state_of u d) as [?state|]; [|done]
    | |- context [UserState.category ?s] =>
        destruct (UserState.category s) as [?category|]; [|done]
    | |- context [decide (?c = "")] => destruct (decide (c = "")); [done|]
    end.

Lemma bounded_add_word chat_id w :
  bounded w → bounded (world_of (add_word chat_id w)).
Proof.
  intros Hb. unfold add_word. guards. simpl.
  eapply bounded_set; [reflexivity| |exact Hb]. apply Hb.
Qed.

Lemma bounded_delete_word chat_id w :
  bounded w → bounded (world_of (delete_word chat_id w)).
Proof.
  intros Hb. unfold delete_word. guards. simpl.
  eapply bounded_set; [reflexivity| |exact Hb]. apply Hb.
Qed.

Lemma bounded_next_card chat_id w :
  bounded w → bounded (world_of (next_card chat_id w)).
Proof.
  intros Hb. unfold next_card. guards.
  destruct (get_all_words _ _ _); [|done].
  by apply bounded_create_card.
Qed.

Lemma bounded_process_word_actions chat_id text user state w :
  bounded w →
  bounded (world_of (process_word_actions chat_id text user state
                                          (temp_of chat_id w) w)).
Proof.
  intros Hb.
  assert (bounded (update_in_place chat_id (Temp.pop_russian (temp_of chat_id w)) w))
    as Hpop.
  { eapply bounded_set; [reflexivity| |exact Hb]. apply Hb. }
  unfold process_word_actions.
  destruct (Temp.action (temp_of chat_id w)) as [[| |]|].
  - eapply bounded_set; [reflexivity| |exact Hb]. apply Hb.
  - destruct (Temp.russian _) as [russian|];
      [|by apply (bounded_same_storage
                    (update_in_place chat_id (Temp.pop_russian (temp_of chat_id w)) w))].
    destruct (Temp.category _) as [category|];
      [|by apply (bounded_same_storage
                    (update_in_place chat_id (Temp.pop_russian (temp_of chat_id w)) w))].
    destruct (Temp.level _) as [level|];
      [|by apply (bounded_same_storage
                    (update_in_place chat_id (Temp.pop_russian (temp_of chat_id w)) w))].
    destruct (_ || _);
      [by apply (bounded_same_storage
                   (update_in_place chat_id (Temp.pop_russian (temp_of chat_id w)) w))|].
    destruct (first _ _); apply bounded_card_then_clear;
      by apply (bounded_same_storage
                  (update_in_place chat_id (Temp.pop_russian (temp_of chat_id w)) w)).
  - destruct (Temp.category _) as [category|]; [|done].
    apply bounded_card_then_clear.
    destruct (list_find _ _) as [[i row]|]; by apply (bounded_same_storage w).
  - destruct (Temp.target_word _) as [target_word|];
      [|by apply (bounded_same_storage w)].
    destruct (falsy_str target_word); [by apply (bounded_same_storage w)|].
    destruct (decide _).
    + destruct (get_all_words _ _ _) as [words|];
        [|by apply (bounded_same_storage w)].
      apply bounded_create_card. by apply (bounded_same_storage w).
    + eapply bounded_set; [reflexivity| |exact Hb]. apply Hb.
Qed.

Lemma bounded_handle_text chat_id text w :
  bounded w → bounded (world_of (handle_text chat_id text w)).
Proof.
  intros Hb. unfold handle_text.
  destruct (user_of _ _) as [user|]; [|done].
  destruct (state_of _ _) as [state|]; [|done].
  destruct (process_menu_navigation text).
  - by apply (bounded_same_storage w).
  - by apply bounded_process_word_actions.
Qed.

Lemma bounded_run events w : bounded w → bounded (run events w).
Proof.
  revert w. induction events as [|e events IH]; intros w Hb; [done|].
  simpl. apply IH. destruct e; simpl.
  - by apply bounded_create_card.
  - by apply bounded_next_card.
  - by apply bounded_add_word.
  - by apply bounded_delete_word.
  - by apply bounded_handle_text.
  - by apply (bounded_same_storage w).
Qed.

(** C4: a successful card render appends the lowercase chosen word to the
    recentWords of the session and, if the list is then longer than 3, drops
    its front entry; so after a run of renders that starts with at most 3
    recent words (none in a new session) the list is the last three of the
    words shown, oldest first, and never longer than 3.  The bound is kept
    by every handler: from a world without sessions, no sequence of events
    leaves a session with more than 3 recent words. *)
Theorem recent_words_bounded_fifo :
  (∀ chat_id category words state w,
     words ≠ [] →
     ∃ w1 target,
       create_card chat_id (Some category) words state w = Done w1
       ∧ target_of chat_id w1 = Some target
       ∧ recent_before chat_id w1
         = (if decide (3 < length (recent_before chat_id w ++ [target]))%nat
            then drop 1 (recent_before chat_id w ++ [target])
            else recent_before chat_id w ++ [target]))
  ∧ (∀ chat_id w shown w',
       renders chat_id w shown w' →
       (length (recent_before chat_id w) ≤ 3)%nat →
       recent_before chat_id w' = last_three (recent_before chat_id w ++ shown)
       ∧ (length (recent_before chat_id w') ≤ 3)%nat)
  ∧ (∀ chat_id w shown w',
       renders chat_id w shown w' →
       state_storage w !! chat_id = None →
       recent_before chat_id w' = last_three shown)
  ∧ (∀ events w, bounded w → bounded (run events w))
  ∧ (∀ events d tape chat_id,
       (length (recent_before chat_id (run events (mkWorld d ∅ tape []))) ≤ 3)%nat).
Proof.
  assert (∀ chat_id w shown w',
            renders chat_id w shown w' →
            (length (recent_before chat_id w) ≤ 3)%nat →
            recent_before chat_id w'
            = last_three (recent_before chat_id w ++ shown)) as Hrun.
  { intros chat_id w shown w' Hrun.
    induction Hrun as [w|w category words state w1 target shown w2
                         Hne Hcard Htarget Hrun IH]; intros Hlen.
    - rewrite app_nil_r. unfold last_three.
      by replace (length (recent_before chat_id w) - 3)%nat with 0%nat by lia.
    - destruct (create_card_render chat_id (Some category) words state w Hne)
        as (word & shuffled & options & tape & _ & _ & _ & _ & Hrender).
      rewrite Hrender in Hcard.
      pose proof (target_of_rendered chat_id (Some category) state w word
                                     options tape) as Ht.
      pose proof (recent_of_rendered chat_id (Some category) state w word
                                     options tape) as Hr.
      rewrite Hcard in Ht, Hr. simpl in Ht, Hr.
      rewrite Htarget in Ht. injection Ht as ->.
      rewrite push_recent_last_three in Hr by done.
      rewrite IH, Hr.
      + by rewrite last_three_app, <- app_assoc.
      + rewrite Hr. apply last_three_length. }
  split_and!.
  - intros chat_id category words state w Hne.
    destruct (create_card_render chat_id (Some category) words state w Hne)
      as (word & shuffled & options & tape & _ & _ & _ & _ & Hrender).
    eexists _, (lower (UserWord.word word)). split; [exact Hrender|].
    split.
    + exact (target_of_rendered chat_id (Some category) state w word options tape).
    + exact (recent_of_rendered chat_id (Some category) state w word options tape).
  - intros chat_id w shown w' Hrenders Hlen. split; [by apply Hrun|].
    rewrite (Hrun _ _ _ _ Hrenders Hlen). apply last_three_length.
  - intros chat_id w shown w' Hrenders Hnone.
    assert (recent_before chat_id w = []) as Hnil.
    { unfold recent_before, temp_of, State.get. by rewrite Hnone. }
    rewrite (Hrun _ _ _ _ Hrenders); rewrite Hnil; [done|simpl; lia].
  - apply bounded_run.
  - intros events d tape. apply bounded_run.
    intros chat_id. unfold recent_before, temp_of, State.get. simpl.
    rewrite lookup_empty. simpl. lia.
Qed.

Lemma recent_words_bounded_fifo_witness :
  ∃ w',
    renders 1 (numbers_world []) ["one"; "three"; "one"] w'
    ∧ recent_before 1 w' = ["one"; "three"; "one"]
    ∧ (length (recent_before 1 w') ≤ 3)%nat.
Proof.
  destruct recent_words_bounded_fifo as (_ & Hrun & _).
  assert (∃ w', renders 1 (numbers_world []) ["one"; "three"; "one"] w')
    as [w' Hrenders].
  { eexists.
    eapply (renders_cons 1 _ "числа" numbers numbers_state);
      [discriminate|vm_compute; reflexivity|vm_compute; reflexivity|].
    eapply (renders_cons 1 _ "числа" numbers numbers_state);
      [discriminate|vm_compute; reflexivity|vm_compute; reflexivity|].
    eapply (renders_cons 1 _ "числа" numbers numbers_state);
      [discriminate|vm_compute; reflexivity|vm_compute; reflexivity|].
    apply renders_nil. }
  exists w'.
  destruct (Hrun 1 (numbers_world []) ["one"; "three"; "one"] w' Hrenders)
    as [Heq Hlen].
  - vm_compute. lia.
  - split; [exact Hrenders|]. split; [|exact Hlen].
    rewrite Heq. reflexivity.
Defined.

(** ** Opening the add and the delete dialogue *)

(** Without a category selection (no state row, a NULL or an empty
    category) a request to add or to delete a word changes nothing; with one
    the action is staged, with the level the state holds. *)
Lemma stage_cases chat_id w :
  (selected_category chat_id (db w) = None →
     world_of (add_word chat_id w) = w ∧ world_of (delete_word chat_id w) = w)
  ∧ (∀ category,
       selected_category chat_id (db w) = Some category →
       add_word chat_id w
       = Done (staged add_word_action EnterRussian chat_id category
                      (selected_level chat_id (db w)) w)
       ∧ delete_word chat_id w
         = Done (staged delete_word_action EnterRussianToDelete chat_id category
                        (selected_level chat_id (db w)) w)).
Proof.
  unfold selected_category, selected_level, add_word, delete_word, staged.
  destruct (user_of chat_id (db w)) as [user|]; simpl; [|by split].
  destruct (state_of user (db w)) as [state|]; simpl; [|by split].
  destruct (UserState.category state) as [category|]; simpl; [|by split].
  destruct (decide (category = "")); [by split|].
  split; [done|]. by intros ? [= <-].
Qed.

(** ** Checking an answer *)

Lemma wrong_of_rendered chat_id category state w word options tape :
  wrong_before chat_id
    (world_of (rendered chat_id category state w word options tape))
  = wrong_before chat_id w.
Proof.
  unfold rendered, wrong_before, temp_of, State.get, State.set.
  destruct category; simpl; by rewrite lookup_insert_eq.
Qed.

(** [create_card] never touches the wrong answers. *)
Lemma create_card_wrong chat_id category words state w :
  wrong_before chat_id (world_of (create_card chat_id category words state w))
  = wrong_before chat_id w.
Proof.
  destruct (decide (words = [])) as [->|Hne]; [done|].
  destruct (create_card_render chat_id category words state w Hne)
    as (word & shuffled & options & tape & _ & _ & _ & _ & ->).
  apply wrong_of_rendered.
Qed.

(** Only rows with the category asked for are candidates. *)
Lemma get_all_words_category chat_id category d words x :
  get_all_words chat_id category d = Some words →
  x ∈ words → category = Some (UserWord.category x).
Proof.
  unfold get_all_words. destruct (user_of chat_id d); [|done].
  intros [= <-] Hx. apply list_elem_of_filter in Hx as [(_ & Hc & _) _]. done.
Qed.

(** C5, as the code has it.  With no pending action: when no target word is
    set (absent or empty) the no-active-card error is sent and nothing else
    changes.  With a target set, a text whose lowercase form is the target
    is answered "correct" and [create_card] runs on the words of the current
    category and level, leaving wrongAnswers as they were: it sends a new
    card when there is at least one such word, and only the
    no-words-available message, with the session untouched, when there is
    none.  Any other text is answered "incorrect": the target is appended to
    wrongAnswers if and only if it is not there yet, and the target word,
    recentWords, tables and random tape stay as they were. *)
Theorem answer_checked chat_id text user state w :
  Temp.action (temp_of chat_id w) = None →
  let result :=
    process_word_actions chat_id text user state (temp_of chat_id w) w in
  ((target_of chat_id w = None ∨ target_of chat_id w = Some "") →
     result = Done (send_message chat_id NoCurrentWord w))
  ∧ (∀ target words,
       target_of chat_id w = Some target → target ≠ "" →
       lower text = target →
       get_all_words chat_id (UserState.category state) (db w) = Some words →
       result = create_card chat_id (UserState.category state) words state
                            (send_message chat_id Correct w)
       ∧ wrong_before chat_id (world_of result) = wrong_before chat_id w
       ∧ (words = [] →
            result = Done (send_message chat_id NoWordsAvailable
                             (send_message chat_id Correct w)))
       ∧ (words ≠ [] →
            ∃ category translate options w',
              result = Done w'
              ∧ sent w' = sent w ++ [(chat_id, Correct);
                                     (chat_id, Card (UserState.level state) category
                                                    translate options)]
              ∧ is_Some (target_of chat_id w')))
  ∧ (∀ target,
       target_of chat_id w = Some target → target ≠ "" →
       lower text ≠ target →
       ∃ w',
         result = Done w'
         ∧ sent w' = sent w ++ [(chat_id, Incorrect)]
         ∧ wrong_before chat_id w'
           = (if decide (target ∈ wrong_before chat_id w)
              then wrong_before chat_id w
              else wrong_before chat_id w ++ [target])
         ∧ target_of chat_id w' = Some target
         ∧ recent_before chat_id w' = recent_before chat_id w
         ∧ db w' = db w ∧ rng w' = rng w).
Proof.
  intros Haction result. unfold target_of. subst result.
  unfold process_word_actions. rewrite Haction.
  split_and!.
  - intros [->| ->]; done.
  - intros target words -> Hne Htext Hwords.
    unfold falsy_str. rewrite bool_decide_false by done.
    rewrite decide_True by done. simpl. rewrite Hwords.
    split_and!.
    + done.
    + by rewrite create_card_wrong.
    + by intros ->.
    + intros Hwne.
      assert (∃ category, UserState.category state = Some category)
        as [category Hcat].
      { destruct words as [|x words']; [done|].
        exists (UserWord.category x).
        eapply get_all_words_category; [exact Hwords|apply list_elem_of_here]. }
      rewrite Hcat.
      destruct (create_card_sends_card chat_id category words state
                  (send_message chat_id Correct w) Hwne)
        as (t & translate & options & w' & Hcard & Hsent & Ht).
      exists category, translate, options, w'.
      split_and!; [done| |unfold target_of in Ht; by rewrite Ht].
      rewrite Hsent. simpl. by rewrite <- app_assoc.
  - intros target Htarget Hne Htext. rewrite Htarget.
    unfold falsy_str. rewrite bool_decide_false by done.
    rewrite decide_False by done.
    eexists. split; [reflexivity|].
    unfold update_in_place, wrong_before, recent_before, temp_of, State.get,
      State.set in *. simpl. rewrite lookup_insert_eq. simpl.
    split_and!; done.
Qed.

Lemma answer_checked_witness :
  ∃ w',
    process_word_actions 1 "Two" (User.mk 1 1) numbers_state
      (temp_of 1 level_changed_world) level_changed_world = Done w'
    ∧ sent w' = [(1, Incorrect)]
    ∧ wrong_before 1 w' = ["one"].
Proof.
  destruct (answer_checked 1 "Two" (User.mk 1 1) numbers_state level_changed_world)
    as (_ & _ & Hwrong).
  - reflexivity.
  - destruct (Hwrong "one") as (w' & H1 & H2 & H3 & _).
    + reflexivity.
    + discriminate.
    + discriminate.
    + exists w'. split; [exact H1|]. split; [exact H2|]. rewrite H3. reflexivity.
Defined.

(** C5 fails as stated: the right answer to an open card is answered
    "correct", yet no new card follows when the current category has no word
    at the current level; the handler sends the no-words-available message
    and the session keeps the old target. *)
Lemma correct_answer_without_card :
  Temp.action (temp_of 1 level_changed_world) = None
  ∧ target_of 1 level_changed_world = Some (lower "one")
  ∧ ∃ w',
      handle_text 1 "one" level_changed_world = Done w'
      ∧ sent w' = [(1, Correct); (1, NoWordsAvailable)]
      ∧ state_storage w' = state_storage level_changed_world.
Proof.
  split; [done|]. split; [done|]. eexists. split; [by vm_compute|]. done.
Qed.

(** ** What the handlers leave alone *)

Lemma create_card_done chat_id category words state w :
  ∃ w', create_card chat_id (Some category) words state w = Done w'.
Proof.
  destruct (decide (words = [])) as [->|Hne]; [by eexists|].
  destruct (create_card_render chat_id (Some category) words state w Hne)
    as (word & shuffled & options & tape & _ & _ & _ & _ & ->).
  by eexists.
Qed.

Lemma create_card_db chat_id category words state w :
  db (world_of (create_card chat_id category words state w)) = db w.
Proof.
  destruct (decide (words = [])) as [->|Hne]; [done|].
  destruct (create_card_render chat_id category words state w Hne)
    as (word & shuffled & options & tape & _ & _ & _ & _ & ->).
  unfold rendered. by destruct category.
Qed.

Lemma create_card_sent chat_id category words state w :
  ∃ rest,
    sent (world_of (create_card chat_id category words state w)) = sent w ++ rest
    ∧ ((chat_id, WordNotFound) ∉ rest)
    ∧ (∀ text, (chat_id, WordDeleted text) ∉ rest).
Proof.
  destruct (decide (words = [])) as [->|Hne].
  - eexists. split; [reflexivity|]. set_solver.
  - destruct (create_card_render chat_id category words state w Hne)
      as (word & shuffled & options & tape & _ & _ & _ & _ & ->).
    unfold rendered. destruct category; simpl.
    + eexists. split; [reflexivity|]. set_solver.
    + exists []. rewrite app_nil_r. split; [done|]. set_solver.
Qed.

Lemma card_then_clear_db chat_id category state w :
  db (world_of (card_then_clear chat_id category state w)) = db w.
Proof.
  unfold card_then_clear.
  destruct (get_all_words chat_id (Some category) (db w)) as [words|]; [|done].
  destruct (create_card_done chat_id category words state w) as [w' Hw'].
  pose proof (create_card_db chat_id (Some category) words state w) as Hdb.
  rewrite Hw' in Hdb |- *. done.
Qed.

Lemma card_then_clear_sent chat_id category state w :
  ∃ rest,
    sent (world_of (card_then_clear chat_id category state w)) = sent w ++ rest
    ∧ ((chat_id, WordNotFound) ∉ rest)
    ∧ (∀ text, (chat_id, WordDeleted text) ∉ rest).
Proof.
  unfold card_then_clear.
  destruct (get_all_words chat_id (Some category) (db w)) as [words|].
  - destruct (create_card_done chat_id category words state w) as [w' Hw'].
    pose proof (create_card_sent chat_id (Some category) words state w) as Hsent.
    rewrite Hw' in Hsent |- *. done.
  - exists []. rewrite app_nil_r. split; [done|]. set_solver.
Qed.

(** ** Committing a delete *)

(** C7: a staged delete looks for the first row of the user whose
    translation is the lowercase text and whose category and level are the
    staged ones (the category in lowercase, which is how it is staged); the
    foreign word of the row plays no part.  If there is such a row, that row
    and no other is removed and the success message is sent; if there is
    none, the table is left as it was and the not-found message is sent. *)
Theorem delete_commit chat_id text user state w category :
  Temp.action (temp_of chat_id w) = Some delete_word_action →
  Temp.category (temp_of chat_id w) = Some category →
  let rows := user_words (db w) in
  let level := Temp.level (temp_of chat_id w) in
  let found (x : UserWord.t) :=
    UserWord.user_id x = User.id user
    ∧ UserWord.translation x = lower text
    ∧ UserWord.category x = lower category
    ∧ Some (UserWord.level x) = level in
  let w' :=
    world_of (process_word_actions chat_id text user state (temp_of chat_id w) w) in
  (∀ i row,
     rows !! i = Some row → found row →
     (∀ j y, rows !! j = Some y → (j < i)%nat → ¬ found y) →
     user_words (db w') = delete i rows
     ∧ users (db w') = users (db w)
     ∧ user_states (db w') = user_states (db w)
     ∧ ∃ rest,
         sent w' = sent w ++ (chat_id, WordDeleted (lower text)) :: rest
         ∧ (chat_id, WordNotFound) ∉ rest)
  ∧ ((∀ y, y ∈ rows → ¬ found y) →
     db w' = db w
     ∧ ∃ rest,
         sent w' = sent w ++ (chat_id, WordNotFound) :: rest
         ∧ (∀ t, (chat_id, WordDeleted t) ∉ rest))
  ∧ (∀ selected, category = lower selected → lower category = category).
Proof.
  intros Haction Hcategory rows level found w'.
  subst w'. unfold process_word_actions. rewrite Haction, Hcategory.
  fold rows level.
  split_and!.
  - intros i row Hi Hrow Hfirst.
    assert (list_find (delete_filter user (lower text) category level) rows
            = Some (i, row)) as -> by (by apply list_find_Some).
    rewrite card_then_clear_db. simpl.
    split_and!; try done.
    destruct (card_then_clear_sent chat_id category state
                (send_message chat_id (WordDeleted (lower text))
                   (with_user_words (delete i rows) w)))
      as (rest & -> & Hrest & _).
    exists rest. simpl. by rewrite <- app_assoc.
  - intros Hnone.
    assert (list_find (delete_filter user (lower text) category level) rows = None)
      as ->.
    { apply list_find_None, Forall_forall. exact Hnone. }
    rewrite card_then_clear_db. simpl.
    split; [done|].
    destruct (card_then_clear_sent chat_id category state
                (send_message chat_id WordNotFound w))
      as (rest & -> & _ & Hrest).
    exists rest. simpl. by rewrite <- app_assoc.
  - intros selected ->. apply lower_idempotent.
Qed.

Lemma delete_commit_witness :
  user_words (db (world_of (process_word_actions 1 "три" (User.mk 1 1) numbers_state
                              (temp_of 1 delete_world) delete_world)))
  = [ UserWord.mk 1 "one" "один" "числа" 1 false;
      UserWord.mk 1 "two" "два" "числа" 1 false ].
Proof.
  destruct (delete_commit 1 "три" (User.mk 1 1) numbers_state delete_world "числа")
    as (Hfound & _ & _).
  - reflexivity.
  - reflexivity.
  - destruct (Hfound 2%nat (UserWord.mk 1 "three" "три" "числа" 1 false))
      as [Hrows _].
    + reflexivity.
    + repeat split.
    + intros [|[|j]] y Hy Hj; [| |simpl in Hj; lia];
        injection Hy as <-; intros (_ & Ht & _); discriminate Ht.
    + exact Hrows.
Defined.

(** ** Committing an add *)

Lemma first_Some {A} (P : A → Prop) `{!∀ x, Decision (P x)} (rows : list A) x :
  first P rows = Some x → x ∈ rows ∧ P x.
Proof.
  unfold first. destruct (list_find P rows) as [[i y]|] eqn:Hfind; [|done].
  intros [= <-]. apply list_find_Some in Hfind as (Hi & HP & _).
  split; [by eapply list_elem_of_lookup_2|done].
Qed.

Lemma first_None {A} (P : A → Prop) `{!∀ x, Decision (P x)} (rows : list A) :
  first P rows = None → ∀ x, x ∈ rows → ¬ P x.
Proof.
  unfold first. destruct (list_find P rows) as [[i y]|] eqn:Hfind; [done|].
  intros _. apply list_find_None in Hfind. by apply Forall_forall.
Qed.

(** The add commit on the table: nothing is written when a row with the
    same owner, lowercase word, lowercase translation, lowercase category
    and level exists; otherwise one row with these fields is appended, and
    its [is_custom] is the default of the column, [false]. *)
Lemma add_commit chat_id text user state w russian category level :
  Temp.action (temp_of chat_id w) = Some add_translation_action →
  Temp.russian (temp_of chat_id w) = Some russian → russian ≠ "" →
  Temp.category (temp_of chat_id w) = Some category → category ≠ "" →
  Temp.level (temp_of chat_id w) = Some level → level ≠ 0 →
  let rows := user_words (db w) in
  let same (x : UserWord.t) :=
    UserWord.user_id x = User.id user
    ∧ UserWord.word x = lower text
    ∧ UserWord.translation x = lower russian
    ∧ UserWord.category x = lower category
    ∧ UserWord.level x = level in
  let w' :=
    world_of (process_word_actions chat_id text user state (temp_of chat_id w) w) in
  ((∃ x, x ∈ rows ∧ same x) →
     db w' = db w
     ∧ ∃ rest, sent w' = sent w ++ (chat_id, WordExists russian (lower text)) :: rest)
  ∧ ((∀ x, x ∈ rows → ¬ same x) →
     user_words (db w')
     = rows ++ [UserWord.mk (User.id user) (lower text) (lower russian)
                            (lower category) level false]
     ∧ ∃ rest, sent w' = sent w ++ (chat_id, WordStored russian (lower text)) :: rest).
Proof.
  intros Haction Hrussian Hr Hcategory Hc Hlevel Hl rows same w'. subst w'.
  unfold process_word_actions.
  rewrite Haction, Hrussian, Hcategory, Hlevel.
  unfold falsy_str. rewrite !bool_decide_false by done. simpl.
  fold rows. rewrite lower_idempotent.
  destruct (first (add_filter user (lower text) russian category level) rows)
    as [x|] eqn:Hfirst.
  - apply first_Some in Hfirst as [Hx Hsame].
    unfold add_filter in Hsame. rewrite lower_idempotent in Hsame.
    split; [|intros Hnone; by destruct (Hnone x Hx)].
    intros _. rewrite card_then_clear_db. split; [done|].
    destruct (card_then_clear_sent chat_id category state
                (send_message chat_id (WordExists russian (lower text))
                   (update_in_place chat_id
                      (Temp.pop_russian (temp_of chat_id w)) w)))
      as (rest & -> & _).
    exists rest. simpl. by rewrite <- app_assoc.
  - pose proof (first_None _ _ Hfirst) as Hnone.
    split.
    + intros (x & Hx & Hsame). destruct (Hnone x Hx).
      unfold add_filter. by rewrite lower_idempotent.
    + intros _. rewrite card_then_clear_db. split; [done|].
      destruct (card_then_clear_sent chat_id category state
                  (send_message chat_id (WordStored russian (lower text))
                     (with_user_words
                        (rows ++ [UserWord.new (User.id user) (lower text)
                                    (lower russian) (lower category) level])
                        (update_in_place chat_id
                           (Temp.pop_russian (temp_of chat_id w)) w))))
        as (rest & -> & _).
      exists rest. simpl. by rewrite <- app_assoc.
Qed.

(** C6, at the failing input: user 1 adds "стол" with the translation
    "Table" to the category of the numbers.  One row is appended, with the
    lowercase fields, and its custom flag is [false], not [true]: the
    constructor call of lines 674-680 does not pass [is_custom].  The same
    dialogue once more finds that row, reports the duplicate and writes
    nothing. *)
Theorem add_commit_flag :
  ∃ w1 w2,
    add_dialogue 1 "стол" "Table" (numbers_world []) = Done w1
    ∧ user_words (db w1)
      = numbers ++ [UserWord.mk 1 "table" "стол" "числа" 1 false]
    ∧ UserWord.is_custom <$> last (user_words (db w1)) = Some false
    ∧ add_dialogue 1 "стол" "Table" w1 = Done w2
    ∧ user_words (db w2) = user_words (db w1)
    ∧ (1, WordExists "стол" "table") ∈ sent w2.
Proof.
  eexists _, _.
  split; [by vm_compute|]. split; [done|]. split; [done|].
  split; [by vm_compute|]. split; [done|].
  by apply (list_elem_of_lookup_2 _ 6%nat).
Qed.

(** ** The session after a commit *)

Lemma clear_session_lookup chat_id w :
  state_storage (clear_session chat_id w) !! chat_id = None.
Proof. unfold clear_session, State.clear. simpl. apply lookup_delete_eq. Qed.

(** An answer that finds no session record. *)
Lemma handle_text_no_session chat_id answer user state w :
  user_of chat_id (db w) = Some user →
  state_of user (db w) = Some state →
  state_storage w !! chat_id = None →
  process_menu_navigation answer = None →
  handle_text chat_id answer w = Done (send_message chat_id NoCurrentWord w).
Proof.
  intros Huser Hstate Hnone Hnav. unfold handle_text.
  rewrite Huser, Hstate, Hnav.
  unfold temp_of, State.get. by rewrite Hnone.
Qed.

(** [create_card] for the staged category, then the whole record goes. *)
Lemma card_then_clear_spec chat_id category user state w :
  user_of chat_id (db w) = Some user →
  ∃ words,
    get_all_words chat_id (Some category) (db w) = Some words
    ∧ card_then_clear chat_id category state w
      = bind (create_card chat_id (Some category) words state w)
             (λ w, Done (clear_session chat_id w))
    ∧ (words ≠ [] →
       ∃ target translate options w2,
         create_card chat_id (Some category) words state w = Done w2
         ∧ sent w2 = sent w ++ [(chat_id, Card (UserState.level state) category
                                               translate options)]
         ∧ target_of chat_id w2 = Some target
         ∧ card_then_clear chat_id category state w
           = Done (clear_session chat_id w2))
    ∧ ∃ w3,
        card_then_clear chat_id category state w = Done w3
        ∧ state_storage w3 !! chat_id = None
        ∧ db w3 = db w.
Proof.
  intros Huser.
  assert (∃ words, get_all_words chat_id (Some category) (db w) = Some words)
    as [words Hwords].
  { unfold get_all_words. rewrite Huser. by eexists. }
  exists words. split; [done|].
  unfold card_then_clear. rewrite Hwords. split; [done|].
  split.
  - intros Hne.
    destruct (create_card_sends_card chat_id category words state w Hne)
      as (target & translate & options & w2 & Hcard & Hsent & Htarget).
    exists target, translate, options, w2. by rewrite Hcard.
  - destruct (create_card_done chat_id category words state w) as [w2 Hw2].
    pose proof (create_card_db chat_id (Some category) words state w) as Hdb.
    rewrite Hw2 in Hdb |- *. simpl in *.
    eexists. split; [done|]. split; [apply clear_session_lookup|done].
Qed.

(** The world in which [process_word_actions] calls [create_card] when it
    commits: the tables after the insert or the delete, and the message
    about it sent. *)
Lemma commit_cases chat_id text user state w category :
  commit_pending (temp_of chat_id w) category →
  ∃ w1,
    process_word_actions chat_id text user state (temp_of chat_id w) w
    = card_then_clear chat_id category state w1
    ∧ users (db w1) = users (db w)
    ∧ user_states (db w1) = user_states (db w).
Proof.
  intros [Hcategory [(Haction & Hc & (russian & Hrussian & Hr)
                      & (level & Hlevel & Hl))|Haction]];
    unfold process_word_actions; rewrite Haction, Hcategory.
  - rewrite Hrussian, Hlevel. unfold falsy_str.
    rewrite !bool_decide_false by done. simpl.
    destruct (first _ _); by eexists.
  - destruct (list_find _ _) as [[i row]|]; by eexists.
Qed.

(** C10, as the code has it: every committed add (duplicate or not) and
    every committed delete (found or not) ends with a call of [create_card]
    for the staged category followed by the deletion of the whole session
    record of the chat.  When the category still has a word at the current
    level the call sends a new card and stores its target word; when it has
    none only the no-words-available message is sent.  Either way the record
    is gone afterwards (no pending action, no recentWords, no wrongAnswers,
    no targetWord), and the next answer gets the current-word-not-found
    error. *)
Theorem commit_erases_session chat_id text user state w category :
  commit_pending (temp_of chat_id w) category →
  user_of chat_id (db w) = Some user →
  state_of user (db w) = Some state →
  process_menu_navigation text = None →
  ∃ w1 words w3,
    get_all_words chat_id (Some category) (db w1) = Some words
    ∧ handle_text chat_id text w
      = bind (create_card chat_id (Some category) words state w1)
             (λ w2, Done (clear_session chat_id w2))
    ∧ (words ≠ [] →
       ∃ target translate options w2,
         create_card chat_id (Some category) words state w1 = Done w2
         ∧ sent w2 = sent w1 ++ [(chat_id, Card (UserState.level state) category
                                                translate options)]
         ∧ target_of chat_id w2 = Some target
         ∧ w3 = clear_session chat_id w2)
    ∧ (words = [] →
       w3 = clear_session chat_id (send_message chat_id NoWordsAvailable w1))
    ∧ handle_text chat_id text w = Done w3
    ∧ state_storage w3 !! chat_id = None
    ∧ Temp.action (temp_of chat_id w3) = None
    ∧ recent_before chat_id w3 = []
    ∧ wrong_before chat_id w3 = []
    ∧ target_of chat_id w3 = None
    ∧ (∀ answer,
         process_menu_navigation answer = None →
         handle_text chat_id answer w3
         = Done (send_message chat_id NoCurrentWord w3)).
Proof.
  intros Hpending Huser Hstate Hnav.
  destruct (commit_cases chat_id text user state w category Hpending)
    as (w1 & Hcommit & Husers & Hstates).
  assert (user_of chat_id (db w1) = Some user) as Huser1.
  { unfold user_of in *. by rewrite Husers. }
  assert (state_of user (db w1) = Some state) as Hstate1.
  { unfold state_of in *. by rewrite Hstates. }
  destruct (card_then_clear_spec chat_id category user state w1 Huser1)
    as (words & Hwords & Hbind & Hcard & w3 & Hdone & Hnone & Hdb).
  assert (handle_text chat_id text w = card_then_clear chat_id category state w1)
    as Hhandle.
  { unfold handle_text. by rewrite Huser, Hstate, Hnav. }
  exists w1, words, w3. rewrite Hhandle.
  split_and!; try done.
  - intros Hne. destruct (Hcard Hne)
      as (target & translate & options & w2 & H1 & H2 & H3 & H4).
    exists target, translate, options, w2. split_and!; try done.
    rewrite Hdone in H4. by injection H4.
  - intros ->. rewrite Hbind in Hdone. simpl in Hdone. by injection Hdone.
  - unfold temp_of, State.get. by rewrite Hnone.
  - unfold recent_before, temp_of, State.get. by rewrite Hnone.
  - unfold wrong_before, temp_of, State.get. by rewrite Hnone.
  - unfold target_of, temp_of, State.get. by rewrite Hnone.
  - intros answer Hanswer.
    apply (handle_text_no_session chat_id answer user state); try done.
    + by rewrite Hdb.
    + by rewrite Hdb.
Qed.

Lemma commit_erases_session_witness :
  ∃ w3,
    handle_text 1 "три" delete_world = Done w3
    ∧ state_storage w3 !! 1 = None
    ∧ handle_text 1 "one" w3 = Done (send_message 1 NoCurrentWord w3).
Proof.
  destruct (commit_erases_session 1 "три" (User.mk 1 1) numbers_state
              delete_world "числа")
    as (w1 & words & w3 & _ & _ & _ & _ & Hdone & Hnone & _ & _ & _ & _ & Hnext).
  - split; [reflexivity|]. right. reflexivity.
  - reflexivity.
  - reflexivity.
  - reflexivity.
  - exists w3. split; [exact Hdone|]. split; [exact Hnone|].
    apply Hnext. reflexivity.
Defined.

(** C10 fails as stated: when the committed delete removes the last word of
    the category, no new card is rendered and no target word is stored; the
    handler sends the no-words-available message and then deletes the
    session record. *)
Lemma delete_last_word_no_card :
  commit_pending (temp_of 1 last_word_world) "числа"
  ∧ ∃ w3,
      handle_text 1 "один" last_word_world = Done w3
      ∧ user_words (db w3) = []
      ∧ sent w3 = [(1, WordDeleted "один"); (1, NoWordsAvailable)]
      ∧ state_storage w3 !! 1 = None
      ∧ create_card 1 (Some "числа") [] numbers_state
          (send_message 1 (WordDeleted "один")
             (with_user_words [] last_word_world))
        = Done (send_message 1 NoWordsAvailable
                  (send_message 1 (WordDeleted "один")
                     (with_user_words [] last_word_world))).
Proof.
  split; [split; [reflexivity|right; reflexivity]|].
  eexists. split; [by vm_compute|]. done.
Qed.

(** * Further properties of the handlers *)

(** ** Sessions are kept apart *)

Lemma elsewhere_refl chat_id w : elsewhere chat_id w w.
Proof. by intros other _. Qed.

Lemma elsewhere_same chat_id w w' :
  state_storage w' = state_storage w → elsewhere chat_id w w'.
Proof. intros Heq other _. by rewrite Heq. Qed.

Lemma elsewhere_trans chat_id w1 w2 w3 :
  elsewhere chat_id w1 w2 → elsewhere chat_id w2 w3 → elsewhere chat_id w1 w3.
Proof. intros H12 H23 other Hne. by rewrite H23, H12. Qed.

Lemma elsewhere_set chat_id temp_state w w' :
  state_storage w' = State.set chat_id temp_state (state_storage w) →
  elsewhere chat_id w w'.
Proof.
  intros Heq other Hne. rewrite Heq. unfold State.set.
  by rewrite lookup_insert_ne.
Qed.

Lemma elsewhere_clear chat_id w : elsewhere chat_id w (clear_session chat_id w).
Proof.
  intros other Hne. unfold clear_session, State.clear. simpl.
  by rewrite lookup_delete_ne.
Qed.

Lemma create_card_elsewhere chat_id category words state w :
  elsewhere chat_id w (world_of (create_card chat_id category words state w)).
Proof.
  destruct (decide (words = [])) as [->|Hne]; [by apply elsewhere_same|].
  destruct (create_card_render chat_id category words state w Hne)
    as (word & shuffled & options & tape & _ & _ & _ & _ & ->).
  unfold rendered. destruct category; by eapply elsewhere_set.
Qed.

Lemma card_then_clear_elsewhere chat_id category state w :
  elsewhere chat_id w (world_of (card_then_clear chat_id category state w)).
Proof.
  unfold card_then_clear.
  destruct (get_all_words _ _ _) as [words|]; [|apply elsewhere_refl].
  pose proof (create_card_elsewhere chat_id (Some category) words state w) as Hc.
  destruct (create_card _ _ _ _ _) as [w'|w']; simpl in *; [|done].
  eapply elsewhere_trans; [exact Hc|apply elsewhere_clear].
Qed.

Lemma process_word_actions_elsewhere chat_id text user state w :
  elsewhere chat_id w
    (world_of (process_word_actions chat_id text user state (temp_of chat_id w) w)).
Proof.
  assert (elsewhere chat_id w
            (update_in_place chat_id (Temp.pop_russian (temp_of chat_id w)) w))
    as Hpop by (by eapply elsewhere_set).
  unfold process_word_actions.
  destruct (Temp.action (temp_of chat_id w)) as [[| |]|].
  - by eapply elsewhere_set.
  - destruct (Temp.russian _) as [russian|]; [|done].
    destruct (Temp.category _) as [category|]; [|done].
    destruct (Temp.level _) as [level|]; [|done].
    destruct (_ || _); [done|].
    destruct (first _ _);
      (eapply elsewhere_trans; [|apply card_then_clear_elsewhere]); done.
  - destruct (Temp.category _) as [category|]; [|apply elsewhere_refl].
    eapply elsewhere_trans; [|apply card_then_clear_elsewhere].
    destruct (list_find _ _) as [[i row]|]; by apply elsewhere_same.
  - destruct (Temp.target_word _) as [target_word|]; [|by apply elsewhere_same].
    destruct (falsy_str target_word); [by apply elsewhere_same|].
    destruct (decide _).
    + destruct (get_all_words _ _ _) as [words|]; [|by apply elsewhere_same].
      eapply elsewhere_trans; [|apply create_card_elsewhere].
      by apply elsewhere_same.
    + by eapply elsewhere_set.
Qed.

(** The guards again, for goals that [done] does not close. *)
Ltac guards_with tac :=
  repeat match goal with
    | |- context [user_of ?c ?d] => destruct (user_of c d) as [?user|]; [|tac]
    | |- context [state_of ?u ?d] => destruct (state_of u d) as [?state|]; [|tac]
    | |- context [UserState.category ?s] =>
        destruct (UserState.category s) as [?category|]; [|tac]
    | |- context [decide (?c = "")] => destruct (decide (c = "")); [tac|]
    end.

Lemma run_event_elsewhere e w chat_id :
  event_chat e = Some chat_id → elsewhere chat_id w (run_event w e).
Proof.
  destruct e as [c category words state|c|c|c|c text|d]; intros [= <-]; simpl.
  - apply create_card_elsewhere.
  - unfold next_card. guards_with ltac:(apply elsewhere_refl).
    destruct (get_all_words _ _ _); [|apply elsewhere_refl].
    apply create_card_elsewhere.
  - unfold add_word. guards_with ltac:(apply elsewhere_refl).
    simpl. by eapply elsewhere_set.
  - unfold delete_word. guards_with ltac:(apply elsewhere_refl).
    simpl. by eapply elsewhere_set.
  - unfold handle_text.
    destruct (user_of _ _) as [user|]; [|apply elsewhere_refl].
    destruct (state_of _ _) as [state|]; [|apply elsewhere_refl].
    destruct (process_menu_navigation text); [by apply elsewhere_same|].
    apply process_word_actions_elsewhere.
Qed.

(** X1: an event of one chat never changes the session of another chat:
    after any run of events none of which belongs to a chat, the session
    record of that chat is what it was. *)
Theorem sessions_kept_apart events w other :
  Forall (λ e, event_chat e ≠ Some other) events →
  state_storage (run events w) !! other = state_storage w !! other.
Proof.
  revert w. induction events as [|e events IH]; intros w Hall; [done|].
  apply Forall_cons in Hall as [He Hall]. simpl. rewrite (IH _ Hall).
  destruct (event_chat e) as [chat_id|] eqn:Hchat.
  - apply (run_event_elsewhere e w chat_id Hchat). congruence.
  - by destruct e.
Qed.

Lemma sessions_kept_apart_witness :
  state_storage
    (run [add_event 1; text_event 1 "стол"; next_event 1] (numbers_world [])) !! 2
  = None.
Proof.
  rewrite (sessions_kept_apart _ (numbers_world []) 2).
  - reflexivity.
  - repeat constructor; discriminate.
Defined.

(** ** Who writes the tables *)

Lemma process_word_actions_tables chat_id text user state w :
  let w' :=
    world_of (process_word_actions chat_id text user state (temp_of chat_id w) w) in
  users (db w') = users (db w)
  ∧ user_states (db w') = user_states (db w)
  ∧ (user_words (db w') = user_words (db w)
     ∨ commits chat_id w
       ∧ ((∃ row, user_words (db w') = user_words (db w) ++ [row])
          ∨ (∃ i, (i < length (user_words (db w)))%nat
                  ∧ user_words (db w') = delete i (user_words (db w))))).
Proof.
  unfold process_word_actions, commits.
  destruct (Temp.action (temp_of chat_id w)) as [[| |]|]; simpl.
  - by repeat split; [..|left].
  - destruct (Temp.russian _) as [russian|]; [|by repeat split; [..|left]].
    destruct (Temp.category _) as [category|]; [|by repeat split; [..|left]].
    destruct (Temp.level _) as [level|]; [|by repeat split; [..|left]].
    destruct (_ || _); [by repeat split; [..|left]|].
    destruct (first _ _); rewrite card_then_clear_db; simpl.
    + by repeat split; [..|left].
    + repeat split. right. split; [by left|]. left. by eexists.
  - destruct (Temp.category _) as [category|]; [|by repeat split; [..|left]].
    rewrite card_then_clear_db.
    destruct (list_find _ _) as [[i row]|] eqn:Hfind; simpl.
    + repeat split. right. split; [by right|]. right. exists i. split; [|done].
      apply list_find_Some in Hfind as [Hi _]. by eapply lookup_lt_Some.
    + by repeat split; [..|left].
  - destruct (Temp.target_word _) as [target_word|]; [|by repeat split; [..|left]].
    destruct (falsy_str target_word); [by repeat split; [..|left]|].
    destruct (decide _); [|by repeat split; [..|left]].
    destruct (get_all_words _ _ _) as [words|]; [|by repeat split; [..|left]].
    rewrite create_card_db. by repeat split; [..|left].
Qed.

(** X2: the handlers of the quiz never write the tables of the users and of
    their states, and they leave the table of the words alone too, but for
    one case: a text that arrives while an add or a delete is pending, which
    appends one row or removes one row, or changes nothing. *)
Theorem tables_written_by_commits_only e w :
  match e with
  | tables_event d => db (run_event w e) = d
  | text_event chat_id text =>
      users (db (run_event w e)) = users (db w)
      ∧ user_states (db (run_event w e)) = user_states (db w)
      ∧ (user_words (db (run_event w e)) = user_words (db w)
         ∨ commits chat_id w
           ∧ ((∃ row, user_words (db (run_event w e)) = user_words (db w) ++ [row])
              ∨ (∃ i, (i < length (user_words (db w)))%nat
                      ∧ user_words (db (run_event w e))
                        = delete i (user_words (db w)))))
  | _ => db (run_event w e) = db w
  end.
Proof.
  destruct e as [c category words state|c|c|c|c text|d]; simpl.
  - apply create_card_db.
  - unfold next_card. guards.
    destruct (get_all_words _ _ _); [|done]. apply create_card_db.
  - unfold add_word. by guards.
  - unfold delete_word. by guards.
  - unfold handle_text.
    destruct (user_of _ _) as [user|]; [|by repeat split; [..|left]].
    destruct (state_of _ _) as [state|]; [|by repeat split; [..|left]].
    destruct (process_menu_navigation text); [by repeat split; [..|left]|].
    apply process_word_actions_tables.
  - done.
Qed.

(** ** Invariants of the sessions *)

Section session_invariant.
Context (P : Temp.t → Prop).
Hypothesis P_empty : P Temp.empty.
Hypothesis P_card : ∀ d word, P d → P (note_card word d).
Hypothesis P_staged : ∀ d a category level,
  P d → P (Temp.set_staged a (lower category) level d).
Hypothesis P_russian : ∀ d text a, P d → P (Temp.set_russian (lower text) a d).
Hypothesis P_pop : ∀ d, P d → P (Temp.pop_russian d).
Hypothesis P_mistake : ∀ d target_word,
  P d → Temp.target_word d = Some target_word → P (note_mistake target_word d).

Lemma all_sessions_same w w' :
  state_storage w' = state_storage w → all_sessions P w → all_sessions P w'.
Proof.
  intros Heq Hall chat_id. specialize (Hall chat_id).
  unfold temp_of in *. by rewrite Heq.
Qed.

Lemma all_sessions_set chat_id d w w' :
  state_storage w' = State.set chat_id d (state_storage w) →
  P d → all_sessions P w → all_sessions P w'.
Proof.
  intros Heq Hd Hall c. specialize (Hall c).
  unfold temp_of, State.get, State.set in *. rewrite Heq.
  destruct (decide (chat_id = c)) as [->|Hne].
  - by rewrite lookup_insert_eq.
  - by rewrite lookup_insert_ne.
Qed.

Lemma all_sessions_clear chat_id w :
  all_sessions P w → all_sessions P (clear_session chat_id w).
Proof.
  intros Hall c. specialize (Hall c).
  unfold temp_of, State.get, clear_session, State.clear in *. simpl.
  destruct (decide (chat_id = c)) as [->|Hne].
  - by rewrite lookup_delete_eq.
  - by rewrite lookup_delete_ne.
Qed.

Lemma all_sessions_create_card chat_id category words state w :
  all_sessions P w →
  all_sessions P (world_of (create_card chat_id category words state w)).
Proof.
  intros Hall. destruct (decide (words = [])) as [->|Hne].
  - by apply (all_sessions_same w).
  - destruct (create_card_render chat_id category words state w Hne)
      as (word & shuffled & options & tape & _ & _ & _ & _ & ->).
    unfold rendered.
    destruct category;
      (eapply all_sessions_set; [reflexivity| |exact Hall]);
      apply (P_card _ word), Hall.
Qed.

Lemma all_sessions_card_then_clear chat_id category state w :
  all_sessions P w →
  all_sessions P (world_of (card_then_clear chat_id category state w)).
Proof.
  intros Hall. unfold card_then_clear.
  destruct (get_all_words _ _ _) as [words|]; [|done].
  pose proof (all_sessions_create_card chat_id (Some category) words state w Hall)
    as Hc.
  destruct (create_card _ _ _ _ _) as [w'|w']; simpl in *; [|done].
  by apply all_sessions_clear.
Qed.

Lemma all_sessions_process_word_actions chat_id text user state w :
  all_sessions P w →
  all_sessions P
    (world_of (process_word_actions chat_id text user state (temp_of chat_id w) w)).
Proof.
  intros Hall.
  assert (all_sessions P
            (update_in_place chat_id (Temp.pop_russian (temp_of chat_id w)) w))
    as Hpop.
  { eapply all_sessions_set; [reflexivity|apply P_pop, Hall|exact Hall]. }
  unfold process_word_actions.
  destruct (Temp.action (temp_of chat_id w)) as [[| |]|].
  - eapply all_sessions_set; [reflexivity|apply P_russian, Hall|exact Hall].
  - destruct (Temp.russian _) as [russian|];
      [|by eapply all_sessions_same; [|exact Hpop]].
    destruct (Temp.category _) as [category|];
      [|by eapply all_sessions_same; [|exact Hpop]].
    destruct (Temp.level _) as [level|];
      [|by eapply all_sessions_same; [|exact Hpop]].
    destruct (_ || _); [by eapply all_sessions_same; [|exact Hpop]|].
    destruct (first _ _); apply all_sessions_card_then_clear;
      by eapply all_sessions_same; [|exact Hpop].
  - destruct (Temp.category _) as [category|]; [|done].
    apply all_sessions_card_then_clear.
    destruct (list_find _ _) as [[i row]|]; by apply (all_sessions_same w).
  - destruct (Temp.target_word _) as [target_word|] eqn:Htarget;
      [|by apply (all_sessions_same w)].
    destruct (falsy_str target_word); [by apply (all_sessions_same w)|].
    destruct (decide _).
    + destruct (get_all_words _ _ _) as [words|];
        [|by apply (all_sessions_same w)].
      apply all_sessions_create_card. by apply (all_sessions_same w).
    + eapply all_sessions_set; [reflexivity| |exact Hall].
      by apply (P_mistake (temp_of chat_id w) target_word (Hall chat_id)).
Qed.

Lemma all_sessions_run_event e w :
  all_sessions P w → all_sessions P (run_event w e).
Proof.
  intros Hall. destruct e as [c category words state|c|c|c|c text|d]; simpl.
  - by apply all_sessions_create_card.
  - unfold next_card. guards.
    destruct (get_all_words _ _ _); [|done].
    by apply all_sessions_create_card.
  - unfold add_word. guards. simpl.
    eapply all_sessions_set; [reflexivity|apply P_staged, Hall|exact Hall].
  - unfold delete_word. guards. simpl.
    eapply all_sessions_set; [reflexivity|apply P_staged, Hall|exact Hall].
  - unfold handle_text.
    destruct (user_of _ _) as [user|]; [|done].
    destruct (state_of _ _) as [state|]; [|done].
    destruct (process_menu_navigation text); [by apply (all_sessions_same w)|].
    by apply all_sessions_process_word_actions.
  - by apply (all_sessions_same w).
Qed.

Lemma all_sessions_run events w :
  all_sessions P w → all_sessions P (run events w).
Proof.
  revert w. induction events as [|e events IH]; intros w Hall; [done|].
  simpl. by apply IH, all_sessions_run_event.
Qed.

Lemma all_sessions_new d tape : all_sessions P (mkWorld d ∅ tape []).
Proof.
  intros chat_id. unfold temp_of, State.get. simpl. by rewrite lookup_empty.
Qed.
End session_invariant.

Lemma push_recent_Forall (Q : string → Prop) recent_words target :
  Forall Q recent_words → Q target → Forall Q (push_recent recent_words target).
Proof.
  intros Hall Ht. unfold push_recent.
  assert (Forall Q (recent_words ++ [target])) as Happ.
  { apply Forall_app. split; [done|]. by constructor. }
  destruct (decide _); [by apply Forall_drop|done].
Qed.

(** X3: a session never lists a missed word twice: from worlds where no
    session does (a world without sessions is one), every run of events
    leads to such a world. *)
Theorem mistakes_listed_once events w :
  mistakes_once w →
  mistakes_once (run events w)
  ∧ ∀ d tape, mistakes_once (run events (mkWorld d ∅ tape [])).
Proof.
  assert (∀ w0, mistakes_once w0 → mistakes_once (run events w0)) as Hrun.
  { intros w0 Hw0.
    apply (all_sessions_run (λ d, NoDup (default [] (Temp.wrong_answers d))));
      try done; [constructor|].
    intros d target_word Hd _. unfold note_mistake. simpl.
    destruct (decide _) as [Hin|Hout]; [done|].
    apply NoDup_app. split; [done|]. split; [|apply NoDup_singleton].
    intros x Hx Hx'. apply list_elem_of_singleton in Hx' as ->. done. }
  intros Hw. split; [by apply Hrun|].
  intros d tape. apply Hrun.
  apply (all_sessions_new (λ d, NoDup (default [] (Temp.wrong_answers d)))).
  constructor.
Qed.

Lemma mistakes_listed_once_witness :
  NoDup (wrong_before 1
           (run [text_event 1 "two"; text_event 1 "three"; text_event 1 "two"]
                level_changed_world)).
Proof.
  apply (mistakes_listed_once _ level_changed_world).
  intros chat_id. unfold wrong_before, temp_of, State.get. simpl.
  destruct (decide (chat_id = 1)) as [->|Hne].
  - vm_compute. constructor.
  - rewrite lookup_singleton_ne by done. constructor.
Defined.

(** X4: every string a session holds is in lowercase (recent words, wrong
    answers, target word, its translation, the staged category and the
    staged Russian word): from worlds where this is so (a world without
    sessions is one), every run of events leads to such a world. *)
Theorem sessions_hold_lowercase events w :
  normalized w →
  normalized (run events w)
  ∧ ∀ d tape, normalized (run events (mkWorld d ∅ tape [])).
Proof.
  assert (∀ w0, normalized w0 → normalized (run events w0)) as Hrun.
  { intros w0 Hw0. apply (all_sessions_run normalized_session); try done.
    - intros d word (Hr & Hw & Ht & Htr & Hc & Hru).
      unfold note_card. split_and!; simpl; try done.
      + apply push_recent_Forall; [done|apply lower_idempotent].
      + intros s [= <-]. apply lower_idempotent.
      + intros s [= <-]. apply lower_idempotent.
    - intros d a category level (Hr & Hw & Ht & Htr & Hc & Hru).
      split_and!; simpl; try done. intros s [= <-]. apply lower_idempotent.
    - intros d text a (Hr & Hw & Ht & Htr & Hc & Hru).
      split_and!; simpl; try done. intros s [= <-]. apply lower_idempotent.
    - intros d (Hr & Hw & Ht & Htr & Hc & Hru).
      split_and!; simpl; done.
    - intros d target_word (Hr & Hw & Ht & Htr & Hc & Hru) Htarget.
      unfold note_mistake. split_and!; simpl; try done.
      destruct (decide _); [done|].
      apply Forall_app. split; [done|]. constructor; [by apply Ht|constructor]. }
  intros Hw. split; [by apply Hrun|].
  intros d tape. apply Hrun, (all_sessions_new normalized_session).
  by split_and!; simpl; try constructor.
Qed.

Lemma sessions_hold_lowercase_witness :
  lowercase_opt
    (Temp.category (temp_of 1 (run [add_event 1; text_event 1 "Table"]
                                   (mkWorld numbers_db ∅ [] [])))).
Proof.
  destruct (sessions_hold_lowercase [add_event 1; text_event 1 "Table"]
              (mkWorld numbers_db ∅ [] [])) as [H _].
  - intros chat_id. unfold temp_of, State.get. simpl. rewrite lookup_empty.
    by split_and!; simpl; try constructor.
  - destruct (H 1) as (_ & _ & _ & _ & Hc & _). exact Hc.
Defined.

(** ** A card does not repeat the last three words *)

Lemma size_list_to_set_le (l : list string) :
  (size (list_to_set l : gset string) ≤ length l)%nat.
Proof.
  induction l as [|x l IH].
  - change (size (∅ : gset string) ≤ 0)%nat. by rewrite size_empty.
  - rewrite list_to_set_cons, size_union_alt, size_singleton. simpl.
    assert (size (list_to_set l ∖ {[x]} : gset string)
            ≤ size (list_to_set l : gset string))%nat; [|lia].
    apply subseteq_size. set_solver.
Qed.

(** More distinct lowercase words than recent words: one candidate is fresh. *)
Lemma fresh_candidate words (recent_words : list string) :
  (length recent_words < size (distinct_lower_words words))%nat →
  ∃ y, y ∈ words ∧ ¬ in_recent recent_words y.
Proof.
  intros Hsize. unfold in_recent.
  destruct (decide (Forall (λ y, lower (UserWord.word y) ∈ recent_words) words))
    as [Hall|Hnot].
  - exfalso.
    assert (distinct_lower_words words ⊆ list_to_set recent_words) as Hsub.
    { intros s Hs. unfold distinct_lower_words in Hs.
      apply elem_of_list_to_set, list_elem_of_fmap in Hs as (o & -> & Ho).
      apply list_elem_of_fmap in Ho as (x & -> & Hx).
      apply elem_of_list_to_set.
      by apply (proj1 (Forall_forall _ _) Hall x). }
    apply subseteq_size in Hsub.
    pose proof (size_list_to_set_le recent_words). lia.
  - apply not_Forall_Exists in Hnot; [|apply _].
    apply Exists_exists in Hnot as (y & Hy & Hfresh). by exists y.
Qed.

(** X5: when the candidates have at least four distinct lowercase words and
    the session holds at most three recent words (which every reachable
    session does), the word [create_card] selects is none of the recent
    words: a card never repeats one of the last three words shown. *)
Theorem card_skips_recent_words chat_id category words state w :
  (length (recent_before chat_id w) ≤ 3)%nat →
  (4 ≤ size (distinct_lower_words words))%nat →
  ∃ target,
    target_of chat_id (world_of (create_card chat_id category words state w))
      = Some target
    ∧ (target ∉ recent_before chat_id w)
    ∧ target ∈ distinct_lower_words words.
Proof.
  intros Hlen Hsize.
  assert (words ≠ []) as Hne.
  { intros ->. unfold distinct_lower_words in Hsize.
    change (4 ≤ size (∅ : gset string))%nat in Hsize.
    rewrite size_empty in Hsize. lia. }
  destruct (fresh_candidate words (recent_before chat_id w)) as [y Hy]; [lia|].
  destruct (create_card_render chat_id category words state w Hne)
    as (word & shuffled & options & tape & _ & Hav & _ & _ & ->).
  destruct (available_words_fresh words (recent_before chat_id w) word)
    as [Hin Hfresh]; [by exists y|done|].
  exists (lower (UserWord.word word)). rewrite target_of_rendered.
  split; [done|]. split; [done|].
  unfold distinct_lower_words. apply elem_of_list_to_set, list_elem_of_fmap.
  exists (UserWord.word word). split; [done|]. apply list_elem_of_fmap. eauto.
Qed.

Lemma card_skips_recent_words_witness :
  ∃ target,
    target_of 1 (world_of (create_card 1 (Some "размеры") sizes sizes_state
                                       (sizes_world [5%nat])))
      = Some target
    ∧ target ∉ ["thin"; "fat"; "long"].
Proof.
  destruct (card_skips_recent_words 1 (Some "размеры") sizes sizes_state
              (sizes_world [5%nat])) as (target & Ht & Hfresh & _).
  - vm_compute. lia.
  - vm_compute. lia.
  - exists target. split; [exact Ht|exact Hfresh].
Defined.

(** ** The card belongs to the selection *)

Lemma translate_of_rendered chat_id category state w word options tape :
  Temp.translate_word
    (temp_of chat_id (world_of (rendered chat_id category state w word options tape)))
  = Some (lower (UserWord.translation word)).
Proof.
  unfold rendered, temp_of, State.get, State.set.
  destruct category; simpl; by rewrite lookup_insert_eq.
Qed.

(** The prompt and the expected answer of a card come from one row. *)
Lemma create_card_pair chat_id category words state w :
  words ≠ [] →
  ∃ x options w',
    x ∈ words
    ∧ create_card chat_id (Some category) words state w = Done w'
    ∧ sent w' = sent w ++ [(chat_id, Card (UserState.level state) category
                                          (UserWord.translation x) options)]
    ∧ target_of chat_id w' = Some (lower (UserWord.word x))
    ∧ Temp.translate_word (temp_of chat_id w')
      = Some (lower (UserWord.translation x))
    ∧ lower (UserWord.word x) ∈ options
    ∧ db w' = db w.
Proof.
  intros Hne.
  destruct (create_card_render chat_id (Some category) words state w Hne)
    as (word & shuffled & options & tape & _ & Hav & Hsh & Hopt & Hcard).
  apply available_words_subseteq in Hav.
  destruct (draw_options_card words word shuffled Hav Hsh) as [Hin _].
  exists word, options, (world_of (rendered chat_id (Some category) state w word
                                            options tape)).
  split_and!; try done.
  - exact (target_of_rendered chat_id (Some category) state w word options tape).
  - exact (translate_of_rendered chat_id (Some category) state w word options tape).
  - rewrite Hopt. by apply elem_of_elements.
Qed.

Lemma get_all_words_elem chat_id category d user words x :
  user_of chat_id d = Some user →
  get_all_words chat_id category d = Some words →
  x ∈ words ↔
    x ∈ user_words d
    ∧ UserWord.user_id x = User.id user
    ∧ Some (UserWord.category x) = category
    ∧ Some (UserWord.level x)
      = match state_of user d with
        | Some state => UserState.level state
        | None => Some 1
        end.
Proof.
  intros Huser. unfold get_all_words. rewrite Huser. intros [= <-].
  rewrite list_elem_of_filter. naive_solver.
Qed.

(** X6: [next_card] raises for an unknown chat and does nothing without a
    state row or a category.  With a category selected it answers
    no-words-available when the user owns no row of that category at the
    selected level; otherwise it sends a card whose prompt and whose
    expected answer come from one such row: the prompt is the translation of
    the row, the target its lowercase word, and that word is among the
    buttons. *)
Theorem next_card_scope chat_id w :
  (user_of chat_id (db w) = None → next_card chat_id w = Raised w)
  ∧ (∀ user,
       user_of chat_id (db w) = Some user →
       selected_category chat_id (db w) = None →
       next_card chat_id w = Done w)
  ∧ (∀ user state category,
       user_of chat_id (db w) = Some user →
       state_of user (db w) = Some state →
       selected_category chat_id (db w) = Some category →
       let mine (x : UserWord.t) :=
         x ∈ user_words (db w)
         ∧ UserWord.user_id x = User.id user
         ∧ UserWord.category x = category
         ∧ Some (UserWord.level x) = UserState.level state in
       ((∀ x, ¬ mine x) →
          next_card chat_id w = Done (send_message chat_id NoWordsAvailable w))
       ∧ ((∃ x, mine x) →
          ∃ x options w',
            mine x
            ∧ next_card chat_id w = Done w'
            ∧ sent w' = sent w ++ [(chat_id, Card (UserState.level state) category
                                                  (UserWord.translation x) options)]
            ∧ target_of chat_id w' = Some (lower (UserWord.word x))
            ∧ lower (UserWord.word x) ∈ options)).
Proof.
  unfold selected_category, next_card. split_and!.
  - by intros ->.
  - intros user ->. simpl.
    destruct (state_of user (db w)) as [state|]; simpl; [|done].
    destruct (UserState.category state) as [category|]; simpl; [|done].
    by destruct (decide (category = "")).
  - intros user state category Huser Hstate. rewrite Huser. simpl.
    rewrite Hstate. simpl.
    destruct (UserState.category state) as [c|]; simpl; [|done].
    destruct (decide (c = "")); [done|]. intros [= ->].
    set (mine := λ x : UserWord.t,
           x ∈ user_words (db w)
           ∧ UserWord.user_id x = User.id user
           ∧ UserWord.category x = category
           ∧ Some (UserWord.level x) = UserState.level state).
    destruct (get_all_words chat_id (Some category) (db w)) as [words|] eqn:Hwords;
      [|by unfold get_all_words in Hwords; rewrite Huser in Hwords].
    assert (∀ x, x ∈ words ↔ mine x) as Hmine.
    { intros x. rewrite (get_all_words_elem _ _ _ user words x Huser Hwords).
      rewrite Hstate. unfold mine. naive_solver. }
    split.
    + intros Hnone. destruct words as [|x words']; [done|].
      destruct (Hnone x). apply Hmine, list_elem_of_here.
    + intros [y Hy]. apply Hmine in Hy.
      assert (words ≠ []) as Hne by (intros ->; by apply elem_of_nil in Hy).
      destruct (create_card_pair chat_id category words state w Hne)
        as (x & options & w' & Hx & Hcard & Hsent & Ht & _ & Hin & _).
      exists x, options, w'. apply Hmine in Hx.
      destruct Hx as (? & ? & ? & ?). split_and!; done.
Qed.

Lemma next_card_scope_witness :
  ∃ x options w',
    x ∈ numbers
    ∧ next_card 1 (numbers_world [1%nat]) = Done w'
    ∧ sent w' = [(1, Card (Some 1) "числа" (UserWord.translation x) options)]
    ∧ target_of 1 w' = Some (lower (UserWord.word x)).
Proof.
  destruct (next_card_scope 1 (numbers_world [1%nat])) as (_ & _ & Hcard).
  destruct (Hcard (User.mk 1 1) numbers_state "числа") as [_ Hsome];
    try reflexivity.
  destruct Hsome as (x & options & w' & Hx & Hnext & Hsent & Ht & _).
  - exists (UserWord.mk 1 "one" "один" "числа" 1 false).
    split; [apply list_elem_of_here|]. repeat split.
  - exists x, options, w'. destruct Hx as [Hx _]. split_and!; assumption.
Defined.

(** ** The add and the delete dialogue, from the button to the commit *)

Lemma lower_nonempty (s : string) : s ≠ "" → lower s ≠ "".
Proof. by destruct s. Qed.

Lemma stage_add chat_id user state category w :
  user_of chat_id (db w) = Some user →
  state_of user (db w) = Some state →
  UserState.category state = Some category → category ≠ "" →
  add_word chat_id w
  = Done (staged add_word_action EnterRussian chat_id category
                 (UserState.level state) w).
Proof.
  intros Huser Hstate Hcategory Hne. unfold add_word.
  rewrite Huser, Hstate, Hcategory. by rewrite decide_False.
Qed.

Lemma stage_delete chat_id user state category w :
  user_of chat_id (db w) = Some user →
  state_of user (db w) = Some state →
  UserState.category state = Some category → category ≠ "" →
  delete_word chat_id w
  = Done (staged delete_word_action EnterRussianToDelete chat_id category
                 (UserState.level state) w).
Proof.
  intros Huser Hstate Hcategory Hne. unfold delete_word.
  rewrite Huser, Hstate, Hcategory. by rewrite decide_False.
Qed.

Lemma temp_of_staged a prompt chat_id category level w :
  temp_of chat_id (staged a prompt chat_id category level w)
  = Temp.set_staged a (lower category) level (temp_of chat_id w).
Proof.
  unfold staged, temp_of, State.get, State.set. simpl.
  by rewrite lookup_insert_eq.
Qed.

Lemma handle_text_process chat_id text user state w :
  user_of chat_id (db w) = Some user →
  state_of user (db w) = Some state →
  process_menu_navigation text = None →
  handle_text chat_id text w
  = process_word_actions chat_id text user state (temp_of chat_id w) w.
Proof. intros Huser Hstate Hnav. unfold handle_text. by rewrite Huser, Hstate, Hnav. Qed.

(** A commit returns, leaves users and states alone and erases the session. *)
Lemma commit_done chat_id text user state w category :
  commit_pending (temp_of chat_id w) category →
  user_of chat_id (db w) = Some user →
  ∃ w',
    process_word_actions chat_id text user state (temp_of chat_id w) w = Done w'
    ∧ state_storage w' !! chat_id = None
    ∧ users (db w') = users (db w)
    ∧ user_states (db w') = user_states (db w).
Proof.
  intros Hpending Huser.
  destruct (commit_cases chat_id text user state w category Hpending)
    as (w1 & Hcommit & Husers & Hstates).
  assert (user_of chat_id (db w1) = Some user) as Huser1.
  { unfold user_of in *. by rewrite Husers. }
  destruct (card_then_clear_spec chat_id category user state w1 Huser1)
    as (words & _ & _ & _ & w3 & Hdone & Hnone & Hdb).
  exists w3. rewrite Hcommit, Hdb. done.
Qed.

Lemma delete_at_end {A} (l : list A) (x : A) : delete (length l) (l ++ [x]) = l.
Proof. induction l as [|y l IH]; simpl; [done|]. by rewrite IH. Qed.

Lemma delete_in_front {A} (l k : list A) (i : nat) :
  (i < length l)%nat → delete i (l ++ k) = delete i l ++ k.
Proof.
  revert i. induction l as [|y l IH]; intros [|i] Hi; simpl in *; try lia; [done|].
  rewrite IH by lia. done.
Qed.

(** The table after the text that commits a delete. *)
Lemma delete_commit_rows chat_id text user state w category :
  Temp.action (temp_of chat_id w) = Some delete_word_action →
  Temp.category (temp_of chat_id w) = Some category →
  user_words
    (db (world_of (process_word_actions chat_id text user state
                                        (temp_of chat_id w) w)))
  = match list_find (delete_filter user (lower text) category
                                   (Temp.level (temp_of chat_id w)))
                    (user_words (db w)) with
    | Some (i, _) => delete i (user_words (db w))
    | None => user_words (db w)
    end.
Proof.
  intros Haction Hcategory. unfold process_word_actions.
  rewrite Haction, Hcategory. rewrite card_then_clear_db.
  by destruct (list_find _ _) as [[i row]|].
Qed.

(** The delete dialogue as a whole: it returns with the session erased, and
    the table of the words is the one [delete_commit_rows] gives for the
    staged category and level. *)
Lemma delete_dialogue_spec chat_id user state category russian w :
  user_of chat_id (db w) = Some user →
  state_of user (db w) = Some state →
  UserState.category state = Some category → category ≠ "" →
  process_menu_navigation russian = None →
  ∃ w',
    delete_dialogue chat_id russian w = Done w'
    ∧ state_storage w' !! chat_id = None
    ∧ users (db w') = users (db w)
    ∧ user_states (db w') = user_states (db w)
    ∧ user_words (db w')
      = match list_find (delete_filter user (lower russian) (lower category)
                                       (UserState.level state))
                        (user_words (db w)) with
        | Some (i, _) => delete i (user_words (db w))
        | None => user_words (db w)
        end.
Proof.
  intros Huser Hstate Hcategory Hc Hnav. unfold delete_dialogue.
  rewrite (stage_delete chat_id user state category w Huser Hstate Hcategory Hc).
  simpl. set (w1 := staged _ _ _ _ _ w).
  rewrite (handle_text_process chat_id russian user state w1) by done.
  assert (temp_of chat_id w1
          = Temp.set_staged delete_word_action (lower category)
                            (UserState.level state) (temp_of chat_id w)) as Htemp
    by (unfold w1; by rewrite temp_of_staged).
  assert (commit_pending (temp_of chat_id w1) (lower category)) as Hpending.
  { rewrite Htemp. split; [done|]. by right. }
  destruct (commit_done chat_id russian user state w1 (lower category)
              Hpending Huser) as (w' & Hdone & Hnone & Husers & Hstates).
  exists w'. split_and!; try done.
  pose proof (delete_commit_rows chat_id russian user state w1 (lower category))
    as Hrows.
  rewrite Hdone, Htemp in Hrows. simpl in Hrows. by apply Hrows.
Qed.

(** The add dialogue as a whole, from the button to the commit. *)
Lemma add_dialogue_spec chat_id user state category level russian english w :
  ready chat_id user state category level w →
  russian ≠ "" →
  process_menu_navigation russian = None →
  process_menu_navigation english = None →
  ∃ w',
    add_dialogue chat_id russian english w = Done w'
    ∧ state_storage w' !! chat_id = None
    ∧ users (db w') = users (db w)
    ∧ user_states (db w') = user_states (db w)
    ∧ ((∃ x, x ∈ user_words (db w)
             ∧ UserWord.user_id x = User.id user
             ∧ UserWord.word x = lower english
             ∧ UserWord.translation x = lower russian
             ∧ UserWord.category x = lower category
             ∧ UserWord.level x = level) →
       user_words (db w') = user_words (db w))
    ∧ ((∀ x, x ∈ user_words (db w) →
             ¬ (UserWord.user_id x = User.id user
                ∧ UserWord.word x = lower english
                ∧ UserWord.translation x = lower russian
                ∧ UserWord.category x = lower category
                ∧ UserWord.level x = level)) →
       user_words (db w')
       = user_words (db w)
         ++ [UserWord.mk (User.id user) (lower english) (lower russian)
                         (lower category) level false]).
Proof.
  intros (Huser & Hstate & Hcategory & Hc & Hlevel & Hl) Hr Hnav1 Hnav2.
  unfold add_dialogue.
  rewrite (stage_add chat_id user state category w Huser Hstate Hcategory Hc).
  simpl. set (w1 := staged _ _ _ _ _ w).
  rewrite (handle_text_process chat_id russian user state w1) by done.
  unfold process_word_actions at 1.
  replace (Temp.action (temp_of chat_id w1)) with (Some add_word_action)
    by (unfold w1; by rewrite temp_of_staged).
  simpl.
  set (w2 := update_in_place chat_id _ _).
  assert (temp_of chat_id w2
          = Temp.set_russian (lower russian) add_translation_action
              (Temp.set_staged add_word_action (lower category)
                               (UserState.level state) (temp_of chat_id w)))
    as Htemp.
  { unfold w2, update_in_place, temp_of at 1, State.get, State.set. simpl.
    rewrite lookup_insert_eq. simpl.
    change (temp_of chat_id (send_message chat_id EnterTranslation w1))
      with (temp_of chat_id w1).
    unfold w1. by rewrite temp_of_staged. }
  rewrite (handle_text_process chat_id english user state w2) by done.
  assert (commit_pending (temp_of chat_id w2) (lower category)) as Hpending.
  { rewrite Htemp. split; [done|]. left. simpl. rewrite Hlevel.
    split_and!; [done|by apply lower_nonempty| |by eexists].
    exists (lower russian). split; [done|]. by apply lower_nonempty. }
  destruct (commit_done chat_id english user state w2 (lower category)
              Hpending Huser) as (w' & Hdone & Hnone & Husers & Hstates).
  exists w'. split; [done|]. split; [done|]. split; [done|]. split; [done|].
  destruct (add_commit chat_id english user state w2 (lower russian)
              (lower category) level) as [Hdup Hnew].
  - by rewrite Htemp.
  - by rewrite Htemp.
  - by apply lower_nonempty.
  - by rewrite Htemp.
  - by apply lower_nonempty.
  - rewrite Htemp. simpl. done.
  - done.
  - rewrite Hdone in Hdup, Hnew. simpl in Hdup, Hnew.
    rewrite !lower_idempotent in Hdup, Hnew.
    split.
    + intros Hex. destruct (Hdup Hex) as [Hdb _]. by rewrite Hdb.
    + intros Hnone'. by destruct (Hnew Hnone') as [Hrows _].
Qed.

(** ** A translation that cannot be committed *)

Lemma add_data_error chat_id text user state w :
  user_of chat_id (db w) = Some user →
  state_of user (db w) = Some state →
  process_menu_navigation text = None →
  Temp.action (temp_of chat_id w) = Some add_translation_action →
  add_data_missing (temp_of chat_id w) →
  handle_text chat_id text w
  = Done (send_message chat_id AddDataError
            (update_in_place chat_id (Temp.pop_russian (temp_of chat_id w)) w)).
Proof.
  intros Huser Hstate Hnav Haction Hmissing.
  rewrite (handle_text_process chat_id text user state w) by done.
  unfold process_word_actions. rewrite Haction.
  destruct (Temp.russian (temp_of chat_id w)) as [russian|] eqn:Hr; [|done].
  destruct (Temp.category (temp_of chat_id w)) as [category|] eqn:Hc; [|done].
  destruct (Temp.level (temp_of chat_id w)) as [level|] eqn:Hl; [|done].
  assert (falsy_str russian || falsy_str category || bool_decide (level = 0) = true)
    as ->; [|done].
  unfold falsy_str.
  destruct Hmissing as [H|[H|H]].
  - by rewrite (H _ Hr).
  - rewrite (H _ Hc). simpl. by rewrite orb_true_r.
  - apply orb_true_iff. right. apply bool_decide_eq_true. by apply H.
Qed.

(** * Further properties: the words table, registration and the menus *)

(** ** Copying the catalogue to a user *)

Lemma first_None_iff {A} (P : A → Prop) `{!∀ x, Decision (P x)} (rows : list A) :
  first P rows = None ↔ ∀ x, x ∈ rows → ¬ P x.
Proof.
  split; [apply first_None|]. intros Hnone. unfold first.
  destruct (list_find P rows) as [[i y]|] eqn:Hfind; [|done].
  apply list_find_Some in Hfind as (Hi & HP & _).
  destruct (Hnone y); [by eapply list_elem_of_lookup_2|done].
Qed.

Lemma filter_none {A} (P : A → Prop) `{!∀ x, Decision (P x)} (l : list A) :
  (∀ x, x ∈ l → ¬ P x) → filter P l = [].
Proof.
  induction l as [|y l IH]; intros Hnone; [done|].
  rewrite filter_cons, decide_False by (apply Hnone, list_elem_of_here).
  apply IH. intros x Hx. apply Hnone. by apply list_elem_of_further.
Qed.

Lemma load_known user_id standard_words d :
  user_id ∈ User.id <$> users d →
  load_standard_words_for_user user_id standard_words d
  = mkDB (users d) (user_states d)
         (user_words d
          ++ (standard_row user_id
                <$> filter (λ word, first (standard_filter user_id word)
                                          (user_words d) = None)
                           standard_words)).
Proof. intros Hin. unfold load_standard_words_for_user. by rewrite decide_True. Qed.

Lemma load_unknown user_id standard_words d :
  user_id ∉ User.id <$> users d →
  load_standard_words_for_user user_id standard_words d = d.
Proof. intros Hout. unfold load_standard_words_for_user. by rewrite decide_False. Qed.

Lemma standard_row_filter user_id word :
  standard_filter user_id word (standard_row user_id word).
Proof. by repeat split. Qed.

(** What the copy leaves alone and what it adds. *)
Lemma load_frame user_id standard_words d :
  users (load_standard_words_for_user user_id standard_words d) = users d
  ∧ user_states (load_standard_words_for_user user_id standard_words d)
    = user_states d
  ∧ ∃ added,
      user_words (load_standard_words_for_user user_id standard_words d)
      = user_words d ++ added
      ∧ ∀ x, x ∈ added →
          ∃ word, word ∈ standard_words
                  ∧ x = standard_row user_id word
                  ∧ ∀ y, y ∈ user_words d → ¬ standard_filter user_id word y.
Proof.
  destruct (decide (user_id ∈ User.id <$> users d)) as [Hin|Hout].
  - rewrite (load_known _ _ _ Hin). simpl. split; [done|]. split; [done|].
    eexists. split; [done|]. intros x Hx.
    apply list_elem_of_fmap in Hx as (word & -> & Hword).
    apply list_elem_of_filter in Hword as [Hnone Hword].
    exists word. split; [done|]. split; [done|]. exact (first_None _ _ Hnone).
  - rewrite (load_unknown _ _ _ Hout). split; [done|]. split; [done|].
    exists []. rewrite app_nil_r. split; [done|]. intros x Hx.
    by apply elem_of_nil in Hx.
Qed.

(** After the copy every catalogue word has its row. *)
Lemma load_covers user_id standard_words d word :
  user_id ∈ User.id <$> users d →
  word ∈ standard_words →
  ∃ x, x ∈ user_words (load_standard_words_for_user user_id standard_words d)
       ∧ standard_filter user_id word x.
Proof.
  intros Hin Hword. rewrite (load_known _ _ _ Hin). simpl.
  destruct (first (standard_filter user_id word) (user_words d)) as [x|] eqn:Hfirst.
  - apply first_Some in Hfirst as [Hx Hfilter].
    exists x. split; [|done]. apply elem_of_app. by left.
  - exists (standard_row user_id word). split; [|apply standard_row_filter].
    apply elem_of_app. right. apply list_elem_of_fmap.
    exists word. split; [done|]. by apply list_elem_of_filter.
Qed.

(** A second copy adds nothing. *)
Lemma load_twice user_id standard_words d :
  load_standard_words_for_user user_id standard_words
    (load_standard_words_for_user user_id standard_words d)
  = load_standard_words_for_user user_id standard_words d.
Proof.
  destruct (decide (user_id ∈ User.id <$> users d)) as [Hin|Hout].
  - set (d' := load_standard_words_for_user user_id standard_words d).
    assert (user_id ∈ User.id <$> users d') as Hin'.
    { unfold d'. by rewrite (load_known _ _ _ Hin). }
    rewrite (load_known _ _ _ Hin').
    rewrite filter_none.
    + simpl. rewrite app_nil_r. by destruct d'.
    + intros word Hword Hnone.
      destruct (load_covers user_id standard_words d word Hin Hword)
        as (x & Hx & Hfilter).
      exact (first_None _ _ Hnone x Hx Hfilter).
  - by rewrite !(load_unknown _ _ _ Hout).
Qed.

Lemma user_of_elem chat_id d user :
  user_of chat_id d = Some user → user ∈ users d ∧ User.chat_id user = chat_id.
Proof. intros Huser. by apply first_Some in Huser. Qed.

Lemma user_of_id chat_id d user :
  user_of chat_id d = Some user → User.id user ∈ User.id <$> users d.
Proof.
  intros Huser. apply list_elem_of_fmap. exists user.
  split; [done|]. by apply (user_of_elem chat_id).
Qed.

(** X10: the update button copies to the user the catalogue words the user
    has no lowercase, not-custom row for, and nothing else.  Every row that
    was in the table stays in its place, what is added is put behind them,
    users, states, sessions and the catalogue are untouched, afterwards
    every catalogue word has its row, and pressing the button again adds
    nothing.  For an unknown chat only the user-not-found notice is sent. *)
Theorem update_words_adds_missing chat_id b :
  Bot.words (update_words chat_id b) = Bot.words b
  ∧ users (db (Bot.world (update_words chat_id b))) = users (db (Bot.world b))
  ∧ user_states (db (Bot.world (update_words chat_id b)))
    = user_states (db (Bot.world b))
  ∧ state_storage (Bot.world (update_words chat_id b))
    = state_storage (Bot.world b)
  ∧ (user_of chat_id (db (Bot.world b)) = None →
     db (Bot.world (update_words chat_id b)) = db (Bot.world b)
     ∧ Bot.notices (update_words chat_id b)
       = Bot.notices b ++ [(chat_id, UserNotFound)])
  ∧ (∀ user,
       user_of chat_id (db (Bot.world b)) = Some user →
       Bot.notices (update_words chat_id b)
       = Bot.notices b ++ [(chat_id, DatabaseUpdated)]
       ∧ (∃ added,
            user_words (db (Bot.world (update_words chat_id b)))
            = user_words (db (Bot.world b)) ++ added
            ∧ ∀ x, x ∈ added →
                ∃ word, word ∈ Bot.words b
                        ∧ x = standard_row (User.id user) word
                        ∧ ∀ y, y ∈ user_words (db (Bot.world b)) →
                               ¬ standard_filter (User.id user) word y)
       ∧ (∀ word, word ∈ Bot.words b →
            ∃ x, x ∈ user_words (db (Bot.world (update_words chat_id b)))
                 ∧ standard_filter (User.id user) word x)
       ∧ db (Bot.world (update_words chat_id (update_words chat_id b)))
         = db (Bot.world (update_words chat_id b))).
Proof.
  unfold update_words.
  destruct (user_of chat_id (db (Bot.world b))) as [user|] eqn:Huser; simpl.
  - destruct (load_frame (User.id user) (Bot.words b) (db (Bot.world b)))
      as (Husers & Hstates & Hadded).
    split_and!; try done.
    intros ? [= <-]. split_and!; try done.
    + intros word Hword. apply load_covers; [|done]. by eapply user_of_id.
    + assert (user_of chat_id
                (load_standard_words_for_user (User.id user) (Bot.words b)
                                              (db (Bot.world b))) = Some user)
        as ->.
      { unfold user_of in *. by rewrite Husers. }
      simpl. apply load_twice.
  - by split_and!.
Qed.

Lemma update_words_adds_missing_witness :
  user_words (db (Bot.world (update_words 1 numbers_bot)))
  = numbers ++ [ UserWord.mk 1 "red" "красный" "цвета" 1 false;
                 UserWord.mk 1 "i" "я" "местоимения" 2 false ]
  ∧ db (Bot.world (update_words 1 (update_words 1 numbers_bot)))
    = db (Bot.world (update_words 1 numbers_bot)).
Proof.
  split; [reflexivity|].
  destruct (update_words_adds_missing 1 numbers_bot) as (_ & _ & _ & _ & _ & Hknown).
  destruct (Hknown (User.mk 1 1)) as (_ & _ & _ & Htwice); [reflexivity|].
  exact Htwice.
Defined.

(** ** Registration *)

Lemma first_cons {A} (P : A → Prop) `{!∀ x, Decision (P x)} (x : A) (l : list A) :
  first P (x :: l) = if decide (P x) then Some x else first P l.
Proof.
  unfold first. cbn [list_find]. destruct (decide (P x)); [done|].
  by destruct (list_find P l) as [[i y]|].
Qed.

Lemma first_app_r {A} (P : A → Prop) `{!∀ x, Decision (P x)} (l k : list A) :
  first P l = None → first P (l ++ k) = first P k.
Proof.
  induction l as [|x l IH]; [done|]. simpl. rewrite !first_cons.
  destruct (decide (P x)); [done|]. apply IH.
Qed.

Lemma first_app_l {A} (P : A → Prop) `{!∀ x, Decision (P x)} (l k : list A) x :
  first P l = Some x → first P (l ++ k) = Some x.
Proof.
  induction l as [|y l IH]; [done|]. simpl. rewrite !first_cons.
  destruct (decide (P y)); [done|]. apply IH.
Qed.

Lemma filter_all {A} (P : A → Prop) `{!∀ x, Decision (P x)} (l : list A) :
  (∀ x, x ∈ l → P x) → filter P l = l.
Proof.
  induction l as [|y l IH]; intros Hall; [done|].
  rewrite filter_cons, decide_True by (apply Hall, list_elem_of_here).
  f_equal. apply IH. intros x Hx. apply Hall. by apply list_elem_of_further.
Qed.

(** Without a category the three buttons of the quiz do nothing. *)
Lemma unselected_buttons chat_id w :
  selected_category chat_id (db w) = None →
  world_of (next_card chat_id w) = w
  ∧ world_of (add_word chat_id w) = w
  ∧ world_of (delete_word chat_id w) = w.
Proof.
  unfold selected_category, next_card, add_word, delete_word.
  destruct (user_of chat_id (db w)) as [user|]; simpl; [|done].
  destruct (state_of user (db w)) as [state|]; simpl; [|done].
  destruct (UserState.category state) as [category|]; simpl; [|done].
  by destruct (decide (category = "")).
Qed.

(** The greeting and the menu that end [start]. *)
Lemma greeted chat_id b :
  ∃ i, (i < 4)%nat
       ∧ (let '(i, tape) := randbelow 4 (rng (Bot.world b)) in
          Returned (Bot.notify chat_id LevelMenu
                      (Bot.notify chat_id (Greeting i) (Bot.with_rng tape b))))
         = Returned (Bot.notify chat_id LevelMenu
                       (Bot.notify chat_id (Greeting i)
                          (Bot.with_rng (snd (randbelow 4 (rng (Bot.world b)))) b))).
Proof.
  pose proof (randbelow_lt 4 (rng (Bot.world b))) as Hlt.
  destruct (randbelow 4 (rng (Bot.world b))) as [i tape]. simpl in *.
  exists i. split; [apply Hlt; lia|done].
Qed.

(** A new chat with a free key: the user, the state row and the copy of
    the catalogue. *)
Lemma start_new chat_id new_id b :
  let d := db (Bot.world b) in
  user_of chat_id d = None →
  new_id ∉ User.id <$> users d →
  new_id ∉ UserState.user_id <$> user_states d →
  (∀ x, x ∈ user_words d → UserWord.user_id x ≠ new_id) →
  ∃ b',
    start chat_id new_id b = Returned b'
    ∧ db (Bot.world b')
      = mkDB (users d ++ [User.mk new_id chat_id])
             (user_states d ++ [UserState.mk new_id None None])
             (user_words d ++ (standard_row new_id <$> Bot.words b))
    ∧ state_storage (Bot.world b') = state_storage (Bot.world b)
    ∧ sent (Bot.world b') = sent (Bot.world b)
    ∧ Bot.words b' = Bot.words b
    ∧ user_of chat_id (db (Bot.world b')) = Some (User.mk new_id chat_id)
    ∧ state_of (User.mk new_id chat_id) (db (Bot.world b'))
      = Some (UserState.mk new_id None None).
Proof.
  intros d Hnone Hfree Hstate Hrows.
  set (d1 := mkDB (users d ++ [User.mk new_id chat_id])
                  (user_states d ++ [UserState.mk new_id None None])
                  (user_words d)).
  assert (new_id ∈ User.id <$> users d1) as Hin.
  { unfold d1. simpl. rewrite fmap_app. apply elem_of_app. right.
    apply list_elem_of_here. }
  assert (load_standard_words_for_user new_id (Bot.words b) d1
          = mkDB (users d1) (user_states d1)
                 (user_words d ++ (standard_row new_id <$> Bot.words b)))
    as Hload.
  { rewrite (load_known _ _ _ Hin). simpl. rewrite filter_all; [done|].
    intros word _. apply first_None_iff. intros x Hx (Hid & _).
    by apply (Hrows x Hx). }
  assert (user_of chat_id d1 = Some (User.mk new_id chat_id)) as Huser1.
  { unfold user_of, d1 in *. simpl. rewrite first_app_r by done.
    rewrite first_cons. by rewrite decide_True. }
  assert (state_of (User.mk new_id chat_id) d1
          = Some (UserState.mk new_id None None)) as Hstate1.
  { unfold state_of, d1. simpl. rewrite first_app_r.
    - rewrite first_cons. by rewrite decide_True.
    - apply first_None_iff. intros s Hs Hid. apply Hstate.
      apply list_elem_of_fmap. by exists s. }
  set (b1 := Bot.with_db (load_standard_words_for_user new_id (Bot.words b) d1) b).
  assert (start chat_id new_id b
          = (let '(i, tape) := randbelow 4 (rng (Bot.world b1)) in
             Returned (Bot.notify chat_id LevelMenu
                         (Bot.notify chat_id (Greeting i) (Bot.with_rng tape b1)))))
    as Hstart.
  { unfold start. fold d. rewrite Hnone.
    rewrite decide_False by done. simpl.
    rewrite decide_False by done. done. }
  destruct (greeted chat_id b1) as (i & Hi & Hgreet).
  rewrite Hgreet in Hstart. clear Hgreet.
  set (b2 := Bot.notify chat_id LevelMenu _) in Hstart.
  assert (db (Bot.world b2)
          = mkDB (users d1) (user_states d1)
                 (user_words d ++ (standard_row new_id <$> Bot.words b)))
    as Hdb2 by (unfold b2, b1; simpl; by rewrite Hload).
  exists b2. split; [exact Hstart|]. rewrite Hdb2.
  split_and!; done.
Qed.

(** X11: [start] registers a chat once.  For a chat that has a user it
    writes no table: it only greets and shows the level menu.  For a new
    chat, when the key given to the user is free, it appends the user and a
    state row without level and without category, and copies every row of
    the catalogue to the user in lowercase; the sessions are untouched, the
    three quiz buttons do nothing for the new user until a category is
    chosen, and a second [start] writes nothing.  When the key is taken the
    handler fails and writes nothing. *)
Theorem start_registers chat_id new_id b :
  let d := db (Bot.world b) in
  (∀ user,
     user_of chat_id d = Some user →
     ∃ i b',
       (i < 4)%nat
       ∧ start chat_id new_id b = Returned b'
       ∧ Bot.world b'
         = mkWorld d (state_storage (Bot.world b))
                   (snd (randbelow 4 (rng (Bot.world b)))) (sent (Bot.world b))
       ∧ Bot.notices b'
         = Bot.notices b ++ [(chat_id, Greeting i); (chat_id, LevelMenu)])
  ∧ (user_of chat_id d = None → new_id ∈ User.id <$> users d →
     start chat_id new_id b = Failed b)
  ∧ (user_of chat_id d = None →
     new_id ∉ User.id <$> users d →
     new_id ∉ UserState.user_id <$> user_states d →
     (∀ x, x ∈ user_words d → UserWord.user_id x ≠ new_id) →
     ∃ b',
       start chat_id new_id b = Returned b'
       ∧ users (db (Bot.world b')) = users d ++ [User.mk new_id chat_id]
       ∧ user_states (db (Bot.world b'))
         = user_states d ++ [UserState.mk new_id None None]
       ∧ user_words (db (Bot.world b'))
         = user_words d ++ (standard_row new_id <$> Bot.words b)
       ∧ state_storage (Bot.world b') = state_storage (Bot.world b)
       ∧ Bot.words b' = Bot.words b
       ∧ user_of chat_id (db (Bot.world b')) = Some (User.mk new_id chat_id)
       ∧ selected_category chat_id (db (Bot.world b')) = None
       ∧ world_of (next_card chat_id (Bot.world b')) = Bot.world b'
       ∧ world_of (add_word chat_id (Bot.world b')) = Bot.world b'
       ∧ world_of (delete_word chat_id (Bot.world b')) = Bot.world b'
       ∧ ∀ other_id,
           db (Bot.world (bot_of (start chat_id other_id b')))
           = db (Bot.world b')).
Proof.
  intros d.
  assert (∀ b0 user id0,
            user_of chat_id (db (Bot.world b0)) = Some user →
            ∃ i b',
              (i < 4)%nat
              ∧ start chat_id id0 b0 = Returned b'
              ∧ Bot.world b'
                = mkWorld (db (Bot.world b0)) (state_storage (Bot.world b0))
                          (snd (randbelow 4 (rng (Bot.world b0))))
                          (sent (Bot.world b0))
              ∧ Bot.notices b'
                = Bot.notices b0 ++ [(chat_id, Greeting i); (chat_id, LevelMenu)])
    as Hknown.
  { intros b0 user id0 Huser. unfold start. rewrite Huser. simpl.
    destruct (greeted chat_id b0) as (i & Hi & ->).
    exists i. eexists. split; [done|]. split; [done|]. simpl.
    by rewrite <- app_assoc. }
  split_and!.
  - intros user Huser. by apply (Hknown b user new_id).
  - intros Hnone Htaken. unfold start. fold d. rewrite Hnone.
    by rewrite decide_True.
  - intros Hnone Hfree Hstate Hrows.
    destruct (start_new chat_id new_id b Hnone Hfree Hstate Hrows)
      as (b2 & Hstart & Hdb2 & Hstorage & _ & Hwords & Huser2 & Hstate2).
    exists b2. split; [exact Hstart|].
    assert (selected_category chat_id (db (Bot.world b2)) = None) as Hselected.
    { unfold selected_category. rewrite Huser2. simpl. by rewrite Hstate2. }
    split_and!.
    + by rewrite Hdb2.
    + by rewrite Hdb2.
    + by rewrite Hdb2.
    + done.
    + done.
    + done.
    + done.
    + by apply unselected_buttons.
    + by apply unselected_buttons.
    + by apply unselected_buttons.
    + intros other_id.
      destruct (Hknown b2 (User.mk new_id chat_id) other_id)
        as (j & b3 & _ & -> & Hworld & _); [done|].
      simpl. by rewrite Hworld.
Qed.

Lemma start_registers_witness :
  ∃ b',
    start 2 2 numbers_bot = Returned b'
    ∧ users (db (Bot.world b')) = [User.mk 1 1; User.mk 2 2]
    ∧ user_states (db (Bot.world b'))
      = [numbers_state; UserState.mk 2 None None]
    ∧ user_words (db (Bot.world b')) = numbers ++ (standard_row 2 <$> catalogue)
    ∧ world_of (add_word 2 (Bot.world b')) = Bot.world b'.
Proof.
  destruct (start_registers 2 2 numbers_bot) as (_ & _ & Hnew).
  destruct Hnew as (b' & Hstart & Husers & Hstates & Hrows & _ & _ & _ & _ & _
                    & Hadd & _).
  - reflexivity.
  - intros Hin. apply list_elem_of_In in Hin. simpl in Hin.
    destruct Hin as [Hin|[]]. discriminate Hin.
  - intros Hin. apply list_elem_of_In in Hin. simpl in Hin.
    destruct Hin as [Hin|[]]. discriminate Hin.
  - intros x Hx Hid. apply list_elem_of_In in Hx. simpl in Hx.
    destruct Hx as [<-|[<-|[<-|[]]]]; discriminate Hid.
  - exists b'. split_and!; assumption.
Defined.

(** ** The category menu *)

(** X12: the categories offered for a level are the lowercase category
    names of the rows at that level, of the catalogue and of the words of
    every user alike, each name once. *)
Theorem categories_for_level level b :
  NoDup (get_categories_for_level level b)
  ∧ ∀ category,
      category ∈ get_categories_for_level level b ↔
        (∃ x, x ∈ Bot.words b ∧ Word.level x = level
              ∧ lower (Word.category x) = category)
        ∨ (∃ x, x ∈ user_words (db (Bot.world b)) ∧ UserWord.level x = level
                ∧ lower (UserWord.category x) = category).
Proof.
  unfold get_categories_for_level. split; [apply NoDup_elements|].
  intros category.
  rewrite elem_of_elements, elem_of_list_to_set, elem_of_app,
    !list_elem_of_fmap.
  split.
  - intros [(c & -> & Hc)|(c & -> & Hc)];
      apply list_elem_of_fmap in Hc as (x & -> & Hx);
      apply list_elem_of_filter in Hx as [Hlevel Hx]; [left|right];
      by exists x.
  - intros [(x & Hx & Hlevel & <-)|(x & Hx & Hlevel & <-)]; [left|right].
    + exists (Word.category x). split; [done|]. apply list_elem_of_fmap.
      exists x. split; [done|]. by apply list_elem_of_filter.
    + exists (UserWord.category x). split; [done|]. apply list_elem_of_fmap.
      exists x. split; [done|]. by apply list_elem_of_filter.
Qed.

(** ** Choosing a level *)

Lemma first_insert_found {A} (P : A → Prop) `{!∀ x, Decision (P x)}
    (l : list A) i s new :
  list_find P l = Some (i, s) → P new → first P (<[i := new]> l) = Some new.
Proof.
  intros Hfind Hnew. apply list_find_Some in Hfind as (Hi & _ & Hbefore).
  assert (list_find P (<[i := new]> l) = Some (i, new)) as Hfind'.
  { apply list_find_Some. split_and!; [|done|].
    - apply list_lookup_insert_eq. by eapply lookup_lt_Some.
    - intros j y Hj Hlt. rewrite list_lookup_insert_ne in Hj by lia.
      by apply (Hbefore j). }
  unfold first. by rewrite Hfind'.
Qed.

Lemma first_insert_other {A} (Q : A → Prop) `{!∀ x, Decision (Q x)}
    (l : list A) i s new :
  l !! i = Some s → ¬ Q s → ¬ Q new → first Q (<[i := new]> l) = first Q l.
Proof.
  revert i. induction l as [|y l IH]; intros [|i] Hi Hs Hnew; simplify_eq/=.
  - rewrite !first_cons. by rewrite !decide_False.
  - rewrite !first_cons. destruct (decide (Q y)); [done|]. by eapply IH.
Qed.

Lemma state_of_set_level user level states :
  first (λ s, UserState.user_id s = User.id user) (set_level user level states)
  = Some (match first (λ s, UserState.user_id s = User.id user) states with
          | Some state =>
              UserState.mk (UserState.user_id state) (Some level)
                           (UserState.category state)
          | None => UserState.mk (User.id user) (Some level) None
          end).
Proof.
  unfold set_level, first at 2.
  destruct (list_find _ states) as [[i state]|] eqn:Hfind; simpl.
  - eapply first_insert_found; [exact Hfind|].
    by apply list_find_Some in Hfind as (_ & Hid & _).
  - rewrite first_app_r by (unfold first; by rewrite Hfind).
    rewrite first_cons. by rewrite decide_True.
Qed.

Lemma state_of_set_level_other user other level states :
  User.id other ≠ User.id user →
  first (λ s, UserState.user_id s = User.id other) (set_level user level states)
  = first (λ s, UserState.user_id s = User.id other) states.
Proof.
  intros Hne. unfold set_level.
  destruct (list_find _ states) as [[i state]|] eqn:Hfind; simpl.
  - apply list_find_Some in Hfind as (Hi & Hid & _).
    eapply first_insert_other; [exact Hi| |]; simpl; congruence.
  - destruct (first (λ s, UserState.user_id s = User.id other) states)
      as [s|] eqn:Hother.
    + by apply first_app_l.
    + rewrite first_app_r by done. rewrite first_cons.
      by rewrite decide_False by (simpl; congruence).
Qed.

(** What [select_level] writes and sends. *)
Lemma select_level_spec chat_id level b :
  let d := db (Bot.world b) in
  let b' := select_level chat_id level b in
  let d' := db (Bot.world b') in
  (user_of chat_id d = None → b' = Bot.notify chat_id UserNotFound b)
  ∧ (∀ user,
       user_of chat_id d = Some user →
       state_of user d'
       = Some (match state_of user d with
               | Some state =>
                   UserState.mk (UserState.user_id state) (Some level)
                                (UserState.category state)
               | None => UserState.mk (User.id user) (Some level) None
               end)
       ∧ selected_level chat_id d' = Some level
       ∧ selected_category chat_id d' = selected_category chat_id d
       ∧ (∀ other, User.id other ≠ User.id user →
                   state_of other d' = state_of other d)
       ∧ users d' = users d
       ∧ user_words d' = user_words d
       ∧ Bot.words b' = Bot.words b
       ∧ state_storage (Bot.world b') = state_storage (Bot.world b)
       ∧ sent (Bot.world b') = sent (Bot.world b)
       ∧ rng (Bot.world b') = rng (Bot.world b)
       ∧ Bot.notices b'
         = Bot.notices b
           ++ [(chat_id, LevelLoaded level);
               (chat_id, match get_categories_for_level level b with
                         | [] => NoCategoriesAtLevel
                         | categories => CategoryMenu categories
                         end)]).
Proof.
  intros d b' d'. subst b' d'. unfold select_level. fold d. split.
  - by intros ->.
  - intros user Huser. rewrite Huser.
    set (b1 := Bot.notify chat_id (LevelLoaded level) _).
    change (get_categories_for_level level b1)
      with (get_categories_for_level level b).
    set (d1 := mkDB (users d) (set_level user level (user_states d)) (user_words d)).
    assert (state_of user d1
            = Some (match state_of user d with
                    | Some state =>
                        UserState.mk (UserState.user_id state) (Some level)
                                     (UserState.category state)
                    | None => UserState.mk (User.id user) (Some level) None
                    end)) as Hstate by apply state_of_set_level.
    assert (user_of chat_id d1 = Some user) as Huser1 by exact Huser.
    assert (∀ n, db (Bot.world (Bot.notify chat_id n b1)) = d1) as Hdb by done.
    destruct (get_categories_for_level level b) as [|c categories];
      rewrite Hdb; (split_and!; try done).
    + unfold selected_level. rewrite Huser1. simpl. rewrite Hstate. simpl.
      by destruct (state_of user d).
    + unfold selected_category. rewrite Huser1, Huser. simpl. rewrite Hstate.
      simpl. by destruct (state_of user d).
    + intros other Hne. by apply state_of_set_level_other.
    + unfold b1. simpl. by rewrite <- app_assoc.
    + unfold selected_level. rewrite Huser1. simpl. rewrite Hstate. simpl.
      by destruct (state_of user d).
    + unfold selected_category. rewrite Huser1, Huser. simpl. rewrite Hstate.
      simpl. by destruct (state_of user d).
    + intros other Hne. by apply state_of_set_level_other.
    + unfold b1. simpl. by rewrite <- app_assoc.
Qed.

(** ** Choosing a category *)

Lemma state_of_set_category user category states state :
  first (λ s, UserState.user_id s = User.id user) states = Some state →
  first (λ s, UserState.user_id s = User.id user)
        (set_category user category states)
  = Some (UserState.mk (UserState.user_id state) (UserState.level state)
                       (Some category)).
Proof.
  unfold set_category, first at 1.
  destruct (list_find _ states) as [[i s]|] eqn:Hfind; simpl; [|done].
  intros [= ->]. eapply first_insert_found; [exact Hfind|].
  by apply list_find_Some in Hfind as (_ & Hid & _).
Qed.

Lemma state_of_set_category_other user other category states :
  User.id other ≠ User.id user →
  first (λ s, UserState.user_id s = User.id other)
        (set_category user category states)
  = first (λ s, UserState.user_id s = User.id other) states.
Proof.
  intros Hne. unfold set_category.
  destruct (list_find _ states) as [[i state]|] eqn:Hfind; simpl; [|done].
  apply list_find_Some in Hfind as (Hi & Hid & _).
  eapply first_insert_other; [exact Hi| |]; simpl; congruence.
Qed.

(** When the filter of [select_category] accepts a text. *)
Lemma is_valid_category_true chat_id text b :
  is_valid_category chat_id text b = Some true ↔
    ∃ user state level,
      user_of chat_id (db (Bot.world b)) = Some user
      ∧ state_of user (db (Bot.world b)) = Some state
      ∧ UserState.level state = Some level ∧ level ≠ 0
      ∧ ((∃ x, x ∈ Bot.words b
               ∧ Word.category x = lower (strip text) ∧ Word.level x = level)
         ∨ (∃ x, x ∈ user_words (db (Bot.world b))
                 ∧ UserWord.user_id x = User.id user
                 ∧ UserWord.category x = lower (strip text)
                 ∧ UserWord.level x = level)).
Proof.
  unfold is_valid_category.
  destruct (user_of chat_id (db (Bot.world b))) as [user|] eqn:Huser;
    [|split; [done|intros (u & s & l & Hu & Hs & Hl & Hz & _); simplify_eq]].
  destruct (state_of user (db (Bot.world b))) as [state|] eqn:Hstate;
    [|split; [done|intros (u & s & l & Hu & Hs & Hl & Hz & _); simplify_eq]].
  destruct (UserState.level state) as [level|] eqn:Hlevel;
    [|split; [done|intros (u & s & l & Hu & Hs & Hl & Hz & _); simplify_eq]].
  destruct (decide (level = 0)) as [->|Hne];
    [split; [done|intros (u & s & l & Hu & Hs & Hl & Hz & _); simplify_eq]|].
  split.
  - intros [= Hvalid]. exists user, state, level. split_and!; try done.
    apply orb_true_iff in Hvalid as [Hw|Hu].
    + left. apply bool_decide_eq_true in Hw as [x Hx].
      apply first_Some in Hx as [Hx [Hc Hl]]. by exists x.
    + right. apply bool_decide_eq_true in Hu as [x Hx].
      apply first_Some in Hx as [Hx (Hid & Hc & Hl)]. by exists x.
  - intros (user' & state' & level' & Hu & Hs & Hl' & _ & Hsome).
    injection Hu as <-. rewrite Hstate in Hs. injection Hs as <-.
    rewrite Hlevel in Hl'. injection Hl' as <-.
    f_equal. apply orb_true_iff.
    destruct Hsome as [(x & Hx & Hc & Hl)|(x & Hx & Hid & Hc & Hl)]; [left|right];
      apply bool_decide_eq_true.
    + destruct (first (λ x, Word.category x = lower (strip text)
                            ∧ Word.level x = level) (Bot.words b))
        as [y|] eqn:Hfirst; [by eexists|].
      destruct (first_None _ _ Hfirst x Hx). done.
    + destruct (first (λ x, UserWord.user_id x = User.id user
                            ∧ UserWord.category x = lower (strip text)
                            ∧ UserWord.level x = level)
                      (user_words (db (Bot.world b))))
        as [y|] eqn:Hfirst; [by eexists|].
      destruct (first_None _ _ Hfirst x Hx). done.
Qed.

(** What [select_category] does with a text its filter accepts, see X14. *)
Lemma select_category_spec chat_id text b :
  is_valid_category chat_id text b = Some true →
  let category := lower (strip text) in
  let d := db (Bot.world b) in
  let b' := bot_of (select_category chat_id text b) in
  let d' := db (Bot.world b') in
  ∃ user state level,
    user_of chat_id d = Some user
    ∧ state_of user d = Some state
    ∧ UserState.level state = Some level ∧ level ≠ 0
    ∧ state_of user d'
      = Some (UserState.mk (UserState.user_id state) (Some level) (Some category))
    ∧ (∀ other, User.id other ≠ User.id user → state_of other d' = state_of other d)
    ∧ users d' = users d
    ∧ user_words d' = user_words d
    ∧ Bot.words b' = Bot.words b
    ∧ ((∀ x, x ∈ user_words d → UserWord.user_id x = User.id user →
             UserWord.category x = category → UserWord.level x ≠ level) →
       select_category chat_id text b = Returned b'
       ∧ Bot.notices b' = Bot.notices b ++ [(chat_id, NoWordsInCategory)]
       ∧ state_storage (Bot.world b') = state_storage (Bot.world b)
       ∧ sent (Bot.world b') = sent (Bot.world b))
    ∧ ((∃ x, x ∈ user_words d ∧ UserWord.user_id x = User.id user
             ∧ UserWord.category x = category ∧ UserWord.level x = level) →
       ∃ x options,
         x ∈ user_words d ∧ UserWord.user_id x = User.id user
         ∧ UserWord.category x = category ∧ UserWord.level x = level
         ∧ select_category chat_id text b = Returned b'
         ∧ sent (Bot.world b')
           = sent (Bot.world b)
             ++ [(chat_id, Card (Some level) category
                                (UserWord.translation x) options)]
         ∧ target_of chat_id (Bot.world b') = Some (lower (UserWord.word x))
         ∧ lower (UserWord.word x) ∈ options
         ∧ Bot.notices b' = Bot.notices b).
Proof.
  intros Hvalid category d b' d'.
  apply is_valid_category_true in Hvalid
    as (user & state & level & Huser & Hstate & Hlevel & Hl & _).
  exists user, state, level. fold d in Huser, Hstate.
  split; [done|]. split; [done|]. split; [done|]. split; [done|].
  set (d1 := mkDB (users d) (set_category user category (user_states d))
                  (user_words d)).
  set (state1 := UserState.mk (UserState.user_id state) (UserState.level state)
                              (Some category)).
  assert (user_of chat_id d1 = Some user) as Huser1 by exact Huser.
  assert (state_of user d1 = Some state1) as Hstate1.
  { unfold state_of, d1. simpl. by apply state_of_set_category. }
  assert (∀ other, User.id other ≠ User.id user →
                   state_of other d1 = state_of other d) as Hothers.
  { intros other Hne. by apply state_of_set_category_other. }
  destruct (get_all_words chat_id (Some category) d1) as [words|] eqn:Hwords;
    [|by unfold get_all_words in Hwords; rewrite Huser1 in Hwords].
  assert (∀ x, x ∈ words ↔
               x ∈ user_words d ∧ UserWord.user_id x = User.id user
               ∧ UserWord.category x = category ∧ UserWord.level x = level)
    as Hmine.
  { intros x. rewrite (get_all_words_elem _ _ _ user words x Huser1 Hwords).
    rewrite Hstate1. unfold state1. simpl. rewrite Hlevel.
    split; intros (H1 & H2 & H3 & H4); split_and!; congruence. }
  assert (select_category chat_id text b
          = match words with
            | [] => Returned (Bot.notify chat_id NoWordsInCategory (Bot.with_db d1 b))
            | _ => lift (create_card chat_id (Some category) words state1
                                     (Bot.world (Bot.with_db d1 b)))
                        (Bot.with_db d1 b)
            end) as Hselect.
  { unfold select_category. fold d category. rewrite Huser, Hstate.
    fold d1 state1. by rewrite Hwords. }
  subst d' b'. rewrite Hselect.
  destruct words as [|x0 words'] eqn:Hw.
  - simpl. rewrite Hstate1. unfold state1. rewrite Hlevel.
    split_and!; try done.
    intros (x & Hx). by apply Hmine, elem_of_nil in Hx.
  - rewrite <- Hw in *.
    assert (words ≠ []) as Hne by (by rewrite Hw).
    destruct (create_card_pair chat_id category words state1
                (Bot.world (Bot.with_db d1 b)) Hne)
      as (x & options & w' & Hx & Hcard & Hsent & Ht & _ & Hin & Hdb).
    rewrite Hcard. simpl. rewrite Hdb. simpl. rewrite Hstate1.
    unfold state1. rewrite Hlevel.
    split_and!; try done.
    + intros Hnone. apply Hmine in Hx as (Hx & Hid & Hc & Hlv).
      by destruct (Hnone x).
    + intros _. apply Hmine in Hx as (Hx & Hid & Hc & Hlv).
      exists x, options. unfold state1 in Hsent. simpl in Hsent.
      rewrite Hlevel in Hsent. by split_and!.
Qed.

(** X14: a text the category filter accepts makes [select_category] store
    its stripped, lowercase form as the category of the user: the level of
    the row, the rows of the other users, the users, the words and the
    catalogue are untouched.  When the user owns no row of that category at
    the selected level (the filter accepted the text for the catalogue
    alone) the reply is the no-words-in-category notice and no session
    changes; otherwise a card is sent whose prompt and expected answer come
    from one such row. *)
Theorem select_category_opens chat_id text b :
  is_valid_category chat_id text b = Some true →
  let category := lower (strip text) in
  let d := db (Bot.world b) in
  let b' := bot_of (select_category chat_id text b) in
  let d' := db (Bot.world b') in
  ∃ user state level,
    user_of chat_id d = Some user
    ∧ state_of user d = Some state
    ∧ UserState.level state = Some level ∧ level ≠ 0
    ∧ state_of user d'
      = Some (UserState.mk (UserState.user_id state) (Some level) (Some category))
    ∧ (∀ other, User.id other ≠ User.id user → state_of other d' = state_of other d)
    ∧ users d' = users d
    ∧ user_words d' = user_words d
    ∧ Bot.words b' = Bot.words b
    ∧ ((∀ x, x ∈ user_words d → UserWord.user_id x = User.id user →
             UserWord.category x = category → UserWord.level x ≠ level) →
       select_category chat_id text b = Returned b'
       ∧ Bot.notices b' = Bot.notices b ++ [(chat_id, NoWordsInCategory)]
       ∧ state_storage (Bot.world b') = state_storage (Bot.world b)
       ∧ sent (Bot.world b') = sent (Bot.world b))
    ∧ ((∃ x, x ∈ user_words d ∧ UserWord.user_id x = User.id user
             ∧ UserWord.category x = category ∧ UserWord.level x = level) →
       ∃ x options,
         x ∈ user_words d ∧ UserWord.user_id x = User.id user
         ∧ UserWord.category x = category ∧ UserWord.level x = level
         ∧ select_category chat_id text b = Returned b'
         ∧ sent (Bot.world b')
           = sent (Bot.world b)
             ++ [(chat_id, Card (Some level) category
                                (UserWord.translation x) options)]
         ∧ target_of chat_id (Bot.world b') = Some (lower (UserWord.word x))
         ∧ lower (UserWord.word x) ∈ options
         ∧ Bot.notices b' = Bot.notices b).
Proof. exact (select_category_spec chat_id text b). Qed.

Lemma select_category_opens_witness :
  ∃ x options b',
    x ∈ numbers
    ∧ select_category 1 " числа " numbers_bot = Returned b'
    ∧ sent (Bot.world b')
      = [(1, Card (Some 1) "числа" (UserWord.translation x) options)]
    ∧ target_of 1 (Bot.world b') = Some (lower (UserWord.word x)).
Proof.
  destruct (select_category_opens 1 " числа " numbers_bot)
    as (user & state & level & Huser & Hstate & Hlevel & _ & _ & _ & _ & _ & _
        & _ & Hcard).
  - reflexivity.
  - injection Huser as <-. injection Hstate as <-. injection Hlevel as <-.
    destruct Hcard as (x & options & Hx & _ & _ & _ & Hselect & Hsent & Ht & _).
    + exists (UserWord.mk 1 "one" "один" "числа" 1 false).
      split; [apply list_elem_of_here|]. repeat split.
    + exists x, options, (bot_of (select_category 1 " числа " numbers_bot)).
      split_and!; assumption.
Defined.

(** ** From registration to the first card *)

Lemma select_level_db chat_id level b user :
  user_of chat_id (db (Bot.world b)) = Some user →
  db (Bot.world (select_level chat_id level b))
  = mkDB (users (db (Bot.world b)))
         (set_level user level (user_states (db (Bot.world b))))
         (user_words (db (Bot.world b)))
  ∧ Bot.words (select_level chat_id level b) = Bot.words b
  ∧ state_storage (Bot.world (select_level chat_id level b))
    = state_storage (Bot.world b)
  ∧ sent (Bot.world (select_level chat_id level b)) = sent (Bot.world b).
Proof.
  intros Huser. unfold select_level. rewrite Huser.
  by destruct (get_categories_for_level _ _).
Qed.

(** X15: a new chat reaches its first card in three steps.  After [start]
    with a free key and the choice of a level other than 0, every text whose
    stripped lowercase form is the lowercase category of a catalogue word of
    that level passes the category filter, and [select_category] answers it
    with a card: the prompt is the lowercase translation and the target the
    lowercase word of a catalogue word of that level and category. *)
Theorem first_card chat_id new_id level text word b :
  let d := db (Bot.world b) in
  user_of chat_id d = None →
  new_id ∉ User.id <$> users d →
  new_id ∉ UserState.user_id <$> user_states d →
  (∀ x, x ∈ user_words d → UserWord.user_id x ≠ new_id) →
  word ∈ Bot.words b → Word.level word = level → level ≠ 0 →
  lower (strip text) = lower (Word.category word) →
  ∃ b1,
    start chat_id new_id b = Returned b1
    ∧ is_valid_category chat_id text (select_level chat_id level b1) = Some true
    ∧ ∃ x options b3,
        x ∈ Bot.words b ∧ Word.level x = level
        ∧ lower (Word.category x) = lower (strip text)
        ∧ select_category chat_id text (select_level chat_id level b1)
          = Returned b3
        ∧ sent (Bot.world b3)
          = sent (Bot.world b)
            ++ [(chat_id, Card (Some level) (lower (strip text))
                               (lower (Word.translation x)) options)]
        ∧ target_of chat_id (Bot.world b3) = Some (lower (Word.word x))
        ∧ lower (Word.word x) ∈ options.
Proof.
  intros d Hnone Hfree Hstate Hrows Hword Hlevel Hl Htext.
  destruct (start_new chat_id new_id b Hnone Hfree Hstate Hrows)
    as (b1 & Hstart & Hdb1 & _ & Hsent1 & Hwords1 & Huser1 & Hstate1).
  exists b1. split; [done|].
  set (user := User.mk new_id chat_id) in *.
  set (b2 := select_level chat_id level b1).
  destruct (select_level_db chat_id level b1 user Huser1)
    as (Hdb2 & Hwords2 & _ & Hsent2).
  fold b2 in Hdb2, Hwords2, Hsent2.
  assert (user_of chat_id (db (Bot.world b2)) = Some user) as Huser2.
  { rewrite Hdb2. exact Huser1. }
  assert (state_of user (db (Bot.world b2))
          = Some (UserState.mk new_id (Some level) None)) as Hstate2.
  { rewrite Hdb2.
    pose proof (state_of_set_level user level (user_states (db (Bot.world b1))))
      as Hset.
    change (first _ (user_states (db (Bot.world b1))))
      with (state_of user (db (Bot.world b1))) in Hset.
    rewrite Hstate1 in Hset. exact Hset. }
  assert (user_words (db (Bot.world b2))
          = user_words d ++ (standard_row new_id <$> Bot.words b)) as Hrows2.
  { rewrite Hdb2. simpl. by rewrite Hdb1. }
  assert (is_valid_category chat_id text b2 = Some true) as Hvalid.
  { apply is_valid_category_true.
    exists user, (UserState.mk new_id (Some level) None), level.
    split_and!; try done. right. exists (standard_row new_id word).
    split_and!; try done.
    rewrite Hrows2. apply elem_of_app. right. apply list_elem_of_fmap. eauto. }
  split; [done|].
  destruct (select_category_spec chat_id text b2 Hvalid)
    as (user' & state' & level' & Hu & Hs & Hlv & _ & _ & _ & _ & _ & _ & _ & Hcard).
  rewrite Huser2 in Hu. injection Hu as <-.
  rewrite Hstate2 in Hs. injection Hs as <-.
  injection Hlv as <-.
  destruct Hcard as (x & options & Hx & Hid & Hc & Hlx & Hselect & Hsent & Ht & Hin & _).
  { exists (standard_row new_id word). split_and!; try done.
    rewrite Hrows2. apply elem_of_app. right. apply list_elem_of_fmap. eauto. }
  rewrite Hrows2 in Hx. apply elem_of_app in Hx as [Hx|Hx];
    [by destruct (Hrows x Hx)|].
  apply list_elem_of_fmap in Hx as (y & -> & Hy).
  exists y, options, (bot_of (select_category chat_id text b2)).
  simpl in *. rewrite lower_idempotent in Ht, Hin.
  split_and!; try done. by rewrite Hsent, Hsent2, Hsent1.
Qed.

Lemma first_card_witness :
  ∃ b1,
    start 2 2 numbers_bot = Returned b1
    ∧ is_valid_category 2 " цвета" (select_level 2 1 b1) = Some true.
Proof.
  destruct (first_card 2 2 1 " цвета" (Word.mk "red" "красный" "цвета" 1)
              numbers_bot) as (b1 & Hstart & Hvalid & _).
  - reflexivity.
  - intros Hin. apply list_elem_of_In in Hin. simpl in Hin.
    destruct Hin as [Hin|[]]. discriminate Hin.
  - intros Hin. apply list_elem_of_In in Hin. simpl in Hin.
    destruct Hin as [Hin|[]]. discriminate Hin.
  - intros x Hx Hid. apply list_elem_of_In in Hx. simpl in Hx.
    destruct Hx as [<-|[<-|[<-|[]]]]; discriminate Hid.
  - apply list_elem_of_In. simpl. tauto.
  - reflexivity.
  - discriminate.
  - reflexivity.
  - exists b1. split; [exact Hstart|exact Hvalid].
Defined.

(** ** A change of level under an open card *)

(** X16: when the level is changed while a card is open and the user owns
    no word of the selected category at the new level, the right answer to
    the open card is still answered "correct", followed by the
    no-words-available message instead of a new card, and the card stays
    open. *)
Theorem answer_after_level_change chat_id level text b user state target :
  let w := Bot.world b in
  user_of chat_id (db w) = Some user →
  state_of user (db w) = Some state →
  Temp.action (temp_of chat_id w) = None →
  target_of chat_id w = Some target → target ≠ "" →
  lower text = target →
  process_menu_navigation text = None →
  (∀ x, x ∈ user_words (db w) → UserWord.user_id x = User.id user →
        Some (UserWord.category x) = UserState.category state →
        UserWord.level x ≠ level) →
  let w' := Bot.world (select_level chat_id level b) in
  handle_text chat_id text w'
  = Done (send_message chat_id NoWordsAvailable (send_message chat_id Correct w'))
  ∧ target_of chat_id (world_of (handle_text chat_id text w')) = Some target.
Proof.
  intros w Huser Hstate Haction Htarget Hne Htext Hnav Hnone w'.
  destruct (select_level_db chat_id level b user Huser)
    as (Hdb & _ & Hstorage & _).
  fold w' in Hdb, Hstorage.
  set (state' := UserState.mk (UserState.user_id state) (Some level)
                              (UserState.category state)).
  assert (user_of chat_id (db w') = Some user) as Huser'.
  { rewrite Hdb. exact Huser. }
  assert (state_of user (db w') = Some state') as Hstate'.
  { rewrite Hdb.
    pose proof (state_of_set_level user level (user_states (db w))) as Hset.
    change (first _ (user_states (db w))) with (state_of user (db w)) in Hset.
    rewrite Hstate in Hset. exact Hset. }
  assert (temp_of chat_id w' = temp_of chat_id w) as Htemp.
  { unfold temp_of. by rewrite Hstorage. }
  assert (get_all_words chat_id (UserState.category state') (db w') = Some [])
    as Hwords.
  { destruct (get_all_words chat_id (UserState.category state') (db w'))
      as [words|] eqn:Hwords;
      [|by unfold get_all_words in Hwords; rewrite Huser' in Hwords].
    destruct words as [|x words']; [done|]. exfalso.
    assert (x ∈ x :: words') as Hx by apply list_elem_of_here.
    apply (get_all_words_elem _ _ _ user _ x Huser' Hwords) in Hx
      as (Hx & Hid & Hc & Hl).
    rewrite Hstate' in Hl. simpl in Hl. injection Hl as Hl.
    rewrite Hdb in Hx. simpl in Hx.
    by apply (Hnone x Hx Hid Hc). }
  assert (handle_text chat_id text w'
          = Done (send_message chat_id NoWordsAvailable
                    (send_message chat_id Correct w'))) as Hhandle.
  { rewrite (handle_text_process chat_id text user state' w') by done.
    unfold process_word_actions. rewrite Htemp, Haction.
    unfold target_of in Htarget. rewrite Htarget.
    unfold falsy_str. rewrite bool_decide_false by done.
    rewrite decide_True by done.
    change (db (send_message chat_id Correct w')) with (db w').
    by rewrite Hwords. }
  split; [done|]. rewrite Hhandle. simpl.
  unfold target_of in *. by rewrite <- Htemp in Htarget.
Qed.

Lemma answer_after_level_change_witness :
  sent (world_of (handle_text 1 "One" (Bot.world (select_level 1 2 open_card_bot))))
  = [(1, Correct); (1, NoWordsAvailable)].
Proof.
  destruct (answer_after_level_change 1 2 "One" open_card_bot (User.mk 1 1)
              numbers_state "one") as [Hhandle _];
    try reflexivity; try discriminate.
  intros x Hx _ _. apply list_elem_of_In in Hx. simpl in Hx.
  destruct Hx as [<-|[<-|[<-|[]]]]; discriminate.
Defined.

(** ** The statistics *)

Lemma sum_list_zero {A} (l : list A) : sum_list ((λ _, 0%nat) <$> l) = 0%nat.
Proof. induction l as [|x l IH]; [done|]. exact IH. Qed.

Lemma sum_list_plus {A} (f g : A → nat) (l : list A) :
  sum_list ((λ k, f k + g k)%nat <$> l)
  = (sum_list (f <$> l) + sum_list (g <$> l))%nat.
Proof.
  induction l as [|x l IH]; [done|].
  rewrite !fmap_cons. cbn [sum_list_with]. rewrite IH. unfold id. lia.
Qed.

Lemma sum_list_indicator {A} `{EqDecision A} (a : A) (l : list A) :
  NoDup l →
  sum_list ((λ k, if decide (a = k) then 1 else 0)%nat <$> l)
  = (if decide (a ∈ l) then 1 else 0)%nat.
Proof.
  induction 1 as [|x l Hx Hl IH].
  - by destruct (decide (a ∈ [])) as [Hin%elem_of_nil|].
  - rewrite fmap_cons. cbn [sum_list_with]. rewrite IH. unfold id.
    destruct (decide (a = x)) as [->|Hne].
    + destruct (decide (x ∈ l)); [done|].
      by destruct (decide (x ∈ x :: l)) as [|[]]; [|apply list_elem_of_here].
    + destruct (decide (a ∈ l)) as [Hin|Hout].
      * by destruct (decide (a ∈ x :: l)) as [|[]];
          [|apply list_elem_of_further].
      * by destruct (decide (a ∈ x :: l)) as [[->|Hin]%elem_of_cons|].
Qed.

(** Counting the rows key by key counts every row once. *)
Lemma counts_sum {K} `{EqDecision K} (key : UserWord.t → K)
    (rows : list UserWord.t) (keys : list K) :
  NoDup keys →
  (∀ x, x ∈ rows → key x ∈ keys) →
  sum_list ((λ k, length (filter (λ x, key x = k) rows)) <$> keys) = length rows.
Proof.
  intros Hnodup. induction rows as [|r rows IH]; intros Hkeys.
  - apply sum_list_zero.
  - assert (sum_list ((λ k, length (filter (λ x, key x = k) (r :: rows))) <$> keys)
            = sum_list ((λ k, (if decide (key r = k) then 1 else 0)
                              + length (filter (λ x, key x = k) rows))%nat
                          <$> keys)) as ->.
    { f_equal. apply list_fmap_ext. intros i k _. rewrite filter_cons.
      by destruct (decide (key r = k)). }
    rewrite sum_list_plus, sum_list_indicator by done.
    rewrite decide_True by apply Hkeys, list_elem_of_here.
    rewrite IH; [done|]. intros x Hx. by apply Hkeys, list_elem_of_further.
Qed.

Lemma group_counts_total (rows : list UserWord.t) :
  sum_list ((λ s, s.2) <$> group_counts rows) = length rows.
Proof.
  unfold group_counts. rewrite <- list_fmap_compose.
  apply (counts_sum (λ x, (UserWord.level x, UserWord.category x)));
    [apply NoDup_elements|].
  intros x Hx. apply elem_of_elements, elem_of_list_to_set, list_elem_of_fmap.
  by exists x.
Qed.

(** X17: the statistics count every word of the user once.  The total of
    the message is the number of rows the user owns; there is one count per
    level and category the user has a row in, it is the number of those
    rows and never 0; a user without rows gets the no-words notice instead,
    an unknown chat the user-not-found notice.  Nothing is written. *)
Theorem statistics_count_rows chat_id b :
  Bot.world (show_statistics chat_id b) = Bot.world b
  ∧ Bot.words (show_statistics chat_id b) = Bot.words b
  ∧ (user_of chat_id (db (Bot.world b)) = None →
     Bot.notices (show_statistics chat_id b)
     = Bot.notices b ++ [(chat_id, UserNotFound)])
  ∧ (∀ user,
       user_of chat_id (db (Bot.world b)) = Some user →
       let mine :=
         filter (λ x, UserWord.user_id x = User.id user)
                (user_words (db (Bot.world b))) in
       (mine = [] →
        Bot.notices (show_statistics chat_id b)
        = Bot.notices b ++ [(chat_id, NoWordsInBase)])
       ∧ (mine ≠ [] →
          ∃ counts,
            Bot.notices (show_statistics chat_id b)
            = Bot.notices b ++ [(chat_id, Statistics (length mine) counts)]
            ∧ NoDup ((λ s, (s.1.1, s.1.2)) <$> counts)
            ∧ sum_list ((λ s, s.2) <$> counts) = length mine
            ∧ ∀ level category n,
                (level, category, n) ∈ counts ↔
                  n = length (filter (λ x, UserWord.level x = level
                                           ∧ UserWord.category x = category) mine)
                  ∧ n ≠ 0%nat)).
Proof.
  unfold show_statistics.
  destruct (user_of chat_id (db (Bot.world b))) as [user|]; [|by split_and!].
  set (mine := filter _ (user_words (db (Bot.world b)))).
  pose proof (group_counts_total mine) as Htotal.
  assert (∀ level category n,
            (level, category, n) ∈ group_counts mine ↔
              n = length (filter (λ x, UserWord.level x = level
                                       ∧ UserWord.category x = category) mine)
              ∧ n ≠ 0%nat) as Hcounts.
  { intros level category n. unfold group_counts.
    rewrite list_elem_of_fmap.
    assert (∀ k : Z * string,
              filter (λ x, (UserWord.level x, UserWord.category x) = k) mine
              = filter (λ x, UserWord.level x = k.1
                             ∧ UserWord.category x = k.2) mine) as Hfilter.
    { intros [l c]. apply list_filter_iff. intros x. simpl.
      split; [by intros [= -> ->]|by intros [-> ->]]. }
    split.
    - intros ([l c] & [= -> -> ->] & Hk).
      rewrite Hfilter. simpl. split; [done|].
      apply elem_of_elements, elem_of_list_to_set, list_elem_of_fmap in Hk
        as (x & [= -> ->] & Hx).
      assert (x ∈ filter (λ y, UserWord.level y = UserWord.level x
                               ∧ UserWord.category y = UserWord.category x) mine)
        as Hin by (by apply list_elem_of_filter).
      destruct (filter _ mine); [by apply elem_of_nil in Hin|done].
    - intros [-> Hn]. exists (level, category). rewrite Hfilter. simpl.
      split; [done|].
      destruct (filter (λ x, UserWord.level x = level
                             ∧ UserWord.category x = category) mine)
        as [|x l] eqn:Hf; [done|].
      assert (x ∈ x :: l) as Hx by apply list_elem_of_here.
      rewrite <- Hf in Hx. apply list_elem_of_filter in Hx as [[<- <-] Hx].
      apply elem_of_elements, elem_of_list_to_set, list_elem_of_fmap.
      by exists x. }
  assert (NoDup ((λ s, (s.1.1, s.1.2)) <$> group_counts mine)) as Hnodup.
  { unfold group_counts. rewrite <- list_fmap_compose.
    rewrite (list_fmap_ext _ id) by (by intros i [l c] _).
    rewrite list_fmap_id. apply NoDup_elements. }
  split; [by destruct (group_counts mine)|].
  split; [by destruct (group_counts mine)|].
  split; [done|]. intros ? [= <-]. cbv zeta. fold mine. split.
  - intros Hnil. by rewrite Hnil.
  - intros Hne. exists (group_counts mine).
    destruct (group_counts mine) as [|s counts] eqn:Hgroup.
    + simpl in Htotal. by destruct mine.
    + rewrite Htotal. by split_and!.
Qed.

Lemma statistics_count_rows_witness :
  Bot.notices (show_statistics 1 numbers_bot)
  = [(1, Statistics 3 [(1, "числа", 3%nat)])].
Proof.
  destruct (statistics_count_rows 1 numbers_bot) as (_ & _ & _ & Hknown).
  destruct (Hknown (User.mk 1 1)) as [_ Hsome]; [reflexivity|].
  destruct Hsome as (counts & Hnotices & _); [discriminate|].
  by vm_compute.
Defined.


(** * Further properties: seeding and the menus *)

(** ** Seeding the catalogue *)

Lemma standard_row_key user_id x y :
  standard_row user_id x = standard_row user_id y ↔ standard_key x = standard_key y.
Proof.
  unfold standard_row, standard_key.
  split; intros [= Hword Htranslation Hcategory Hlevel]; congruence.
Qed.

Lemma rows_of_copies user_id word words :
  rows_of user_id word (standard_row user_id <$> words) = copies word words.
Proof.
  unfold rows_of, copies. induction words as [|x words IH]; [done|].
  rewrite fmap_cons, !filter_cons.
  destruct (decide (standard_row user_id x = standard_row user_id word))
    as [Heq|Hne].
  - rewrite decide_True by (by apply (standard_row_key user_id)).
    simpl. by rewrite IH.
  - rewrite decide_False; [done|].
    intros Heq. by apply Hne, standard_row_key.
Qed.

Lemma rows_of_app user_id word rows1 rows2 :
  rows_of user_id word (rows1 ++ rows2)
  = (rows_of user_id word rows1 + rows_of user_id word rows2)%nat.
Proof. unfold rows_of. by rewrite filter_app, length_app. Qed.

Lemma rows_of_others user_id word rows :
  (∀ x, x ∈ rows → UserWord.user_id x ≠ user_id) →
  rows_of user_id word rows = 0%nat.
Proof.
  intros Hothers. unfold rows_of. rewrite filter_none; [done|].
  intros x Hx ->. by apply (Hothers _ Hx).
Qed.

(** No two of the default words are copied to the same row. *)
Lemma default_words_once :
  Forall (λ word, copies word default_words = 1%nat) default_words.
Proof. apply (bool_decide_unpack _). vm_compute. exact I. Qed.

Lemma copies_seeded word words :
  word ∈ default_words →
  copies word (words ++ default_words) = S (copies word words).
Proof.
  intros Hword. unfold copies. rewrite filter_app, length_app.
  pose proof default_words_once as Honce.
  rewrite Forall_forall in Honce. specialize (Honce word Hword).
  unfold copies in Honce. rewrite Honce. lia.
Qed.

(** X18: the seeding script adds every default word again each time it is
    run, and a chat registered afterwards is given one row for every copy:
    if the catalogue held n rows that are copied like a default word, it
    holds n+1 after the seeding, and a new user then owns n+1 equal rows for
    it.  A registered user gets no further copy: after yet another seeding
    the update button writes nothing.  The seeding writes no other table. *)
Theorem seeding_repeats chat_id new_id word b :
  let d := db (Bot.world b) in
  word ∈ default_words →
  user_of chat_id d = None →
  new_id ∉ User.id <$> users d →
  new_id ∉ UserState.user_id <$> user_states d →
  (∀ x, x ∈ user_words d → UserWord.user_id x ≠ new_id) →
  let seeded := populate_default_words b in
  Bot.world seeded = Bot.world b
  ∧ copies word (Bot.words seeded) = S (copies word (Bot.words b))
  ∧ ∃ b1,
      start chat_id new_id seeded = Returned b1
      ∧ rows_of new_id word (user_words (db (Bot.world b1)))
        = S (copies word (Bot.words b))
      ∧ db (Bot.world (update_words chat_id (populate_default_words b1)))
        = db (Bot.world b1).
Proof.
  intros d Hword Huser Hid Hstate Hrows seeded.
  split; [done|]. split; [by apply copies_seeded|].
  destruct (start_new chat_id new_id seeded Huser Hid Hstate Hrows)
    as (b1 & Hstart & Hdb & _ & _ & Hwords & Hknown & _).
  exists b1. split; [done|]. split.
  - rewrite Hdb. cbn [user_words]. rewrite rows_of_app, rows_of_copies.
    rewrite (rows_of_others _ _ _ Hrows). by apply copies_seeded.
  - unfold update_words. cbn [populate_default_words Bot.world Bot.words].
    rewrite Hknown. cbn [User.id].
    assert (new_id ∈ User.id <$> users (db (Bot.world b1))) as Hin.
    { rewrite Hdb. cbn [users]. rewrite fmap_app. apply elem_of_app. right.
      apply list_elem_of_here. }
    cbn [Bot.with_db Bot.notify Bot.world].
    rewrite (load_known _ _ _ Hin), filter_none.
    + rewrite app_nil_r. by destruct (db (Bot.world b1)).
    + intros x Hx Hnone.
      assert (∃ y, y ∈ Bot.words seeded ∧ standard_key y = standard_key x)
        as (y & Hy & Hkey).
      { rewrite Hwords in Hx. apply elem_of_app in Hx as [Hx|Hx];
          [by exists x|].
        exists x. split; [|done]. apply elem_of_app. by right. }
      apply (first_None _ _ Hnone (standard_row new_id y)).
      * rewrite Hdb. cbn [user_words]. apply elem_of_app. right.
        apply list_elem_of_fmap. by exists y.
      * apply standard_row_key with (user_id := new_id) in Hkey.
        rewrite Hkey. apply standard_row_filter.
Qed.

Lemma seeding_repeats_witness :
  rows_of 2 (Word.mk "one" "один" "числа" 1)
          (user_words
             (db (Bot.world
                    (bot_of (start 2 2 (populate_default_words numbers_bot))))))
  = 2%nat.
Proof.
  destruct (seeding_repeats 2 2 (Word.mk "one" "один" "числа" 1) numbers_bot)
    as (_ & _ & b1 & Hstart & Hrows & _).
  - apply list_elem_of_here.
  - reflexivity.
  - intros Hin. apply list_elem_of_In in Hin. simpl in Hin.
    destruct Hin as [Hin|[]]. discriminate Hin.
  - intros Hin. apply list_elem_of_In in Hin. simpl in Hin.
    destruct Hin as [Hin|[]]. discriminate Hin.
  - intros x Hx Hid. apply list_elem_of_In in Hx. simpl in Hx.
    destruct Hx as [<-|[<-|[<-|[]]]]; discriminate Hid.
  - rewrite Hstart. cbn [bot_of]. rewrite Hrows. reflexivity.
Defined.


(** ** The level menu *)

Lemma strictly_sorted (l : list Z) :
  StronglySorted Z.le l → NoDup l → StronglySorted Z.lt l.
Proof.
  induction 1 as [|x l Hsorted IH Hle]; intros Hnodup; [constructor|].
  apply NoDup_cons in Hnodup as [Hx Hnodup].
  constructor; [by apply IH|].
  apply Forall_forall. intros y Hy.
  rewrite Forall_forall in Hle. specialize (Hle y Hy).
  assert (x ≠ y) by (by intros ->). lia.
Qed.

Lemma levels_of_menu b :
  (get_levels_and_categories b).*1
  = merge_sort Z.le (elements (list_to_set (Word.level <$> Bot.words b) : gset Z)).
Proof.
  unfold get_levels_and_categories. rewrite <- list_fmap_compose.
  rewrite (list_fmap_ext _ id) by done. apply list_fmap_id.
Qed.

Lemma parity_padded (n : nat) :
  ((n + (if decide (n mod 2 ≠ 0)%nat then 1 else 0) + 3) mod 2 = 1)%nat.
Proof.
  pose proof (Nat.mod_upper_bound n 2) as Hlt.
  pose proof (Nat.div_mod_eq n 2) as Hdiv.
  destruct (decide (n mod 2 ≠ 0)%nat) as [Hodd|Heven].
  - replace (n + 1 + 3)%nat with (1 + (n / 2 + 2) * 2)%nat by lia.
    by rewrite Nat.Div0.mod_add.
  - replace (n + 0 + 3)%nat with (1 + (n / 2 + 1) * 2)%nat by lia.
    by rewrite Nat.Div0.mod_add.
Qed.

(** X19: the level menu.  Its keyboard has one button for every level that
    a row of the catalogue has, in strictly increasing order, then an empty
    button when the number of these levels is odd, then the buttons of the
    help, the update and the statistics: the number of buttons is always
    odd.  The categories listed under a level are those of the catalogue
    rows at that level, each once; the words of the users play no part. *)
Theorem main_menu_keyboard b :
  let levels := (get_levels_and_categories b).*1 in
  StronglySorted Z.lt levels
  ∧ (∀ level, level ∈ levels ↔ ∃ x, x ∈ Bot.words b ∧ Word.level x = level)
  ∧ (∀ level categories,
       (level, categories) ∈ get_levels_and_categories b →
       NoDup categories
       ∧ ∀ category,
           category ∈ categories ↔
             ∃ x, x ∈ Bot.words b ∧ Word.level x = level
                  ∧ Word.category x = category)
  ∧ go_to_main_menu_buttons b
    = (LevelButton <$> levels)
      ++ (if decide (length levels mod 2 ≠ 0)%nat then [EmptyButton] else [])
      ++ [HelpButton; UpdateButton; StatisticsButton]
  ∧ (length (go_to_main_menu_buttons b) mod 2 = 1)%nat.
Proof.
  intros levels.
  assert (levels ≡ₚ elements (list_to_set (Word.level <$> Bot.words b) : gset Z))
    as Hperm.
  { unfold levels. rewrite levels_of_menu. apply merge_sort_Permutation. }
  assert (go_to_main_menu_buttons b
          = (LevelButton <$> levels)
            ++ (if decide (length levels mod 2 ≠ 0)%nat then [EmptyButton] else [])
            ++ [HelpButton; UpdateButton; StatisticsButton]) as Hbuttons.
  { unfold go_to_main_menu_buttons, levels.
    rewrite <- list_fmap_compose, !length_fmap.
    destruct (decide (_ ≠ 0)%nat); [by rewrite <- app_assoc|done]. }
  split_and!.
  - apply strictly_sorted.
    + unfold levels. rewrite levels_of_menu.
      apply (StronglySorted_merge_sort Z.le).
    + rewrite Hperm. apply NoDup_elements.
  - intros level.
    rewrite Hperm, elem_of_elements, elem_of_list_to_set, list_elem_of_fmap.
    split; intros (x & Hlevel & Hx); by exists x.
  - intros level categories Hentry.
    unfold get_levels_and_categories in Hentry.
    apply list_elem_of_fmap in Hentry as (level' & [= -> ->] & _).
    split; [apply NoDup_elements|]. intros category.
    rewrite elem_of_elements, elem_of_list_to_set, list_elem_of_fmap.
    split.
    + intros (x & -> & Hx). apply list_elem_of_filter in Hx as [Hlevel Hx].
      by exists x.
    + intros (x & Hx & Hlevel & <-). exists x. split; [done|].
      by apply list_elem_of_filter.
  - exact Hbuttons.
  - rewrite Hbuttons, !length_app, length_fmap. cbn [length].
    pose proof (parity_padded (length levels)) as Hparity.
    destruct (decide (length levels mod 2 ≠ 0)%nat); cbn [length];
      by rewrite Nat.add_assoc.
Qed.

(** ** The category menu again *)

Lemma select_level_notices chat_id level b user :
  user_of chat_id (db (Bot.world b)) = Some user →
  Bot.notices (select_level chat_id level b)
  = Bot.notices b
    ++ [(chat_id, LevelLoaded level);
        (chat_id, match get_categories_for_level level b with
                  | [] => NoCategoriesAtLevel
                  | categories => CategoryMenu categories
                  end)].
Proof.
  intros Huser. unfold select_level. rewrite Huser.
  set (b1 := Bot.notify chat_id (LevelLoaded level) _).
  change (get_categories_for_level level b1)
    with (get_categories_for_level level b).
  destruct (get_categories_for_level level b); simpl; by rewrite <- app_assoc.
Qed.

(** X20: the button that leads back to the categories shows what the choice
    of the level showed.  After a level other than 0 was chosen, the button
    sends the categories of that level again and writes nothing; this is
    the list the choice of the level had sent, unless that list is empty:
    then the choice had reported that the level has no categories, and the
    button sends a keyboard without categories.  After the level 0 was
    chosen the button shows the level menu instead.  For an unknown chat the
    button fails. *)
Theorem category_menu_again chat_id level b user :
  user_of chat_id (db (Bot.world b)) = Some user →
  let b1 := select_level chat_id level b in
  let categories := get_categories_for_level level b in
  Bot.notices b1
  = Bot.notices b
    ++ [(chat_id, LevelLoaded level);
        (chat_id, match categories with
                  | [] => NoCategoriesAtLevel
                  | shown => CategoryMenu shown
                  end)]
  ∧ select_category_menu chat_id b1
    = Returned (Bot.notify chat_id
                  (if decide (level = 0) then LevelMenu
                   else CategoryMenuAgain categories) b1)
  ∧ ∀ b0, user_of chat_id (db (Bot.world b0)) = None →
          select_category_menu chat_id b0 = Failed b0.
Proof.
  intros Huser b1 categories.
  destruct (select_level_db chat_id level b user Huser)
    as (Hdb & Hwords & _ & _).
  fold b1 in Hdb, Hwords.
  split.
  { unfold b1, categories. rewrite (select_level_notices _ _ _ _ Huser).
    by destruct (get_categories_for_level level b). }
  split.
  - assert (get_categories_for_level level b1 = categories) as Hsame.
    { unfold categories, get_categories_for_level. by rewrite Hdb, Hwords. }
    unfold select_category_menu. rewrite Hdb.
    assert (user_of chat_id
              (mkDB (users (db (Bot.world b)))
                    (set_level user level (user_states (db (Bot.world b))))
                    (user_words (db (Bot.world b))))
            = Some user) as -> by exact Huser.
    unfold state_of. cbn [user_states]. rewrite state_of_set_level.
    destruct (first _ (user_states (db (Bot.world b))));
      cbn [UserState.level]; destruct (decide (level = 0)); try done;
      cbv zeta; by rewrite Hsame.
  - intros b0 Hnone. unfold select_category_menu. by rewrite Hnone.
Qed.

Lemma category_menu_again_witness :
  Bot.notices (bot_of (select_category_menu 1 (select_level 1 2 numbers_bot)))
  = [(1, LevelLoaded 2); (1, CategoryMenu ["местоимения"]);
     (1, CategoryMenuAgain ["местоимения"])].
Proof.
  destruct (category_menu_again 1 2 numbers_bot (User.mk 1 1))
    as (Hnotices & Hmenu & _); [reflexivity|].
  rewrite Hmenu. cbn [bot_of Bot.notify Bot.notices]. rewrite Hnotices.
  reflexivity.
Defined.


(** * The bot as a whole *)

(** ** The columns *)

Lemma take_drop_fits n s :
  (chars s ≤ n)%nat → take_chars n s = s ∧ drop_chars n s = "".
Proof.
  revert n. induction s as [|c s IH]; intros n Hfits; [done|].
  simpl in *. destruct (is_continuation c).
  - destruct (IH n) as [-> ->]; [lia|done].
  - destruct n as [|n]; [lia|].
    destruct (IH n) as [-> ->]; [lia|done].
Qed.

(** A value of at most [n] characters is kept as it is. *)
Lemma varchar_fits n s : (chars s ≤ n)%nat → varchar n s = Some s.
Proof.
  intros Hfits. unfold varchar.
  by destruct (take_drop_fits n s Hfits) as [-> ->].
Qed.

(** ** [handle_text] and the insert *)

Lemma insert_of_None chat_id text w :
  insert_of chat_id text w = None →
  handle_text_checked chat_id text w = handle_text chat_id text w.
Proof. intros Hnone. unfold handle_text_checked. by rewrite Hnone. Qed.

(** The insert is reached in a session that awaits a translation, and only
    there. *)
Lemma insert_of_action chat_id text w i :
  insert_of chat_id text w = Some i →
  Temp.action (temp_of chat_id w) = Some add_translation_action.
Proof.
  unfold insert_of.
  destruct (user_of chat_id (db w)); [|done].
  destruct (state_of _ (db w)); [|done].
  destruct (process_menu_navigation text); [done|].
  by destruct (Temp.action (temp_of chat_id w)) as [[]|].
Qed.

Lemma insert_of_missing chat_id text w :
  add_data_missing (temp_of chat_id w) → insert_of chat_id text w = None.
Proof.
  intros Hmissing. unfold insert_of.
  destruct (user_of chat_id (db w)); [|done].
  destruct (state_of _ (db w)); [|done].
  destruct (process_menu_navigation text); [done|].
  destruct (Temp.action (temp_of chat_id w)) as [[]|]; try done.
  destruct (Temp.russian (temp_of chat_id w)) as [russian|] eqn:Hr; [|done].
  destruct (Temp.category (temp_of chat_id w)) as [category|] eqn:Hc; [|done].
  destruct (Temp.level (temp_of chat_id w)) as [level|] eqn:Hl; [|done].
  assert (falsy_str russian || falsy_str category || bool_decide (level = 0) = true)
    as ->; [|done].
  unfold falsy_str.
  destruct Hmissing as [H|[H|H]].
  - by rewrite (H _ Hr).
  - rewrite (H _ Hc). simpl. by rewrite orb_true_r.
  - apply orb_true_iff. right. apply bool_decide_eq_true. by apply H.
Qed.

(** The insert of a session that awaits a translation with complete data. *)
Lemma insert_of_staged chat_id text user state russian category level w :
  user_of chat_id (db w) = Some user →
  state_of user (db w) = Some state →
  process_menu_navigation text = None →
  Temp.action (temp_of chat_id w) = Some add_translation_action →
  Temp.russian (temp_of chat_id w) = Some russian → russian ≠ "" →
  Temp.category (temp_of chat_id w) = Some category → category ≠ "" →
  Temp.level (temp_of chat_id w) = Some level → level ≠ 0 →
  insert_of chat_id text w
  = match first (add_filter user (lower text) russian category level)
                (user_words (db w)) with
    | Some _ => None
    | None => Some (user, state, russian, category, level)
    end.
Proof.
  intros Huser Hstate Hnav Haction Hr Hrne Hc Hcne Hl Hlne. unfold insert_of.
  rewrite Huser, Hstate, Hnav, Haction, Hr, Hc, Hl. unfold falsy_str.
  by rewrite !bool_decide_false by done.
Qed.

(** When the columns keep both values as they are, the row is the one
    [handle_text] adds. *)
Lemma handle_text_checked_fits chat_id text w :
  (∀ user state russian category level,
     insert_of chat_id text w = Some (user, state, russian, category, level) →
     (chars (lower (lower text)) ≤ 255)%nat ∧ (chars (lower russian) ≤ 255)%nat) →
  handle_text_checked chat_id text w = handle_text chat_id text w.
Proof.
  intros Hfits. unfold handle_text_checked.
  destruct (insert_of chat_id text w) as [[[[[user state] russian] category] level]|]
    eqn:Hinsert; [|done].
  destruct (Hfits _ _ _ _ _ eq_refl) as [Hword Htranslation].
  rewrite (varchar_fits _ _ Hword), (varchar_fits _ _ Htranslation).
  revert Hinsert. unfold insert_of, handle_text.
  destruct (user_of chat_id (db w)) as [user'|]; [|done].
  destruct (state_of user' (db w)) as [state'|]; [|done].
  destruct (process_menu_navigation text); [done|].
  unfold process_word_actions.
  destruct (Temp.action (temp_of chat_id w)) as [[]|]; try done.
  destruct (Temp.russian (temp_of chat_id w)) as [russian'|]; [|done].
  destruct (Temp.category (temp_of chat_id w)) as [category'|]; [|done].
  destruct (Temp.level (temp_of chat_id w)) as [level'|]; [|done].
  destruct (falsy_str russian' || falsy_str category' || bool_decide (level' = 0));
    [done|].
  change (user_words (db (update_in_place chat_id
                            (Temp.pop_russian (temp_of chat_id w)) w)))
    with (user_words (db w)).
  destruct (first _ (user_words (db w))); [done|].
  by intros [= -> -> -> -> ->].
Qed.

(** [handle_text] with its commit writes no user and no state. *)
Lemma handle_text_checked_tables chat_id text w :
  let w' := world_of (handle_text_checked chat_id text w) in
  users (db w') = users (db w) ∧ user_states (db w') = user_states (db w).
Proof.
  unfold handle_text_checked.
  destruct (insert_of chat_id text w) as [[[[[user state] russian] category] level]|].
  - destruct (varchar 255 _); [|done].
    destruct (varchar 255 _); [|done].
    cbv zeta. by rewrite card_then_clear_db.
  - unfold handle_text.
    destruct (user_of chat_id (db w)) as [user|]; [|done].
    destruct (state_of user (db w)) as [state|]; [|done].
    destruct (process_menu_navigation text); [done|].
    by destruct (process_word_actions_tables chat_id text user state w)
      as (Husers & Hstates & _).
Qed.


(** ** Which handler takes a text *)

(** The choice depends on the tables and the catalogue only. *)
Lemma route_same is_start chat_id text b b' :
  db (Bot.world b') = db (Bot.world b) →
  Bot.words b' = Bot.words b →
  route is_start chat_id text b' = route is_start chat_id text b.
Proof.
  intros Hdb Hwords. unfold route, is_valid_category. by rewrite Hdb, Hwords.
Qed.

Lemma route_SelectCategory is_start chat_id text b :
  route is_start chat_id text b = Some SelectCategory →
  is_valid_category chat_id text b = Some true.
Proof.
  unfold route. destruct (is_start text); [done|].
  repeat (destruct (decide _); [done|]).
  destruct (String.prefix _ _); [done|].
  destruct (is_valid_category chat_id text b) as [[]|]; try done.
  by repeat (destruct (decide _); [done|]).
Qed.

(** ** No category without a level *)

Lemma levelled_same d d' :
  user_states d' = user_states d → levelled d → levelled d'.
Proof. unfold levelled. by intros ->. Qed.

Lemma levelled_set_level user level d :
  levelled d →
  levelled (mkDB (users d) (set_level user level (user_states d)) (user_words d)).
Proof.
  unfold levelled, set_level. simpl. intros Hd.
  destruct (list_find _ (user_states d)) as [[i state]|].
  - by apply Forall_insert.
  - apply Forall_app. split; [done|]. by constructor.
Qed.

Lemma levelled_set_category user category state d :
  state_of user d = Some state → is_Some (UserState.level state) →
  levelled d →
  levelled (mkDB (users d) (set_category user category (user_states d))
                 (user_words d)).
Proof.
  unfold levelled, set_category, state_of, first. simpl. intros Hstate Hlevel Hd.
  destruct (list_find _ (user_states d)) as [[i state']|]; [|done].
  injection Hstate as ->. apply Forall_insert; [done|].
  simpl. intros Hnone. rewrite Hnone in Hlevel. by destruct Hlevel.
Qed.

Lemma start_states chat_id new_id b :
  let states := user_states (db (Bot.world b)) in
  let states' := user_states (db (Bot.world (bot_of (start chat_id new_id b)))) in
  states' = states ∨ states' = states ++ [UserState.mk new_id None None].
Proof.
  unfold start.
  destruct (user_of chat_id (db (Bot.world b))); simpl.
  - destruct (randbelow 4 _). by left.
  - destruct (decide (new_id ∈ _)); [by left|]. simpl.
    destruct (decide (new_id ∈ _)); [by left|]. simpl.
    destruct (randbelow 4 _). right. simpl.
    by destruct (load_frame new_id (Bot.words b)
                   (mkDB (users (db (Bot.world b)) ++ [User.mk new_id chat_id])
                         (user_states (db (Bot.world b))
                          ++ [UserState.mk new_id None None])
                         (user_words (db (Bot.world b)))))
      as (_ & -> & _).
Qed.

Lemma levelled_start chat_id new_id b :
  levelled (db (Bot.world b)) →
  levelled (db (Bot.world (bot_of (start chat_id new_id b)))).
Proof.
  intros Hd. unfold levelled.
  destruct (start_states chat_id new_id b) as [-> | ->]; [done|].
  apply Forall_app. split; [done|]. by constructor.
Qed.

Lemma levelled_update_words chat_id b :
  levelled (db (Bot.world b)) → levelled (db (Bot.world (update_words chat_id b))).
Proof.
  unfold update_words. destruct (user_of chat_id _) as [user|]; [|done].
  apply levelled_same. simpl.
  by destruct (load_frame (User.id user) (Bot.words b) (db (Bot.world b)))
    as (_ & -> & _).
Qed.

Lemma show_statistics_world chat_id b :
  Bot.world (show_statistics chat_id b) = Bot.world b.
Proof.
  unfold show_statistics. destruct (user_of chat_id _); [|done].
  by destruct (group_counts _).
Qed.

Lemma levelled_select_level chat_id level b :
  levelled (db (Bot.world b)) →
  levelled (db (Bot.world (select_level chat_id level b))).
Proof.
  intros Hd.
  destruct (user_of chat_id (db (Bot.world b))) as [user|] eqn:Huser.
  - destruct (select_level_db chat_id level b user Huser) as (-> & _).
    by apply levelled_set_level.
  - unfold select_level. by rewrite Huser.
Qed.

Lemma lift_world o b : Bot.world (bot_of (lift o b)) = world_of o.
Proof. by destruct o. Qed.

Lemma select_category_states chat_id text b user :
  user_of chat_id (db (Bot.world b)) = Some user →
  let states := user_states (db (Bot.world b)) in
  let states' :=
    user_states (db (Bot.world (bot_of (select_category chat_id text b)))) in
  states' = states ∨ states' = set_category user (lower (strip text)) states.
Proof.
  intros Huser. unfold select_category. rewrite Huser.
  destruct (state_of user (db (Bot.world b))); [|by left].
  destruct (get_all_words _ _ _) as [[|x words]|]; [by right| |by right].
  right. cbv zeta. by rewrite lift_world, create_card_db.
Qed.

Lemma levelled_select_category chat_id text b :
  is_valid_category chat_id text b = Some true →
  levelled (db (Bot.world b)) →
  levelled (db (Bot.world (bot_of (select_category chat_id text b)))).
Proof.
  intros Hvalid Hd.
  apply is_valid_category_true in Hvalid
    as (user & state & level & Huser & Hstate & Hlevel & _).
  destruct (select_category_states chat_id text b user Huser) as [Heq|Heq].
  - by apply (levelled_same (db (Bot.world b))).
  - unfold levelled. rewrite Heq.
    apply (levelled_set_category user (lower (strip text)) state
             (db (Bot.world b))); [done| |done].
    by rewrite Hlevel.
Qed.

Lemma next_card_db chat_id w : db (world_of (next_card chat_id w)) = db w.
Proof.
  unfold next_card.
  destruct (user_of chat_id (db w)); [|done].
  destruct (state_of _ (db w)) as [state|]; [|done].
  destruct (UserState.category state) as [category|]; [|done].
  destruct (decide (category = "")); [done|].
  destruct (get_all_words _ _ _); [|done].
  apply create_card_db.
Qed.

Lemma add_word_db chat_id w : db (world_of (add_word chat_id w)) = db w.
Proof.
  unfold add_word.
  destruct (user_of chat_id (db w)); [|done].
  destruct (state_of _ (db w)) as [state|]; [|done].
  destruct (UserState.category state) as [category|]; [|done].
  by destruct (decide (category = "")).
Qed.

Lemma delete_word_db chat_id w : db (world_of (delete_word chat_id w)) = db w.
Proof.
  unfold delete_word.
  destruct (user_of chat_id (db w)); [|done].
  destruct (state_of _ (db w)) as [state|]; [|done].
  destruct (UserState.category state) as [category|]; [|done].
  by destruct (decide (category = "")).
Qed.

Lemma levelled_apply_update is_start int_of_last b u :
  levelled (db (Bot.world b)) →
  levelled (db (Bot.world (apply_update is_start int_of_last b u))).
Proof.
  intros Hd. destruct u as [chat_id text new_id| |]; [|done|done].
  unfold apply_update, dispatch.
  destruct (route is_start chat_id text b) as [[]|] eqn:Hroute; try done.
  - by apply levelled_start.
  - by apply levelled_update_words.
  - cbn [bot_of]. by rewrite show_statistics_world.
  - destruct (int_of_last text) as [level|]; [|done].
    unfold select_level_checked.
    destruct (user_of chat_id _);
      [destruct (decide (fits_integer level)); [|done]|];
      by apply levelled_select_level.
  - apply levelled_select_category; [|done].
    by apply (route_SelectCategory is_start).
  - rewrite lift_world. by rewrite next_card_db.
  - rewrite lift_world. by rewrite add_word_db.
  - rewrite lift_world. by rewrite delete_word_db.
  - rewrite lift_world. apply (levelled_same (db (Bot.world b))); [|done].
    by destruct (handle_text_checked_tables chat_id text (Bot.world b)).
Qed.

(** Whatever the bot has received, no state row has a category without a
    level. *)
Lemma levelled_run is_start int_of_last updates b :
  levelled (db (Bot.world b)) →
  levelled (db (Bot.world (bot_run is_start int_of_last updates b))).
Proof.
  revert b. induction updates as [|u updates IH]; intros b Hd; [done|].
  apply IH. by apply levelled_apply_update.
Qed.

Lemma levelled_level chat_id d :
  levelled d → selected_level chat_id d = None → selected_category chat_id d = None.
Proof.
  unfold levelled, selected_level, selected_category. intros Hd.
  destruct (user_of chat_id d) as [user|]; [|done]. simpl.
  destruct (state_of user d) as [state|] eqn:Hstate; [|done]. simpl.
  intros Hlevel. apply first_Some in Hstate as [Hstate _].
  rewrite Forall_forall in Hd. by rewrite (Hd state Hstate Hlevel).
Qed.

(** C8: a request to add or to delete a word is refused without any change
    of the world (no pending action, no staged category or level, the same
    session) when the category selection is absent: no state row, a NULL or
    an empty category.  So it is when the level selection is absent: in
    every state the bot reaches from tables without users, whatever the
    catalogue and whatever it has received (texts of any chat, runs of the
    seeding script, restarts), a state row without level has no category
    either.  For a
    chat with a user the handlers return; the level 0, which a user can
    choose, counts as chosen. *)
Theorem stage_needs_selection is_start int_of_last chat_id updates words tape :
  let w := Bot.world (bot_run is_start int_of_last updates (initial words tape)) in
  selected_category chat_id (db w) = None ∨ selected_level chat_id (db w) = None →
  world_of (add_word chat_id w) = w
  ∧ world_of (delete_word chat_id w) = w
  ∧ (is_Some (user_of chat_id (db w)) →
     add_word chat_id w = Done w ∧ delete_word chat_id w = Done w).
Proof.
  intros w Habsent.
  assert (selected_category chat_id (db w) = None) as Hcategory.
  { destruct Habsent as [Hcategory|Hlevel]; [done|].
    apply levelled_level; [|done].
    apply levelled_run. by constructor. }
  destruct (stage_cases chat_id w) as [Hrefused _].
  destruct (Hrefused Hcategory) as [Hadd Hdelete].
  split; [done|]. split; [done|].
  intros [user Huser].
  destruct (add_word chat_id w) as [w1|w1] eqn:Ha;
    destruct (delete_word chat_id w) as [w2|w2] eqn:Hd;
    simpl in Hadd, Hdelete; subst; try done.
  - unfold delete_word in Hd. rewrite Huser in Hd.
    destruct (state_of user (db w)) as [state|]; [|done].
    destruct (UserState.category state) as [category|]; [|done].
    by destruct (decide (category = "")).
  - unfold add_word in Ha. rewrite Huser in Ha.
    destruct (state_of user (db w)) as [state|]; [|done].
    destruct (UserState.category state) as [category|]; [|done].
    by destruct (decide (category = "")).
  - unfold add_word in Ha. rewrite Huser in Ha.
    destruct (state_of user (db w)) as [state|]; [|done].
    destruct (UserState.category state) as [category|]; [|done].
    by destruct (decide (category = "")).
Qed.


Lemma stage_needs_selection_witness :
  let w :=
    Bot.world (bot_run start_text level_text [seeding; message 1 "/start" 1]
                       (initial [] [])) in
  selected_level 1 (db w) = None
  ∧ add_word 1 w = Done w ∧ delete_word 1 w = Done w.
Proof.
  destruct (stage_needs_selection start_text level_text 1
              [seeding; message 1 "/start" 1] [] [])
    as (_ & _ & Hdone).
  - right. reflexivity.
  - split; [reflexivity|]. apply Hdone. by eexists.
Defined.

(** A level that was chosen is not absent, the level 0 included: after the
    category of the numbers was chosen at level 1 and then the level 0, the
    request to add a word is staged, with the level 0. *)
Example level_zero_is_a_level :
  let w :=
    Bot.world
      (bot_run start_text level_text
               [seeding; message 1 "/start" 1; message 1 "Уровень 1" 1;
                message 1 "числа" 1; message 1 "Уровень 0" 1]
               (initial [] [])) in
  selected_level 1 (db w) = Some 0
  ∧ selected_category 1 (db w) = Some "числа"
  ∧ Temp.action (temp_of 1 (world_of (add_word 1 w))) = Some add_word_action
  ∧ Temp.level (temp_of 1 (world_of (add_word 1 w))) = Some 0.
Proof. by vm_compute. Qed.

(** ** Choosing a level, with the commit *)

(** X13: choosing a level writes the level into the state row of the user
    (a new row, without category, when the user has none) and nothing else,
    when the column holds the level: the category of the row, the state rows
    of the other users, the users, the words, the catalogue and every
    session are as before, so an open card and a pending action survive the
    change of level; the reply names the level and then offers the
    categories of that level, or says that there are none.  For a level
    outside 32 bits the handler fails at its commit: nothing is written and
    nothing is sent.  An unknown chat gets only the user-not-found notice,
    whatever the level. *)
Theorem select_level_sets_level chat_id level b :
  let d := db (Bot.world b) in
  (user_of chat_id d = None →
     select_level_checked chat_id level b
     = Returned (Bot.notify chat_id UserNotFound b))
  ∧ (∀ user,
       user_of chat_id d = Some user → ¬ fits_integer level →
       select_level_checked chat_id level b = Failed b)
  ∧ (∀ user,
       user_of chat_id d = Some user → fits_integer level →
       ∃ b',
         select_level_checked chat_id level b = Returned b'
         ∧ state_of user (db (Bot.world b'))
           = Some (match state_of user d with
                   | Some state =>
                       UserState.mk (UserState.user_id state) (Some level)
                                    (UserState.category state)
                   | None => UserState.mk (User.id user) (Some level) None
                   end)
         ∧ selected_level chat_id (db (Bot.world b')) = Some level
         ∧ selected_category chat_id (db (Bot.world b'))
           = selected_category chat_id d
         ∧ (∀ other, User.id other ≠ User.id user →
                     state_of other (db (Bot.world b')) = state_of other d)
         ∧ users (db (Bot.world b')) = users d
         ∧ user_words (db (Bot.world b')) = user_words d
         ∧ Bot.words b' = Bot.words b
         ∧ state_storage (Bot.world b') = state_storage (Bot.world b)
         ∧ sent (Bot.world b') = sent (Bot.world b)
         ∧ rng (Bot.world b') = rng (Bot.world b)
         ∧ Bot.notices b'
           = Bot.notices b
             ++ [(chat_id, LevelLoaded level);
                 (chat_id, match get_categories_for_level level b with
                           | [] => NoCategoriesAtLevel
                           | categories => CategoryMenu categories
                           end)]).
Proof.
  intros d. unfold select_level_checked. fold d. split_and!.
  - intros Hnone. rewrite Hnone.
    destruct (select_level_spec chat_id level b) as [Hunknown _].
    by rewrite (Hunknown Hnone).
  - intros user Huser Hlarge. rewrite Huser. by rewrite decide_False.
  - intros user Huser Hfits. rewrite Huser. rewrite decide_True by done.
    exists (select_level chat_id level b). split; [done|].
    destruct (select_level_spec chat_id level b) as [_ Hknown].
    exact (Hknown user Huser).
Qed.

Lemma select_level_sets_level_witness :
  (∃ b',
     select_level_checked 1 2 numbers_bot = Returned b'
     ∧ selected_level 1 (db (Bot.world b')) = Some 2
     ∧ selected_category 1 (db (Bot.world b')) = Some "числа"
     ∧ Bot.notices b' = [(1, LevelLoaded 2); (1, CategoryMenu ["местоимения"])])
  ∧ select_level_checked 1 2147483648 numbers_bot = Failed numbers_bot.
Proof.
  destruct (select_level_sets_level 1 2 numbers_bot) as (_ & _ & Hknown).
  destruct (select_level_sets_level 1 2147483648 numbers_bot)
    as (_ & Hlarge & _).
  split.
  - destruct (Hknown (User.mk 1 1))
      as (b' & Hreturned & _ & Hlevel & Hcategory & _ & _ & _ & _ & _ & _ & _
          & Hnotices); [reflexivity|unfold fits_integer; lia|].
    exists b'. split; [exact Hreturned|]. split; [exact Hlevel|].
    split; [rewrite Hcategory; reflexivity|].
    rewrite Hnotices. reflexivity.
  - apply (Hlarge (User.mk 1 1)); [reflexivity|].
    unfold fits_integer. lia.
Defined.


(** ** The add and the delete dialogue in the bot *)

Lemma lift_words o b : Bot.words (bot_of (lift o b)) = Bot.words b.
Proof. by destruct o. Qed.

Lemma lift_notices o b : Bot.notices (bot_of (lift o b)) = Bot.notices b.
Proof. by destruct o. Qed.

Lemma apply_AddWord is_start int_of_last chat_id text new_id b :
  route is_start chat_id text b = Some AddWord →
  apply_update is_start int_of_last b (message chat_id text new_id)
  = bot_of (lift (add_word chat_id (Bot.world b)) b).
Proof. intros Hroute. unfold apply_update, dispatch. by rewrite Hroute. Qed.

Lemma apply_DeleteWord is_start int_of_last chat_id text new_id b :
  route is_start chat_id text b = Some DeleteWord →
  apply_update is_start int_of_last b (message chat_id text new_id)
  = bot_of (lift (delete_word chat_id (Bot.world b)) b).
Proof. intros Hroute. unfold apply_update, dispatch. by rewrite Hroute. Qed.

Lemma apply_HandleText is_start int_of_last chat_id text new_id b :
  route is_start chat_id text b = Some HandleText →
  apply_update is_start int_of_last b (message chat_id text new_id)
  = bot_of (lift (handle_text_checked chat_id text (Bot.world b)) b).
Proof. intros Hroute. unfold apply_update, dispatch. by rewrite Hroute. Qed.

(** The add button and the Russian word: the two steps before the commit. *)
Lemma add_staged chat_id user state category level russian w :
  ready chat_id user state category level w →
  process_menu_navigation russian = None →
  ∃ w1 w2,
    add_word chat_id w = Done w1
    ∧ db w1 = db w
    ∧ Temp.action (temp_of chat_id w1) = Some add_word_action
    ∧ handle_text chat_id russian w1 = Done w2
    ∧ db w2 = db w
    ∧ sent w2 = sent w ++ [(chat_id, EnterRussian); (chat_id, EnterTranslation)]
    ∧ temp_of chat_id w2
      = Temp.set_russian (lower russian) add_translation_action
          (Temp.set_staged add_word_action (lower category) (Some level)
                           (temp_of chat_id w)).
Proof.
  intros (Huser & Hstate & Hcategory & Hc & Hlevel & Hl) Hnav.
  pose proof (stage_add chat_id user state category w Huser Hstate Hcategory Hc)
    as Hadd.
  set (w1 := staged _ _ _ _ _ w) in Hadd.
  assert (temp_of chat_id w1
          = Temp.set_staged add_word_action (lower category) (Some level)
                            (temp_of chat_id w)) as Htemp1.
  { unfold w1. by rewrite temp_of_staged, Hlevel. }
  pose proof (handle_text_process chat_id russian user state w1 Huser Hstate Hnav)
    as Hhandle.
  unfold process_word_actions in Hhandle. rewrite Htemp1 in Hhandle.
  cbn [Temp.action Temp.set_staged] in Hhandle.
  eexists w1, _. split; [exact Hadd|]. split; [done|].
  split; [by rewrite Htemp1|]. split; [exact Hhandle|].
  split; [done|]. split.
  - simpl. by rewrite <- app_assoc.
  - unfold update_in_place, temp_of at 1, State.get, State.set. simpl.
    by rewrite lookup_insert_eq.
Qed.

Lemma same_filter user english russian category level x :
  add_filter user (lower english) (lower russian) (lower category) level x
  ↔ UserWord.user_id x = User.id user
    ∧ UserWord.word x = lower english
    ∧ UserWord.translation x = lower russian
    ∧ UserWord.category x = lower category
    ∧ UserWord.level x = level.
Proof. unfold add_filter. by rewrite !lower_idempotent. Qed.

(** The add dialogue in the bot. *)
Lemma add_dialogue_bot is_start int_of_last chat_id user state category level
    russian english new_id b :
  let w := Bot.world b in
  ready chat_id user state category level w →
  russian ≠ "" →
  route is_start chat_id Command.ADD_WORD b = Some AddWord →
  route is_start chat_id russian b = Some HandleText →
  route is_start chat_id english b = Some HandleText →
  process_menu_navigation russian = None →
  process_menu_navigation english = None →
  let rows := user_words (db w) in
  let row :=
    UserWord.mk (User.id user) (lower english) (lower russian)
                (lower category) level false in
  let same (x : UserWord.t) :=
    UserWord.user_id x = User.id user
    ∧ UserWord.word x = lower english
    ∧ UserWord.translation x = lower russian
    ∧ UserWord.category x = lower category
    ∧ UserWord.level x = level in
  let b' :=
    bot_run is_start int_of_last
            [message chat_id Command.ADD_WORD new_id;
             message chat_id russian new_id;
             message chat_id english new_id] b in
  let w' := Bot.world b' in
  users (db w') = users (db w)
  ∧ user_states (db w') = user_states (db w)
  ∧ Bot.words b' = Bot.words b
  ∧ Bot.notices b' = Bot.notices b
  ∧ ((∃ x, x ∈ rows ∧ same x) →
     user_words (db w') = rows ∧ state_storage w' !! chat_id = None)
  ∧ ((∀ x, x ∈ rows → ¬ same x) →
     ((chars (lower russian) ≤ 255)%nat → (chars (lower english) ≤ 255)%nat →
      user_words (db w') = rows ++ [row] ∧ state_storage w' !! chat_id = None)
     ∧ (varchar 255 (lower russian) = None ∨ varchar 255 (lower english) = None →
        user_words (db w') = rows
        ∧ sent w'
          = sent w ++ [(chat_id, EnterRussian); (chat_id, EnterTranslation)]
        ∧ Temp.action (temp_of chat_id w') = Some add_translation_action
        ∧ Temp.russian (temp_of chat_id w') = None)).
Proof.
  intros w Hready Hr Hroute0 Hroute1 Hroute2 Hnav1 Hnav2 rows row same b' w'.
  destruct (add_staged chat_id user state category level russian w Hready Hnav1)
    as (w1 & w2 & Hadd & Hdb1 & Haction1 & Hhandle & Hdb2 & Hsent2 & Htemp2).
  destruct (add_dialogue_spec chat_id user state category level russian english w
              Hready Hr Hnav1 Hnav2)
    as (w3 & Hdialogue & Hnone & _ & _ & Hdup & Hnew).
  unfold add_dialogue in Hdialogue. rewrite Hadd in Hdialogue.
  cbn [bind] in Hdialogue. rewrite Hhandle in Hdialogue. cbn [bind] in Hdialogue.
  destruct Hready as (Huser & Hstate & Hcategory & Hc & Hlevel & Hl).
  (* the three steps *)
  assert (b' = bot_of (lift (handle_text_checked chat_id english w2)
                            (Bot.with_world w2 b))) as Hb'.
  { unfold b', bot_run. cbn [fold_left].
    rewrite (apply_AddWord _ _ _ _ _ _ Hroute0). fold w. rewrite Hadd.
    cbn [lift bot_of].
    rewrite (apply_HandleText is_start int_of_last chat_id russian);
      [|by rewrite (route_same is_start chat_id russian b)].
    cbn [Bot.with_world Bot.world].
    rewrite insert_of_None.
    - rewrite Hhandle. cbn [lift bot_of].
      rewrite (apply_HandleText is_start int_of_last chat_id english);
        [done|by rewrite (route_same is_start chat_id english b)].
    - destruct (insert_of chat_id russian w1) as [i|] eqn:Hinsert; [|done].
      apply insert_of_action in Hinsert. by rewrite Haction1 in Hinsert. }
  assert (w' = world_of (handle_text_checked chat_id english w2)) as Hw'.
  { unfold w'. by rewrite Hb', lift_world. }
  assert (insert_of chat_id english w2
          = match first (add_filter user (lower english) (lower russian)
                                    (lower category) level) rows with
            | Some _ => None
            | None => Some (user, state, lower russian, lower category, level)
            end) as Hinsert.
  { unfold rows. rewrite <- Hdb2.
    apply insert_of_staged; rewrite ?Hdb2, ?Htemp2; try done.
    - by apply lower_nonempty.
    - by apply lower_nonempty. }
  destruct (handle_text_checked_tables chat_id english w2) as [Husers Hstates].
  rewrite <- Hw', Hdb2 in Husers, Hstates.
  split; [done|]. split; [done|].
  split; [by rewrite Hb', lift_words|]. split; [by rewrite Hb', lift_notices|].
  split.
  - intros (x & Hx & Hsame).
    destruct (first _ rows) as [y|] eqn:Hfirst.
    + rewrite Hw', (insert_of_None _ _ _ Hinsert), Hdialogue. cbn [world_of].
      split; [|done]. apply Hdup. by exists x.
    + destruct (first_None _ _ Hfirst x Hx). by apply same_filter.
  - intros Hfresh.
    assert (first (add_filter user (lower english) (lower russian)
                              (lower category) level) rows = None) as Hfirst.
    { apply first_None_iff. intros x Hx Hfilter.
      apply (Hfresh x Hx). by apply same_filter. }
    rewrite Hfirst in Hinsert. split.
    + intros Hfits1 Hfits2.
      rewrite Hw', handle_text_checked_fits, Hdialogue.
      * cbn [world_of]. split; [by apply Hnew|done].
      * intros ????? Heq. rewrite Hinsert in Heq. injection Heq as <- <- <- <- <-.
        by rewrite !lower_idempotent.
    + intros Hrefused.
      assert (handle_text_checked chat_id english w2
              = Raised (update_in_place chat_id
                          (Temp.pop_russian (temp_of chat_id w2)) w2)) as Hraised.
      { unfold handle_text_checked. rewrite Hinsert, !lower_idempotent.
        destruct Hrefused as [-> | ->]; [|done].
        by destruct (varchar 255 (lower english)). }
      rewrite Hw', Hraised. cbn [world_of].
      split; [unfold rows; by rewrite <- Hdb2|]. split; [done|].
      unfold update_in_place, temp_of at 1 3, State.get, State.set. simpl.
      rewrite lookup_insert_eq. simpl. by rewrite Htemp2.
Qed.


(** X7: the add dialogue as a whole, for texts that reach their handlers.
    For a user with a category and a level, when the caption of the add
    button is taken by [add_word] and the Russian word and its translation
    by [handle_text] (neither is a command, a caption of another handler, a
    text that begins with "Уровень" or the name of a category of the level),
    the three messages leave the tables of users and states and the
    catalogue untouched.  When the user already owns a row with that
    lowercase word, lowercase translation, lowercase category and level, the
    table of the words is unchanged and the session of the chat erased.
    Otherwise, when both values have at most 255 characters, the table gains
    exactly that row at its end, flagged not custom, and the session is
    erased; when the column refuses one of them, the commit fails: no row is
    written, nothing is sent after the two prompts, and the session still
    awaits a translation, now without its Russian word. *)
Theorem add_dialogue_commits is_start int_of_last chat_id user state category
    level russian english new_id b :
  let w := Bot.world b in
  ready chat_id user state category level w →
  russian ≠ "" →
  route is_start chat_id Command.ADD_WORD b = Some AddWord →
  route is_start chat_id russian b = Some HandleText →
  route is_start chat_id english b = Some HandleText →
  process_menu_navigation russian = None →
  process_menu_navigation english = None →
  let rows := user_words (db w) in
  let row :=
    UserWord.mk (User.id user) (lower english) (lower russian)
                (lower category) level false in
  let same (x : UserWord.t) :=
    UserWord.user_id x = User.id user
    ∧ UserWord.word x = lower english
    ∧ UserWord.translation x = lower russian
    ∧ UserWord.category x = lower category
    ∧ UserWord.level x = level in
  let b' :=
    bot_run is_start int_of_last
            [message chat_id Command.ADD_WORD new_id;
             message chat_id russian new_id;
             message chat_id english new_id] b in
  let w' := Bot.world b' in
  users (db w') = users (db w)
  ∧ user_states (db w') = user_states (db w)
  ∧ Bot.words b' = Bot.words b
  ∧ Bot.notices b' = Bot.notices b
  ∧ ((∃ x, x ∈ rows ∧ same x) →
     user_words (db w') = rows ∧ state_storage w' !! chat_id = None)
  ∧ ((∀ x, x ∈ rows → ¬ same x) →
     ((chars (lower russian) ≤ 255)%nat → (chars (lower english) ≤ 255)%nat →
      user_words (db w') = rows ++ [row] ∧ state_storage w' !! chat_id = None)
     ∧ (varchar 255 (lower russian) = None ∨ varchar 255 (lower english) = None →
        user_words (db w') = rows
        ∧ sent w'
          = sent w ++ [(chat_id, EnterRussian); (chat_id, EnterTranslation)]
        ∧ Temp.action (temp_of chat_id w') = Some add_translation_action
        ∧ Temp.russian (temp_of chat_id w') = None)).
Proof.
  intros w Hready Hr Hroute0 Hroute1 Hroute2 Hnav1 Hnav2.
  exact (add_dialogue_bot is_start int_of_last chat_id user state category level
           russian english new_id b Hready Hr Hroute0 Hroute1 Hroute2 Hnav1 Hnav2).
Qed.

(** The chat of the examples owns no word of the numbers that is
    translated "стол". *)
Lemma numbers_chosen_fresh x :
  x ∈ user_words (db (Bot.world numbers_chosen)) →
  UserWord.translation x = "стол" → UserWord.category x ≠ "числа".
Proof.
  intros Hx.
  assert (Forall (λ x, UserWord.translation x = "стол" →
                       UserWord.category x ≠ "числа")
                 (user_words (db (Bot.world numbers_chosen)))) as Hrows.
  { apply (bool_decide_unpack _). by vm_compute. }
  rewrite Forall_forall in Hrows. by apply Hrows.
Qed.

Lemma numbers_chosen_ready :
  ready 1 (User.mk 1 1) (UserState.mk 1 (Some 1) (Some "числа")) "числа" 1
        (Bot.world numbers_chosen).
Proof. repeat split; (reflexivity || discriminate). Qed.

Lemma add_dialogue_commits_witness :
  let added english :=
    user_words
      (db (Bot.world
             (bot_run start_text level_text
                      [message 1 Command.ADD_WORD 1; message 1 "стол" 1;
                       message 1 english 1] numbers_chosen))) in
  added "Table"
  = user_words (db (Bot.world numbers_chosen))
    ++ [UserWord.mk 1 "table" "стол" "числа" 1 false]
  ∧ added long_word = user_words (db (Bot.world numbers_chosen)).
Proof.
  split.
  - destruct (add_dialogue_commits start_text level_text 1 (User.mk 1 1)
                (UserState.mk 1 (Some 1) (Some "числа")) "числа" 1
                "стол" "Table" 1 numbers_chosen numbers_chosen_ready
                ltac:(discriminate) eq_refl eq_refl eq_refl eq_refl eq_refl)
      as (_ & _ & _ & _ & _ & Hnew).
    destruct Hnew as [Hfits _].
    + intros x Hx (_ & _ & Ht & Hc & _).
      by apply (numbers_chosen_fresh x Hx Ht).
    + apply Hfits; vm_compute; lia.
  - destruct (add_dialogue_commits start_text level_text 1 (User.mk 1 1)
                (UserState.mk 1 (Some 1) (Some "числа")) "числа" 1
                "стол" long_word 1 numbers_chosen numbers_chosen_ready
                ltac:(discriminate) eq_refl eq_refl eq_refl eq_refl eq_refl)
      as (_ & _ & _ & _ & _ & Hnew).
    destruct Hnew as [_ Hrefused].
    + intros x Hx (_ & _ & Ht & Hc & _).
      by apply (numbers_chosen_fresh x Hx Ht).
    + apply Hrefused. right. reflexivity.
Defined.

(** The delete dialogue in the bot. *)
Lemma delete_dialogue_bot is_start int_of_last chat_id user state category
    russian new_id b :
  let w := Bot.world b in
  user_of chat_id (db w) = Some user →
  state_of user (db w) = Some state →
  UserState.category state = Some category → category ≠ "" →
  route is_start chat_id Command.DELETE_WORD b = Some DeleteWord →
  route is_start chat_id russian b = Some HandleText →
  process_menu_navigation russian = None →
  ∃ w',
    delete_dialogue chat_id russian w = Done w'
    ∧ bot_run is_start int_of_last
              [message chat_id Command.DELETE_WORD new_id;
               message chat_id russian new_id] b
      = Bot.with_world w' b.
Proof.
  intros w Huser Hstate Hcategory Hc Hroute0 Hroute1 Hnav.
  destruct (delete_dialogue_spec chat_id user state category russian w
              Huser Hstate Hcategory Hc Hnav) as (w' & Hdialogue & _).
  exists w'. split; [done|].
  unfold delete_dialogue in Hdialogue.
  pose proof (stage_delete chat_id user state category w Huser Hstate Hcategory Hc)
    as Hstage.
  rewrite Hstage in Hdialogue. cbn [bind] in Hdialogue.
  set (w1 := staged _ _ _ _ _ w) in *.
  unfold bot_run. cbn [fold_left].
  rewrite (apply_DeleteWord _ _ _ _ _ _ Hroute0). fold w. rewrite Hstage.
  cbn [lift bot_of].
  rewrite (apply_HandleText is_start int_of_last chat_id russian);
    [|by rewrite (route_same is_start chat_id russian b)].
  cbn [Bot.with_world Bot.world].
  rewrite insert_of_None.
  - by rewrite Hdialogue.
  - destruct (insert_of chat_id russian w1) as [i|] eqn:Hinsert; [|done].
    apply insert_of_action in Hinsert.
    unfold w1 in Hinsert. by rewrite temp_of_staged in Hinsert.
Qed.

(** X8: adding a word and then deleting it by its Russian text, for texts
    that reach their handlers and values of at most 255 characters.  After
    the add dialogue has appended the new row, the delete dialogue with the
    same Russian text removes one row of the user with that translation in
    the category and level, so the table has as many rows as before; it is
    the table as it was exactly when the user owned no such row before.
    The session is erased. *)
Theorem add_then_delete is_start int_of_last chat_id user state category level
    russian english new_id b :
  let w := Bot.world b in
  ready chat_id user state category level w →
  russian ≠ "" →
  route is_start chat_id Command.ADD_WORD b = Some AddWord →
  route is_start chat_id russian b = Some HandleText →
  route is_start chat_id english b = Some HandleText →
  process_menu_navigation russian = None →
  process_menu_navigation english = None →
  (chars (lower russian) ≤ 255)%nat →
  (chars (lower english) ≤ 255)%nat →
  let rows := user_words (db w) in
  let row :=
    UserWord.mk (User.id user) (lower english) (lower russian)
                (lower category) level false in
  let shares (x : UserWord.t) :=
    UserWord.user_id x = User.id user
    ∧ UserWord.translation x = lower russian
    ∧ UserWord.category x = lower category
    ∧ UserWord.level x = level in
  (∀ x, x ∈ rows → shares x → UserWord.word x ≠ lower english) →
  let b1 :=
    bot_run is_start int_of_last
            [message chat_id Command.ADD_WORD new_id;
             message chat_id russian new_id;
             message chat_id english new_id] b in
  route is_start chat_id Command.DELETE_WORD b1 = Some DeleteWord →
  route is_start chat_id russian b1 = Some HandleText →
  let b2 :=
    bot_run is_start int_of_last
            [message chat_id Command.DELETE_WORD new_id;
             message chat_id russian new_id] b1 in
  user_words (db (Bot.world b1)) = rows ++ [row]
  ∧ (∃ x, shares x ∧ rows ++ [row] ≡ₚ x :: user_words (db (Bot.world b2)))
  ∧ length (user_words (db (Bot.world b2))) = length rows
  ∧ ((∀ x, x ∈ rows → ¬ shares x) → user_words (db (Bot.world b2)) = rows)
  ∧ state_storage (Bot.world b2) !! chat_id = None.
Proof.
  intros w Hready Hr Hroute0 Hroute1 Hroute2 Hnav1 Hnav2 Hfits1 Hfits2
    rows row shares Hfresh b1 Hroute3 Hroute4 b2.
  destruct (add_dialogue_bot is_start int_of_last chat_id user state category
              level russian english new_id b Hready Hr Hroute0 Hroute1 Hroute2
              Hnav1 Hnav2) as (Husers & Hstates & _ & _ & _ & Hnew).
  fold w b1 in Husers, Hstates, Hnew.
  destruct Hnew as [Hnew _].
  { intros x Hx (H1 & H2 & H3 & H4 & H5). by apply (Hfresh x Hx). }
  destruct (Hnew Hfits1 Hfits2) as [Hrows1 _]. fold rows row in Hrows1.
  destruct Hready as (Huser & Hstate & Hcategory & Hc & Hlevel & Hl).
  destruct (delete_dialogue_bot is_start int_of_last chat_id user state category
              russian new_id b1) as (w2 & Hdialogue & Hb2); try done.
  { unfold user_of in *. by rewrite Husers. }
  { unfold state_of in *. by rewrite Hstates. }
  destruct (delete_dialogue_spec chat_id user state category russian
              (Bot.world b1)) as (w2' & Hdialogue' & Hnone & _ & _ & Hrows2);
    try done.
  { unfold user_of in *. by rewrite Husers. }
  { unfold state_of in *. by rewrite Hstates. }
  rewrite Hdialogue in Hdialogue'. injection Hdialogue' as <-.
  fold b2 in Hb2. rewrite Hb2. cbn [Bot.with_world Bot.world].
  rewrite Hrows1, Hlevel in Hrows2.
  assert (∀ y, delete_filter user (lower russian) (lower category) (Some level) y
               ↔ shares y) as Hfilter.
  { intros y. unfold delete_filter, shares. rewrite lower_idempotent.
    split; [intros (H1 & H2 & H3 & [= H4]); by split_and!
           |intros (H1 & H2 & H3 & H4); split_and!; congruence]. }
  assert (shares row) as Hrow by done.
  destruct (list_find (delete_filter user (lower russian) (lower category)
                                     (Some level)) (rows ++ [row]))
    as [[i x]|] eqn:Hfind.
  - apply list_find_Some in Hfind as (Hi & Hx & Hfirst).
    assert (rows ++ [row] ≡ₚ x :: user_words (db w2)) as Hperm.
    { rewrite Hrows2. by apply delete_Permutation. }
    split; [done|]. split; [exists x; split; [by apply Hfilter|done]|].
    split.
    { apply Permutation_length in Hperm.
      rewrite length_app in Hperm. simpl in Hperm. lia. }
    split; [|done].
    intros Hnone'.
    assert (i = length rows) as ->.
    { destruct (decide (i < length rows)%nat) as [Hlt|Hge].
      - rewrite lookup_app_l in Hi by done.
        destruct (Hnone' x); [by eapply list_elem_of_lookup_2|by apply Hfilter].
      - apply lookup_lt_Some in Hi. rewrite length_app in Hi. simpl in Hi. lia. }
    rewrite Hrows2. apply delete_at_end.
  - apply list_find_None in Hfind. rewrite Forall_forall in Hfind.
    destruct (Hfind row); [|by apply Hfilter].
    apply elem_of_app. right. apply list_elem_of_here.
Qed.

Lemma add_then_delete_witness :
  user_words
    (db (Bot.world
           (bot_run start_text level_text
                    [message 1 Command.DELETE_WORD 1; message 1 "стол" 1]
                    (bot_run start_text level_text
                             [message 1 Command.ADD_WORD 1; message 1 "стол" 1;
                              message 1 "Table" 1] numbers_chosen))))
  = user_words (db (Bot.world numbers_chosen)).
Proof.
  destruct (add_then_delete start_text level_text 1 (User.mk 1 1)
              (UserState.mk 1 (Some 1) (Some "числа")) "числа" 1
              "стол" "Table" 1 numbers_chosen numbers_chosen_ready
              ltac:(discriminate) eq_refl eq_refl eq_refl eq_refl eq_refl
              ltac:(vm_compute; lia) ltac:(vm_compute; lia))
    as (_ & _ & _ & Hback & _).
  - intros x Hx (_ & Ht & Hc & _) _.
    by apply (numbers_chosen_fresh x Hx Ht).
  - reflexivity.
  - reflexivity.
  - apply Hback. intros x Hx (_ & Ht & Hc & _).
    by apply (numbers_chosen_fresh x Hx Ht).
Defined.

(** ** A translation that cannot be committed, in the bot *)

(** X9: once a translation is awaited whose staged data is incomplete (the
    Russian word, the category or the level is absent or empty, zero for the
    level: as after the add button was pressed at the level 0, or after a
    commit that the column refused), every further text that reaches
    [handle_text] and is no menu caption is answered with the add-data error
    and nothing else happens: the tables, the catalogue and the open card
    stay as they are, and the session keeps awaiting a translation, so these
    texts are never checked as answers. *)
Theorem add_data_error_repeats is_start int_of_last chat_id user state texts
    new_id b :
  let w := Bot.world b in
  user_of chat_id (db w) = Some user →
  state_of user (db w) = Some state →
  Temp.action (temp_of chat_id w) = Some add_translation_action →
  add_data_missing (temp_of chat_id w) →
  Forall (λ text, route is_start chat_id text b = Some HandleText
                  ∧ process_menu_navigation text = None) texts →
  let b' :=
    bot_run is_start int_of_last
            ((λ text, message chat_id text new_id) <$> texts) b in
  let w' := Bot.world b' in
  sent w' = sent w ++ ((λ _, (chat_id, AddDataError)) <$> texts)
  ∧ db w' = db w
  ∧ Bot.words b' = Bot.words b
  ∧ Bot.notices b' = Bot.notices b
  ∧ Temp.action (temp_of chat_id w') = Some add_translation_action
  ∧ add_data_missing (temp_of chat_id w')
  ∧ target_of chat_id w' = target_of chat_id w
  ∧ recent_before chat_id w' = recent_before chat_id w
  ∧ wrong_before chat_id w' = wrong_before chat_id w.
Proof.
  intros w Huser Hstate Haction Hmissing Htexts. subst w. unfold bot_run.
  revert b Huser Hstate Haction Hmissing Htexts.
  induction texts as [|text texts IH];
    intros b Huser Hstate Haction Hmissing Htexts.
  - simpl. rewrite app_nil_r. by split_and!.
  - apply Forall_cons in Htexts as [[Hroute Hnav] Htexts].
    rewrite fmap_cons. cbn [fold_left].
    rewrite (apply_HandleText _ _ _ _ _ _ Hroute).
    rewrite (insert_of_None _ _ _ (insert_of_missing _ text _ Hmissing)).
    rewrite (add_data_error chat_id text user state (Bot.world b)) by done.
    cbn [lift bot_of].
    set (w1 := send_message chat_id AddDataError _).
    assert (temp_of chat_id w1 = Temp.pop_russian (temp_of chat_id (Bot.world b)))
      as Htemp.
    { unfold w1, update_in_place, temp_of at 1, State.get, State.set. simpl.
      by rewrite lookup_insert_eq. }
    assert (Temp.action (temp_of chat_id (Bot.world (Bot.with_world w1 b)))
            = Some add_translation_action) as Haction1.
    { cbn [Bot.with_world Bot.world]. by rewrite Htemp. }
    assert (add_data_missing (temp_of chat_id (Bot.world (Bot.with_world w1 b))))
      as Hmissing1.
    { cbn [Bot.with_world Bot.world]. rewrite Htemp. left. by intros russian [=]. }
    assert (Forall (λ text, route is_start chat_id text (Bot.with_world w1 b)
                            = Some HandleText
                            ∧ process_menu_navigation text = None) texts)
      as Htexts1.
    { eapply Forall_impl; [exact Htexts|]. intros t [Ht Hn]. split; [|done].
      by rewrite (route_same is_start chat_id t b). }
    destruct (IH (Bot.with_world w1 b) Huser Hstate Haction1 Hmissing1 Htexts1)
      as (Hsent & Hdb & Hwords & Hnotices & Hact & Hmiss & Ht & Hr & Hw).
    cbn [Bot.with_world Bot.world Bot.words Bot.notices] in *.
    cbv zeta. split_and!; try done.
    + rewrite Hsent. simpl. by rewrite <- app_assoc.
    + rewrite Ht. unfold target_of. by rewrite Htemp.
    + rewrite Hr. unfold recent_before. by rewrite Htemp.
    + rewrite Hw. unfold wrong_before. by rewrite Htemp.
Qed.

Lemma add_data_error_repeats_witness :
  let b :=
    bot_run start_text level_text
            [message 1 "Уровень 0" 1; message 1 Command.ADD_WORD 1;
             message 1 "стол" 1] numbers_chosen in
  sent (Bot.world
          (bot_run start_text level_text
                   ((λ text, message 1 text 1) <$> ["table"; "one"; "two"]) b))
  = sent (Bot.world b) ++ [(1, AddDataError); (1, AddDataError); (1, AddDataError)].
Proof.
  intros b.
  destruct (add_data_error_repeats start_text level_text 1 (User.mk 1 1)
              (UserState.mk 1 (Some 0) (Some "числа")) ["table"; "one"; "two"]
              1 b eq_refl eq_refl eq_refl) as (Hsent & _).
  - right. right. intros level Hlevel.
    assert (Temp.level (temp_of 1 (Bot.world b)) = Some 0) as Hzero
      by (by vm_compute).
    rewrite Hzero in Hlevel. by injection Hlevel as <-.
  - repeat constructor; by vm_compute.
  - exact Hsent.
Defined.
